(** * Task graph, dispatch and fix-retest loop of the self-evolving test pipeline

    A shallow embedding of the TypeScript examples of the repository:
    - the [TaskManager] and [MultiAgentOrchestrator] classes of the
      multi-agent workflow,
    - the [ParallelDevelopmentManager] class of the parallel workflow,
    - [runAgent] of the marketing orchestrator,
    - [NextJsTestAutomation] (examples/nextjs-test-automation.ts).

    Asynchronous methods are functions in a state monad whose results are
    completions: a normal return, a thrown exception (a rejected promise) or
    a promise that never settles.  The agent sessions, the clock, the disk and
    the test runner are scripted parts of the state. *)

From Stdlib Require Import ZArith List Bool Lia.
From Stdlib Require Import Floats.SpecFloat.
From Stdlib Require Import Reals Lra.
From stdpp Require Import base option list strings gmap.

Set Warnings "-register-all".

Open Scope string_scope.
Open Scope list_scope.
Open Scope Z_scope.

(* ===================================================================== *)
(** * Part I: definitions *)
(* ===================================================================== *)

(** ** JavaScript built-ins used by the sources *)

Module JS.

(** *** [Map<string, V>]: keyed, iterated in insertion order *)

Definition Map (V : Type) : Type := list (string * V).

Fixpoint get {V} (k : string) (m : Map V) : option V :=
  match m with
  | [] => None
  | (k', v) :: m' => if String.eqb k' k then Some v else get k m'
  end.

(** [m.set(k, v)]: an existing key keeps its position, a new key goes last. *)
Fixpoint set {V} (k : string) (v : V) (m : Map V) : Map V :=
  match m with
  | [] => [(k, v)]
  | (k', v') :: m' =>
      if String.eqb k' k then (k, v) :: m' else (k', v') :: set k v m'
  end.

Definition values {V} (m : Map V) : list V := map snd m.
Definition keys {V} (m : Map V) : list string := map fst m.

(** *** [Date]: milliseconds since the epoch, and [toISOString] *)

Definition Date : Type := Z.

Definition digit (n : Z) : string :=
  String (Ascii.ascii_of_N (Z.to_N (48 + n mod 10))) EmptyString.

Fixpoint pad (width : nat) (n : Z) : string :=
  match width with
  | O => EmptyString
  | S w => pad w (n / 10) +:+ digit n
  end.

(** Year, month and day of a day count since 1970-01-01 in the proleptic
    Gregorian calendar. *)
Definition civil_from_days (days : Z) : Z * Z * Z :=
  let z := days + 719468 in
  let era := z / 146097 in
  let doe := z mod 146097 in
  let yoe := (doe - doe / 1460 + doe / 36524 - doe / 146096) / 365 in
  let doy := doe - (365 * yoe + yoe / 4 - yoe / 100) in
  let mp := (5 * doy + 2) / 153 in
  let d := doy - (153 * mp + 2) / 5 + 1 in
  let m := if mp <? 10 then mp + 3 else mp - 9 in
  let y := yoe + era * 400 + (if m <=? 2 then 1 else 0) in
  (y, m, d).

Definition year_string (y : Z) : string :=
  if (0 <=? y) && (y <=? 9999) then pad 4 y
  else if y <? 0 then "-" +:+ pad 6 (- y)
  else "+" +:+ pad 6 y.

Definition toISOString (t : Date) : string :=
  let '(y, m, d) := civil_from_days (t / 86400000) in
  let ms := t mod 86400000 in
  year_string y +:+ "-" +:+ pad 2 m +:+ "-" +:+ pad 2 d +:+ "T"
    +:+ pad 2 (ms / 3600000) +:+ ":" +:+ pad 2 (ms / 60000 mod 60) +:+ ":"
    +:+ pad 2 (ms / 1000 mod 60) +:+ "." +:+ pad 3 (ms mod 1000) +:+ "Z".

(** *** Values, and [JSON.stringify] / [JSON.parse] on them

    A file written with [JSON.stringify] is kept as the JSON document its
    text denotes; [JSON.parse] of that text gives the document back as a
    value.  A JSON document has no dates and no [undefined].

    An object is the finite map from the names of its own properties to
    their values.  The order of the properties, which depends on how the
    object was built ([Object.assign] puts a new property last) and which
    [JSON.stringify] and [JSON.parse] keep, is not part of it. *)

Inductive Value : Type :=
| VUndefined
| VNull
| VString (s : string)
| VDate (t : Date)
| VArray (items : list Value)
| VObject (props : gmap string Value).

Inductive Json : Type :=
| JNull
| JString (s : string)
| JArray (items : list Json)
| JObject (props : gmap string Json).

(** [SerializeJSONProperty]: [None] stands for the [undefined] result.  A
    date is replaced by its [toJSON()], the ISO string; an [undefined]
    property is left out of an object and becomes [null] in an array. *)
Fixpoint stringify (v : Value) : option Json :=
  match v with
  | VUndefined => None
  | VNull => Some JNull
  | VString s => Some (JString s)
  | VDate t => Some (JString (toISOString t))
  | VArray items =>
      Some (JArray (map (fun x => default JNull (stringify x)) items))
  | VObject props => Some (JObject (omap stringify props))
  end.

Fixpoint parse (j : Json) : Value :=
  match j with
  | JNull => VNull
  | JString s => VString s
  | JArray items => VArray (map parse items)
  | JObject props => VObject (parse <$> props)
  end.

(** A property of an object literal whose value may be absent: it is set
    when there is a value. *)
Definition with_prop (k : string) (v : option Value) (o : gmap string Value)
  : gmap string Value :=
  match v with Some x => <[k := x]> o | None => o end.

(** *** Numbers: IEEE 754 binary64, and [Math.round] *)

Definition number : Type := spec_float.

Definition of_int (n : Z) : number := binary_normalize 53 1024 n 0 false.
Definition div (x y : number) : number := SFdiv 53 1024 x y.
Definition mul (x y : number) : number := SFmul 53 1024 x y.

(** [Math.round x] is [floor (x + 1/2)] computed exactly.  It is used here
    on finite numbers only; the other cases return 0. *)
Definition Math_round (x : number) : Z :=
  match x with
  | S754_finite s m e =>
      let v := if s then Z.neg m else Z.pos m in
      if 0 <=? e then v * 2 ^ e
      else (2 * v + 2 ^ (- e)) / 2 ^ (1 - e)
  | _ => 0
  end.

(** *** [String.prototype.trim] on UTF-8 text

    White space and line terminators of ECMAScript, by their UTF-8 bytes. *)
Definition byte_is (c : Ascii.ascii) (n : N) : bool :=
  N.eqb (Ascii.N_of_ascii c) n.

Definition strip_ws (s : string) : option string :=
  match s with
  | String a r =>
      if byte_is a 9 || byte_is a 10 || byte_is a 11 || byte_is a 12
         || byte_is a 13 || byte_is a 32
      then Some r
      else match r with
      | String b r2 =>
          if byte_is a 194 && byte_is b 160 then Some r2
          else match r2 with
          | String c r3 =>
              let n := Ascii.N_of_ascii c in
              if byte_is a 225 && byte_is b 154 && byte_is c 128 then Some r3
              else if byte_is a 226 && byte_is b 128
                      && ((128 <=? n)%N && (n <=? 138)%N
                          || byte_is c 168 || byte_is c 169 || byte_is c 175)
                   then Some r3
              else if byte_is a 226 && byte_is b 129 && byte_is c 159
                   then Some r3
              else if byte_is a 227 && byte_is b 128 && byte_is c 128
                   then Some r3
              else if byte_is a 239 && byte_is b 187 && byte_is c 191
                   then Some r3
              else None
          | EmptyString => None
          end
      | EmptyString => None
      end
  | EmptyString => None
  end.

Fixpoint trimStart_fuel (fuel : nat) (s : string) : string :=
  match fuel with
  | O => s
  | S f =>
      match strip_ws s with
      | Some r => trimStart_fuel f r
      | None => s
      end
  end.

Definition trimStart (s : string) : string :=
  trimStart_fuel (String.length s) s.

Fixpoint trimEnd (s : string) : string :=
  match s with
  | EmptyString => EmptyString
  | String a r =>
      if String.eqb (trimStart s) EmptyString then EmptyString
      else String a (trimEnd r)
  end.

Definition trim (s : string) : string := trimEnd (trimStart s).

(** The line feed, ["\n"]. *)
Definition LF : string := String (Ascii.ascii_of_N 10) EmptyString.

(** *** Completions of asynchronous calls *)

Inductive Exn : Type := Error (message : string).

Definition message_of (e : Exn) : string := let 'Error m := e in m.

Inductive Completion (A : Type) : Type :=
| Return (a : A)
| Throw (e : Exn)
| Never.

Arguments Return {A} a.
Arguments Throw {A} e.
Arguments Never {A}.

End JS.

Import JS.

(** ** The state monad of asynchronous methods *)

Definition M (S A : Type) : Type := S -> S * Completion A.

Definition ret {S A} (a : A) : M S A := fun s => (s, Return a).

Definition bind {S A B} (c : M S A) (k : A -> M S B) : M S B :=
  fun s =>
    match c s with
    | (s', Return a) => k a s'
    | (s', Throw e) => (s', Throw e)
    | (s', Never) => (s', Never)
    end.

Definition throw {S A} (e : Exn) : M S A := fun s => (s, Throw e).
Definition gets {S A} (f : S -> A) : M S A := fun s => (s, Return (f s)).
Definition modify {S} (f : S -> S) : M S unit := fun s => (f s, Return tt).

(** [try { c } catch (error) { h error }] *)
Definition try_catch {S A} (c : M S A) (h : Exn -> M S A) : M S A :=
  fun s =>
    match c s with
    | (s', Throw e) => h e s'
    | r => r
    end.

Notation "x <- c ;; k" := (bind c (fun x => k))
  (at level 100, c at next level, right associativity).
Notation "c ;;; k" := (bind c (fun _ => k))
  (at level 100, right associativity).

(** [for (const x of xs) { await body(x) }] *)
Fixpoint for_of {S A} (xs : list A) (body : A -> M S unit) : M S unit :=
  match xs with
  | [] => ret tt
  | x :: xs' => body x ;;; for_of xs' body
  end.

(** ** The disk and the clock *)

(** What a file holds: the JSON document its text denotes, or a text that
    denotes none, such as the empty or cut-off text a write leaves when it
    fails under way. *)
Inductive Content : Type :=
| Document (j : Json)
| Garbled.

(** Why a path cannot be written, and what the failed call leaves there.
    [fs.writeFile] opens the file with the flag ['w'], which empties it, and
    then writes: a failure at the open (EACCES, EISDIR, EROFS) leaves the
    file as it was ([None]); a failure after it (ENOSPC, EIO) leaves the
    text written until then, empty or cut off as a rule. *)
Record Fault : Type := {
  f_message : string;
  f_leaves : option Content
}.

(** [files] holds what was written so far; a path listed in [faults] cannot
    be written, and [fs.writeFile] rejects there with the message of the
    fault.  The [k]-th evaluation of [new Date()] reads [time_of k]. *)
Record Sys : Type := {
  files : gmap string Content;
  faults : gmap string Fault;
  time_of : nat -> Date;
  reads : nat
}.

Definition write_file (path : string) (data : Json) (sys : Sys)
  : Sys * Completion unit :=
  match faults sys !! path with
  | Some fault =>
      ({| files := match f_leaves fault with
                   | Some text => <[path := text]> (files sys)
                   | None => files sys
                   end;
          faults := faults sys;
          time_of := time_of sys; reads := reads sys |},
       Throw (Error (f_message fault)))
  | None =>
      ({| files := <[path := Document data]> (files sys);
          faults := faults sys;
          time_of := time_of sys; reads := reads sys |}, Return tt)
  end.

(** [JSON.parse] of what [fs.readFile] gives for [path]; [None] when there
    is no such file or its text is no JSON document. *)
Definition read_json (path : string) (sys : Sys) : option Value :=
  match files sys !! path with
  | Some (Document j) => Some (parse j)
  | _ => None
  end.

Definition read_clock (sys : Sys) : Sys * Date :=
  ({| files := files sys; faults := faults sys;
      time_of := time_of sys; reads := S (reads sys) |},
   time_of sys (reads sys)).

(** ** The task tracker of the multi-agent workflow (class [TaskManager]) *)

Module TaskManager.

Inductive Priority : Type := high | medium | low.
Inductive Assignee : Type := developer | tester.
Inductive Status : Type := Pending | InProgress | Testing | Completed | Failed.

#[global] Instance Priority_eq_dec : EqDecision Priority.
Proof. solve_decision. Defined.
#[global] Instance Assignee_eq_dec : EqDecision Assignee.
Proof. solve_decision. Defined.
#[global] Instance Status_eq_dec : EqDecision Status.
Proof. solve_decision. Defined.

Record Task : Type := {
  id : string;
  description : string;
  priority : Priority;
  assignedTo : Assignee;
  status : Status;
  dependencies : list string;
  result : option string;
  startTime : option Date;
  endTime : option Date
}.

(** [Partial<Task>]: [None] is an absent key.  For the optional fields,
    [Some None] is a key present with the value [undefined]. *)
Record Partial : Type := {
  u_id : option string;
  u_description : option string;
  u_priority : option Priority;
  u_assignedTo : option Assignee;
  u_status : option Status;
  u_dependencies : option (list string);
  u_result : option (option string);
  u_startTime : option (option Date);
  u_endTime : option (option Date)
}.

Definition no_updates : Partial :=
  {| u_id := None; u_description := None; u_priority := None;
     u_assignedTo := None; u_status := None; u_dependencies := None;
     u_result := None; u_startTime := None; u_endTime := None |}.

(** [Object.assign(task, updates)] *)
Definition assign (task : Task) (updates : Partial) : Task :=
  {| id := default (id task) (u_id updates);
     description := default (description task) (u_description updates);
     priority := default (priority task) (u_priority updates);
     assignedTo := default (assignedTo task) (u_assignedTo updates);
     status := default (status task) (u_status updates);
     dependencies := default (dependencies task) (u_dependencies updates);
     result := default (result task) (u_result updates);
     startTime := default (startTime task) (u_startTime updates);
     endTime := default (endTime task) (u_endTime updates) |}.

(** The fields of the class, with the disk and the clock it works on. *)
Record State : Type := {
  tasks : Map Task;
  logFile : string;
  sys : Sys
}.

Definition with_tasks (m : Map Task) (s : State) : State :=
  {| tasks := m; logFile := logFile s; sys := sys s |}.
Definition with_sys (y : Sys) (s : State) : State :=
  {| tasks := tasks s; logFile := logFile s; sys := y |}.

Definition new_Date : M State Date :=
  fun s => let '(y, t) := read_clock (sys s) in (with_sys y s, Return t).

Definition writeFile (path : string) (data : option Json) : M State unit :=
  fun s =>
    match data with
    | Some j => let '(y, c) := write_file path j (sys s) in (with_sys y s, c)
    | None => (s, Throw (Error "ERR_INVALID_ARG_TYPE"))
    end.

(** The object a task is, property by property; an optional field that is
    [undefined] has no property. *)
Definition priority_string (p : Priority) : string :=
  match p with high => "high" | medium => "medium" | low => "low" end.
Definition assignee_string (a : Assignee) : string :=
  match a with developer => "developer" | tester => "tester" end.
Definition status_string (s : Status) : string :=
  match s with
  | Pending => "pending" | InProgress => "in-progress" | Testing => "testing"
  | Completed => "completed" | Failed => "failed"
  end.

Definition Task_value (t : Task) : Value :=
  VObject
    (<["id" := VString (id t)]>
       (<["description" := VString (description t)]>
          (<["priority" := VString (priority_string (priority t))]>
             (<["assignedTo" := VString (assignee_string (assignedTo t))]>
                (<["status" := VString (status_string (status t))]>
                   (<["dependencies" := VArray (map VString (dependencies t))]>
                      (with_prop "result" (VString <$> result t)
                         (with_prop "startTime" (VDate <$> startTime t)
                            (with_prop "endTime" (VDate <$> endTime t)
                               ∅))))))))).

Definition getTask (i : string) (s : State) : option Task := get i (tasks s).

Definition getAllTasks (s : State) : list Task := values (tasks s).

Definition saveLog : M State unit :=
  now <- new_Date ;;
  all <- gets getAllTasks ;;
  file <- gets logFile ;;
  let log :=
    VObject (<["timestamp" := VString (toISOString now)]>
               (<["tasks" := VArray (map Task_value all)]> ∅)) in
  writeFile file (stringify log).

Definition addTask (task : Task) : M State unit :=
  modify (fun s => with_tasks (set (id task) task (tasks s)) s) ;;;
  saveLog.

(** [Object.assign] mutates the stored object: the entry keeps its key and
    its position.  The map holds the tasks by value, which is the map of
    objects of the source as long as no object is stored under two keys;
    [addTask] stores an object under its own id, so that the maps it builds
    ([well_keyed] below) are of this kind. *)
Definition updateTask (i : string) (updates : Partial) : M State unit :=
  found <- gets (getTask i) ;;
  match found with
  | Some task =>
      modify (fun s => with_tasks (set i (assign task updates) (tasks s)) s) ;;;
      saveLog
  | None => ret tt
  end.

Definition dep_completed (s : State) (depId : string) : bool :=
  match get depId (tasks s) with
  | Some dep => bool_decide (status dep = Completed)
  | None => false
  end.

Definition is_ready (s : State) (task : Task) : bool :=
  if bool_decide (status task <> Pending) then false
  else forallb (dep_completed s) (dependencies task).

Definition getReadyTasks (s : State) : list Task :=
  List.filter (is_ready s) (getAllTasks s).

Record Progress : Type := {
  total : Z;
  completed : Z;
  failed : Z;
  percentage : Z
}.

Definition count_status (st : Status) (ts : list Task) : Z :=
  Z.of_nat (length (List.filter (fun t => bool_decide (status t = st)) ts)).

Definition getProgress (s : State) : Progress :=
  let ts := getAllTasks s in
  let total := Z.of_nat (length ts) in
  let completed := count_status Completed ts in
  let failed := count_status Failed ts in
  {| total := total;
     completed := completed;
     failed := failed;
     percentage :=
       if total >? 0
       then Math_round (mul (div (of_int completed) (of_int total)) (of_int 100))
       else 0 |}.

End TaskManager.

(** ** Agent sessions of the Copilot SDK *)

Module Copilot.

(** The events a listener registered with [session.on] receives, by their
    [type]: "assistant.message", "tool.execution_start", "session.idle",
    "error", and any other type. *)
Inductive SessionEvent : Type :=
| assistant_message (content : option string)
| tool_execution_start (toolName : string)
| session_idle
| error (message : option string)
| other_event (type : string).

(** What a session does with one [session.send]: the call may reject, and
    the listeners then see [events] in order. *)
Record Reply : Type := {
  send_error : option Exn;
  events : list SessionEvent
}.

(** A scripted session: its replies to the successive calls of [send]. *)
Definition Session : Type := list Reply.

Definition silent : Reply := {| send_error := None; events := [] |}.

(** [text || fallback]: an absent or empty text gives the fallback. *)
Definition or_else (fallback : string) (text : option string) : string :=
  match text with
  | Some t => if String.eqb t "" then fallback else t
  | None => fallback
  end.

(** [content || ""] *)
Definition or_empty (content : option string) : string := or_else "" content.

(** What the promise of a waiting call sees: the events of the session, and
    the callback of its [setTimeout] when the time is up. *)
Inductive Signal : Type :=
| Event (e : SessionEvent)
| TimerFires.

End Copilot.

Import Copilot.

(** ** The coordinator of the multi-agent workflow
       (class [MultiAgentOrchestrator]) *)

Module Orchestrator.

Import TaskManager.

Inductive SessionRef : Type := supervisorSession | devSession | testSession.

(** One call of [executeTask]: the task object handed over and the task map
    at that moment.  The list of these is kept only to state properties. *)
Record Dispatch : Type := {
  d_task : Task;
  d_tasks : Map Task
}.

Record State : Type := {
  taskManager : TaskManager.State;
  supervisor : Session;
  dev : Session;
  test : Session;
  dispatched : list Dispatch
}.

Definition with_taskManager (t : TaskManager.State) (s : State) : State :=
  {| taskManager := t; supervisor := supervisor s; dev := dev s;
     test := test s; dispatched := dispatched s |}.

Definition session_of (r : SessionRef) (s : State) : Session :=
  match r with
  | supervisorSession => supervisor s
  | devSession => dev s
  | testSession => test s
  end.

Definition with_session (r : SessionRef) (x : Session) (s : State) : State :=
  match r with
  | supervisorSession =>
      {| taskManager := taskManager s; supervisor := x; dev := dev s;
         test := test s; dispatched := dispatched s |}
  | devSession =>
      {| taskManager := taskManager s; supervisor := supervisor s; dev := x;
         test := test s; dispatched := dispatched s |}
  | testSession =>
      {| taskManager := taskManager s; supervisor := supervisor s;
         dev := dev s; test := x; dispatched := dispatched s |}
  end.

(** A method of [this.taskManager] run from the orchestrator. *)
Definition on_taskManager {A} (c : M TaskManager.State A) : M State A :=
  fun s =>
    let '(t, r) := c (taskManager s) in (with_taskManager t s, r).

Definition note_dispatch (task : Task) : M State unit :=
  modify (fun s =>
    {| taskManager := taskManager s; supervisor := supervisor s;
       dev := dev s; test := test s;
       dispatched := dispatched s ++
         [{| d_task := task; d_tasks := tasks (taskManager s) |}] |}).

(** [await session.send({ prompt })]: takes the next scripted reply; a
    session with no reply left stays silent. *)
Definition send (r : SessionRef) : M State (list SessionEvent) :=
  fun s =>
    let reply := hd silent (session_of r s) in
    let s' := with_session r (tl (session_of r s)) s in
    match send_error reply with
    | Some e => (s', Throw e)
    | None => (s', Return (events reply))
    end.

(** The listener of [executeTask]: [result] is overwritten by every
    message, and the promise resolves with it at the first idle event. *)
Fixpoint listen (result : string) (evs : list SessionEvent)
  : Completion string :=
  match evs with
  | [] => Never
  | assistant_message content :: evs' => listen (or_empty content) evs'
  | session_idle :: _ => Return result
  | _ :: evs' => listen result evs'
  end.

Definition await {S A} (c : Completion A) : M S A := fun s => (s, c).

Definition executeTask (task : Task) (session : SessionRef) : M State unit :=
  note_dispatch task ;;;
  start <- on_taskManager new_Date ;;
  on_taskManager
    (updateTask (id task)
       {| u_id := None; u_description := None; u_priority := None;
          u_assignedTo := None; u_status := Some InProgress;
          u_dependencies := None; u_result := None;
          u_startTime := Some (Some start); u_endTime := None |}) ;;;
  evs <- send session ;;
  result <- await (listen "" evs) ;;
  finish <- on_taskManager new_Date ;;
  on_taskManager
    (updateTask (id task)
       {| u_id := None; u_description := None; u_priority := None;
          u_assignedTo := None; u_status := Some Completed;
          u_dependencies := None; u_result := Some (Some result);
          u_startTime := None; u_endTime := Some (Some finish) |}).

Definition assigned (a : Assignee) (t : Task) : bool :=
  bool_decide (assignedTo t = a).

Definition executeDevelopmentTasks : M State unit :=
  readyTasks <- gets (fun s =>
    List.filter (assigned developer) (getReadyTasks (taskManager s))) ;;
  for_of readyTasks (fun task => executeTask task devSession).

Definition executeTestingTasks : M State unit :=
  testTasks <- gets (fun s =>
    List.filter (assigned tester) (getAllTasks (taskManager s))) ;;
  for_of testTasks (fun task =>
    readyTasks <- gets (fun s => getReadyTasks (taskManager s)) ;;
    match List.find (fun t => String.eqb (id t) (id task)) readyTasks with
    | Some _ => executeTask task testSession
    | None => ret tt
    end).

(** Steps 2 and 3 of [processProject]. *)
Definition executeAllTasks : M State unit :=
  executeDevelopmentTasks ;;; executeTestingTasks.

(** The promise of [getTasks] and of [finalReview]: it resolves at the
    first idle event and looks at no other event. *)
Fixpoint until_idle (evs : list SessionEvent) : Completion unit :=
  match evs with
  | [] => Never
  | session_idle :: _ => Return tt
  | _ :: evs' => until_idle evs'
  end.

Definition sampleTasks : list Task :=
  [{| id := "T1"; description := "設計和實現用戶認證模組"; priority := high;
      assignedTo := developer; status := Pending; dependencies := [];
      result := None; startTime := None; endTime := None |};
   {| id := "T2"; description := "創建用戶資料庫模型"; priority := high;
      assignedTo := developer; status := Pending; dependencies := [];
      result := None; startTime := None; endTime := None |};
   {| id := "T3"; description := "為認證模組編寫單元測試"; priority := high;
      assignedTo := tester; status := Pending; dependencies := ["T1"];
      result := None; startTime := None; endTime := None |};
   {| id := "T4"; description := "實現用戶註冊 API 端點"; priority := medium;
      assignedTo := developer; status := Pending; dependencies := ["T2"];
      result := None; startTime := None; endTime := None |};
   {| id := "T5"; description := "編寫 API 整合測試"; priority := medium;
      assignedTo := tester; status := Pending; dependencies := ["T4"];
      result := None; startTime := None; endTime := None |}].

Definition createSampleTasks : M State unit :=
  for_of sampleTasks (fun task => on_taskManager (addTask task)).

(** The reply of the supervisor is not parsed: the tasks are the sample
    tasks whatever it says. *)
Definition getTasks (projectDescription : string) : M State unit :=
  evs <- send supervisorSession ;;
  await (until_idle evs) ;;;
  createSampleTasks.

Definition finalReview : M State unit :=
  evs <- send supervisorSession ;;
  await (until_idle evs).

(** [processProject], without what it prints ([showFinalReport]). *)
Definition processProject (projectDescription : string) : M State unit :=
  getTasks projectDescription ;;;
  executeDevelopmentTasks ;;;
  executeTestingTasks ;;;
  finalReview.

End Orchestrator.

(** ** The parallel workflow (class [ParallelDevelopmentManager]) *)

Module Parallel.

Inductive TaskType : Type := frontend | backend | database | testing.
Inductive Status : Type := Pending | Running | Completed | Failed.

#[global] Instance TaskType_eq_dec : EqDecision TaskType.
Proof. solve_decision. Defined.
#[global] Instance Status_eq_dec : EqDecision Status.
Proof. solve_decision. Defined.

Record DevelopmentTask : Type := {
  id : string;
  type : TaskType;
  description : string;
  files : list string;
  status : Status;
  output : option string;
  error : option string
}.

Definition type_key (ty : TaskType) : string :=
  match ty with
  | frontend => "frontend" | backend => "backend"
  | database => "database" | testing => "testing"
  end.

(** One call of [executeTask] on a session: what the promise hears while it
    waits, and whether the [session.send] that follows rejects. *)
Record Turn : Type := {
  heard : list Signal;
  send_fails : option Exn
}.

Record State : Type := {
  sessions : Map (list Turn);
  tasks : Map DevelopmentTask
}.

Definition addTask (task : DevelopmentTask) (s : State) : State :=
  {| sessions := sessions s; tasks := set (id task) task (tasks s) |}.

(** The promise of [executeTask], with the variables of its closure. *)
Record Waiter : Type := {
  w_output : string;
  hasError : bool;
  timeout_armed : bool;
  settled : option (Completion string)
}.

Definition settle (c : Completion string) (w : Waiter) : Waiter :=
  {| w_output := w_output w; hasError := hasError w;
     timeout_armed := timeout_armed w;
     settled := match settled w with Some c0 => Some c0 | None => Some c end |}.

Definition clearTimeout (w : Waiter) : Waiter :=
  {| w_output := w_output w; hasError := hasError w;
     timeout_armed := false; settled := settled w |}.

Definition hear (w : Waiter) (sig : Signal) : Waiter :=
  match sig with
  | TimerFires =>
      if timeout_armed w
      then settle (Throw (Error "任務執行超時")) (clearTimeout w)
      else w
  | Event (assistant_message content) =>
      {| w_output := w_output w +:+ or_empty content; hasError := hasError w;
         timeout_armed := timeout_armed w; settled := settled w |}
  | Event (Copilot.error message) =>
      settle (Throw (Error (or_else "執行錯誤" message)))
        (clearTimeout
           {| w_output := w_output w; hasError := true;
              timeout_armed := timeout_armed w; settled := settled w |})
  | Event session_idle =>
      let w' := clearTimeout w in
      if hasError w' then w' else settle (Return (w_output w')) w'
  | Event _ => w
  end.

Definition new_waiter : Waiter :=
  {| w_output := ""; hasError := false; timeout_armed := true;
     settled := None |}.

Definition wait (signals : list Signal) : Completion string :=
  match settled (fold_left hear signals new_waiter) with
  | Some c => c
  | None => Never
  end.

(** A write to a field of a task object: the object is the value stored
    under its id in [this.tasks]. *)
Definition mutate (i : string) (f : DevelopmentTask -> DevelopmentTask)
  : M State unit :=
  modify (fun s =>
    match get i (tasks s) with
    | Some t => {| sessions := sessions s; tasks := set i (f t) (tasks s) |}
    | None => s
    end).

Definition set_status (st : Status) (t : DevelopmentTask) : DevelopmentTask :=
  {| id := id t; type := type t; description := description t;
     files := files t; status := st; output := output t; error := error t |}.
Definition set_output (o : string) (t : DevelopmentTask) : DevelopmentTask :=
  {| id := id t; type := type t; description := description t;
     files := files t; status := status t; output := Some o;
     error := error t |}.
Definition set_error (e : string) (t : DevelopmentTask) : DevelopmentTask :=
  {| id := id t; type := type t; description := description t;
     files := files t; status := status t; output := output t;
     error := Some e |}.

(** The next turn of the session stored under [key]; [None] when
    [this.sessions.get(key)] is [undefined]. *)
Definition next_turn (key : string) : M State (option Turn) :=
  fun s =>
    match get key (sessions s) with
    | Some turns =>
        ({| sessions := set key (tl turns) (sessions s); tasks := tasks s |},
         Return (Some (hd {| heard := []; send_fails := None |} turns)))
    | None => (s, Return None)
    end.

Definition await {A} (c : Completion A) : M State A := fun s => (s, c).

Definition executeTask (sessionKey : string) (task : DevelopmentTask)
  : M State unit :=
  mutate (id task) (set_status Running) ;;;
  try_catch
    (turn <- next_turn sessionKey ;;
     match turn with
     | None =>
         throw (Error "Cannot read properties of undefined (reading 'on')")
     | Some t =>
         result <- await (wait (heard t)) ;;
         match send_fails t with Some e => throw e | None => ret tt end ;;;
         mutate (id task) (set_status Completed) ;;;
         mutate (id task) (set_output result)
     end)
    (fun e =>
       mutate (id task) (set_status Failed) ;;;
       mutate (id task) (set_error (message_of e))).

Definition executeTasksInSession (sessionKey : string)
  (ts : list DevelopmentTask) : M State unit :=
  for_of ts (fun task => executeTask sessionKey task).

Definition tasksByType (s : State) (ty : TaskType) : list DevelopmentTask :=
  List.filter (fun t => bool_decide (type t = ty)) (values (tasks s)).

(** [Promise.all]: every lane runs, whatever becomes of the others; the
    lanes work on distinct tasks and sessions, so they are run here one
    after the other, each from the state the previous one left. *)
Fixpoint promise_all (lanes : list (M State unit)) : M State unit :=
  match lanes with
  | [] => ret tt
  | lane :: rest =>
      fun s =>
        let '(s1, c1) := lane s in
        let '(s2, c2) := promise_all rest s1 in
        (s2, match c1, c2 with
             | Throw e, _ => Throw e
             | Never, Throw e => Throw e
             | Never, _ => Never
             | Return _, c => c
             end)
  end.

Definition executeTasksInParallel : M State unit :=
  fun s =>
    promise_all
      (map (fun ty =>
              match tasksByType s ty with
              | [] => ret tt
              | ts => executeTasksInSession (type_key ty) ts
              end)
           [frontend; backend; database; testing]) s.

End Parallel.

(** ** The marketing orchestrator: [runAgent] *)

Module Marketing.

(** [AgentOutput], without its [json] field ([extractJson] is not part of
    this development). *)
Record AgentOutput : Type := {
  name : string;
  raw : string
}.

(** [`${event.data.content}\n`] *)
Definition line_of (content : option string) : string :=
  default "undefined" content +:+ LF.

(** The listener of [runAgent] appends every message with a newline to
    [output], a variable of [runAgent], as long as it is called; it looks at
    no other event but the idle ones. *)
Fixpoint appended (output : string) (evs : list SessionEvent) : string :=
  match evs with
  | [] => output
  | assistant_message content :: evs' =>
      appended (output +:+ line_of content) evs'
  | _ :: evs' => appended output evs'
  end.

(** [await done], and [output] as [runAgent] reads it afterwards.  The
    promise resolves at the first idle event, but [runAgent] goes on only
    when it is scheduled again, and the listener stays registered: [late]
    is the number of events that reach it after that idle event and before
    [runAgent] reads [output] (events emitted in the same turn of the event
    loop, or before [session.send] has resolved). *)
Fixpoint listen (late : nat) (output : string) (evs : list SessionEvent)
  : Completion string :=
  match evs with
  | [] => Never
  | assistant_message content :: evs' =>
      listen late (output +:+ line_of content) evs'
  | session_idle :: evs' => Return (appended output (firstn late evs'))
  | _ :: evs' => listen late output evs'
  end.

Definition runAgent (reply : Reply) (late : nat) (name : string)
  : Completion AgentOutput :=
  match send_error reply with
  | Some e => Throw e
  | None =>
      match listen late "" (events reply) with
      | Return output => Return {| name := name; raw := trim output |}
      | Throw e => Throw e
      | Never => Never
      end
  end.

End Marketing.

(** ** Test automation (class [NextJsTestAutomation]) *)

Module NextJs.

(** The parsed results file of jest ([jestResults : any]), as far as
    [parseTestResults] reads it; the run times are left out.  [None] is a
    property that is missing, or not a thing the code can use as it does:
    [testResults] or [assertionResults] that cannot be iterated, an entry of
    [coverageMap.total] that is [undefined]. *)
Record Assertion : Type := {
  fullName : option string;
  title : string;
  a_status : string;
  failureMessages : option (list string)
}.

Record Suite : Type := {
  s_name : string;
  assertionResults : option (list Assertion)
}.

(** [coverageMap.total.lines] and the like, with their [pct]. *)
Record Figure : Type := {
  pct : option number
}.

Record Totals : Type := {
  t_lines : option Figure;
  t_functions : option Figure;
  t_branches : option Figure;
  t_statements : option Figure
}.

Record CoverageMap : Type := {
  c_total : option Totals
}.

Record JestResults : Type := {
  testResults : option (list Suite);
  coverageMap : option CoverageMap
}.

Record TestResult : Type := {
  testFile : string;
  testSuite : string;
  testName : string;
  status : string;
  error : option string
}.

Record Coverage : Type := {
  lines : number;
  functions : number;
  branches : number;
  statements : number
}.

Record TestReport : Type := {
  totalTests : Z;
  passed : Z;
  failed : Z;
  skipped : Z;
  coverage : option Coverage;
  results : list TestResult
}.

Definition has_status (st : string) (t : TestResult) : bool :=
  String.eqb (status t) st.

Definition count (st : string) (ts : list TestResult) : Z :=
  Z.of_nat (length (List.filter (has_status st) ts)).

Definition TypeError (what : string) : Exn := Error ("TypeError: " +:+ what).

Definition result_of (suite : Suite) (test : Assertion) : TestResult :=
  {| testFile := s_name suite;
     testSuite := s_name suite;
     testName := or_else (title test) (fullName test);
     status := a_status test;
     error := String.concat LF <$> failureMessages test |}.

(** The two nested loops: [for (const test of suite.assertionResults)]
    throws when there is nothing to iterate. *)
Fixpoint collect (suites : list Suite) : Exn + list TestResult :=
  match suites with
  | [] => inr []
  | suite :: rest =>
      match assertionResults suite with
      | None => inl (TypeError "suite.assertionResults is not iterable")
      | Some tests =>
          match collect rest with
          | inl e => inl e
          | inr more => inr (map (result_of suite) tests ++ more)
          end
      end
  end.

(** [x || 0] on a number that may be absent: [undefined], zero and NaN give
    zero. *)
Definition or_zero (x : option number) : number :=
  match x with
  | Some (S754_finite s m e) => S754_finite s m e
  | Some (S754_infinity s) => S754_infinity s
  | _ => of_int 0
  end.

(** [total?.lines.pct || 0], reached with [total] defined: it throws when
    [total.lines] is [undefined]. *)
Definition figure (entry : option Figure) : Exn + number :=
  match entry with
  | None =>
      inl (TypeError "Cannot read properties of undefined (reading 'pct')")
  | Some f => inr (or_zero (pct f))
  end.

Definition coverage_of (jestResults : JestResults) : Exn + option Coverage :=
  match coverageMap jestResults with
  | None => inr None
  | Some map =>
      match c_total map with
      | None =>
          inr (Some {| lines := of_int 0; functions := of_int 0;
                       branches := of_int 0; statements := of_int 0 |})
      | Some total =>
          match figure (t_lines total) with
          | inl e => inl e
          | inr l =>
              match figure (t_functions total) with
              | inl e => inl e
              | inr f =>
                  match figure (t_branches total) with
                  | inl e => inl e
                  | inr b =>
                      match figure (t_statements total) with
                      | inl e => inl e
                      | inr st =>
                          inr (Some {| lines := l; functions := f;
                                       branches := b; statements := st |})
                      end
                  end
              end
          end
      end
  end.

(** [parseTestResults] is not total on what [JSON.parse] may give: it
    throws a [TypeError] when [testResults] or the [assertionResults] of a
    suite cannot be iterated, and when [coverageMap.total] lacks an
    entry. *)
Definition parseTestResults (jestResults : JestResults)
  : Exn + TestReport :=
  match testResults jestResults with
  | None => inl (TypeError "jestResults.testResults is not iterable")
  | Some suites =>
      match collect suites with
      | inl e => inl e
      | inr testResults =>
          match coverage_of jestResults with
          | inl e => inl e
          | inr cov =>
              inr {| totalTests := Z.of_nat (length testResults);
                     passed := count "passed" testResults;
                     failed := count "failed" testResults;
                     skipped := count "skipped" testResults;
                     coverage := cov;
                     results := testResults |}
          end
      end
  end.

(** What the promise of [sendAndWait] hears: the signals of the session and
    its timer, and the rejection of [session.send] passed on by [.catch]. *)
Inductive Heard : Type :=
| Sig (s : Signal)
| SendRejects (e : Exn).

Record Waiter : Type := {
  w_result : string;
  hasError : bool;
  timeout_armed : bool;
  settled : option (Completion string)
}.

Definition settle (c : Completion string) (w : Waiter) : Waiter :=
  {| w_result := w_result w; hasError := hasError w;
     timeout_armed := timeout_armed w;
     settled := match settled w with Some c0 => Some c0 | None => Some c end |}.

Definition clearTimeout (w : Waiter) : Waiter :=
  {| w_result := w_result w; hasError := hasError w;
     timeout_armed := false; settled := settled w |}.

Definition hear (w : Waiter) (h : Heard) : Waiter :=
  match h with
  | Sig TimerFires =>
      if timeout_armed w
      then settle (Throw (Error "操作超時")) (clearTimeout w)
      else w
  | Sig (Event (assistant_message content)) =>
      {| w_result := or_empty content; hasError := hasError w;
         timeout_armed := timeout_armed w; settled := settled w |}
  | Sig (Event (Copilot.error message)) =>
      settle (Throw (Error (or_else "執行錯誤" message)))
        (clearTimeout
           {| w_result := w_result w; hasError := true;
              timeout_armed := timeout_armed w; settled := settled w |})
  | Sig (Event session_idle) =>
      let w' := clearTimeout w in
      if hasError w' then w' else settle (Return (w_result w')) w'
  | Sig (Event _) => w
  | SendRejects e => settle (Throw e) w
  end.

Definition new_waiter : Waiter :=
  {| w_result := ""; hasError := false; timeout_armed := true;
     settled := None |}.

(** [sendAndWait] on what one call hears. *)
Definition wait (heard : list Heard) : Completion string :=
  match settled (fold_left hear heard new_waiter) with
  | Some c => c
  | None => Never
  end.

(** One run of [npm test]: whether [execAsync] rejects, and what reading and
    parsing test-results.json gives afterwards: the error of [fs.readFile]
    or [JSON.parse] (or of reading a property of a document that is
    [null]), or the document. *)
Record Run : Type := {
  exec_error : option Exn;
  results_file : Exn + JestResults
}.

Inductive SessionRef : Type :=
  testGeneratorSession | testRunnerSession | testFixerSession.

(** ["unit" | "integration" | "e2e"] *)
Inductive TestType : Type := Unit | Integration | E2E.

Inductive Call : Type :=
| GeneratedTests (componentPath : string) (testType : TestType)
| RanTests
| FixedTest (test : TestResult)
| GeneratedReport (report : TestReport).

(** The surroundings of one [NextJsTestAutomation] object, scripted: the
    outcomes of the successive [fs.readFile] and [fs.writeFile] calls, the
    runs of the test suite, and what each session makes the successive
    [sendAndWait] calls hear.  [calls] records the steps taken. *)
Record State : Type := {
  reads : list (option Exn);
  writes : list (option Exn);
  runs : list Run;
  generator : list (list Heard);
  runner : list (list Heard);
  fixer : list (list Heard);
  calls : list Call
}.

Definition readFile : M State unit :=
  fun s =>
    ({| reads := tl (reads s); writes := writes s; runs := runs s;
        generator := generator s; runner := runner s; fixer := fixer s;
        calls := calls s |},
     match hd None (reads s) with Some e => Throw e | None => Return tt end).

Definition writeFile : M State unit :=
  fun s =>
    ({| reads := reads s; writes := tl (writes s); runs := runs s;
        generator := generator s; runner := runner s; fixer := fixer s;
        calls := calls s |},
     match hd None (writes s) with Some e => Throw e | None => Return tt end).

Definition note (c : Call) : M State unit :=
  modify (fun s =>
    {| reads := reads s; writes := writes s; runs := runs s;
       generator := generator s; runner := runner s; fixer := fixer s;
       calls := calls s ++ [c] |}).

Definition sendAndWait (session : SessionRef) : M State string :=
  fun s =>
    match session with
    | testGeneratorSession =>
        ({| reads := reads s; writes := writes s; runs := runs s;
            generator := tl (generator s); runner := runner s;
            fixer := fixer s; calls := calls s |},
         wait (hd [] (generator s)))
    | testRunnerSession =>
        ({| reads := reads s; writes := writes s; runs := runs s;
            generator := generator s; runner := tl (runner s);
            fixer := fixer s; calls := calls s |},
         wait (hd [] (runner s)))
    | testFixerSession =>
        ({| reads := reads s; writes := writes s; runs := runs s;
            generator := generator s; runner := runner s;
            fixer := tl (fixer s); calls := calls s |},
         wait (hd [] (fixer s)))
    end.

Definition generateTests (componentPath : string) (testType : TestType)
  : M State string :=
  note (GeneratedTests componentPath testType) ;;;
  readFile ;;;
  sendAndWait testGeneratorSession.

(** [execAsync] of the test command; a script with no run left behaves as a
    run that fails and leaves no results file. *)
Definition no_run : Run :=
  {| exec_error := Some (Error "Command failed");
     results_file := inl (Error "ENOENT") |}.

Definition next_run : M State Run :=
  fun s =>
    ({| reads := reads s; writes := writes s; runs := tl (runs s);
        generator := generator s; runner := runner s; fixer := fixer s;
        calls := calls s |},
     Return (hd no_run (runs s))).

(** [fs.readFile], [JSON.parse] and [this.parseTestResults] in a row. *)
Definition read_results (run : Run) : M State TestReport :=
  match results_file run with
  | inr jestResults =>
      match parseTestResults jestResults with
      | inr report => ret report
      | inl e => throw e
      end
  | inl e => throw e
  end.

Definition runTests : M State TestReport :=
  note RanTests ;;;
  run <- next_run ;;
  try_catch
    (match exec_error run with Some e => throw e | None => ret tt end ;;;
     read_results run)
    (fun error => try_catch (read_results run) (fun _ => throw error)).

Definition fixSingleTest (test : TestResult) : M State unit :=
  note (FixedTest test) ;;;
  readFile ;;;
  _ <- sendAndWait testFixerSession ;;
  ret tt.

Definition fixFailedTests (report : TestReport) : M State unit :=
  let failedTests := List.filter (has_status "failed") (results report) in
  match failedTests with
  | [] => ret tt
  | _ => for_of failedTests fixSingleTest
  end.

Definition generateTestReport (report : TestReport) : M State string :=
  note (GeneratedReport report) ;;;
  reportContent <- sendAndWait testRunnerSession ;;
  writeFile ;;;
  ret reportContent.

Record CycleResult : Type := {
  success : bool;
  report : string;
  stats : TestReport
}.

Definition runFullTestCycle (componentPaths : list string)
  : M State CycleResult :=
  try_catch
    (for_of componentPaths (fun componentPath =>
       _ <- generateTests componentPath Unit ;; ret tt) ;;;
     report0 <- runTests ;;
     report1 <-
       (if failed report0 >? 0
        then fixFailedTests report0 ;;; runTests
        else ret report0) ;;
     reportContent <- generateTestReport report1 ;;
     ret {| success := failed report1 =? 0;
            report := reportContent;
            stats := report1 |})
    (fun error => throw error).

(** *** The loop as the specification words it (section 4.4)

    Steps 3 and 4: a fix task is submitted for each distinct failure, and
    the run is repeated when all of them have reached a terminal state.  A
    fix task that fails or times out is in a terminal state as much as one
    that completes: none of them stops the loop (section 4.5, failure
    policy).  The fix task itself is the one of the code. *)

(** The identifier of a failure: the file and the full name of the test. *)
Definition failure_id (t : TestResult) : string * string :=
  (testFile t, testName t).

(** The tests of [ts] whose identifier is not in [seen], each identifier
    once, in the order of [ts]. *)
Fixpoint distinct (seen : list (string * string)) (ts : list TestResult)
  : list TestResult :=
  match ts with
  | [] => []
  | t :: rest =>
      if bool_decide (failure_id t ∈ seen) then distinct seen rest
      else t :: distinct (failure_id t :: seen) rest
  end.

Definition fix_task_spec (test : TestResult) : M State unit :=
  try_catch (fixSingleTest test) (fun _ => ret tt).

Definition fix_tasks_spec (report : TestReport) : M State unit :=
  for_of (distinct [] (List.filter (has_status "failed") (results report)))
    fix_task_spec.

(** Steps 1, 2 and 5: run the checkable task; stop when there is no
    failure; otherwise run the fix tasks, run again and count one
    iteration; give up when the count reaches the configured bound, with
    the failures that remain.  [remaining] is the bound less the count. *)
Fixpoint converge_spec (remaining : nat) (report0 : TestReport)
  : M State TestReport :=
  if failed report0 =? 0 then ret report0
  else
    match remaining with
    | O => ret report0
    | S k =>
        fix_tasks_spec report0 ;;;
        report1 <- runTests ;;
        converge_spec k report1
    end.

(** The cycle with this loop in the place of the single pass: the tests
    are generated before it and the report is written after it as in
    [runFullTestCycle]. *)
Definition runFullTestCycle_spec (bound : nat) (componentPaths : list string)
  : M State CycleResult :=
  for_of componentPaths (fun componentPath =>
    _ <- generateTests componentPath Unit ;; ret tt) ;;;
  report0 <- runTests ;;
  report1 <- converge_spec bound report0 ;;
  reportContent <- generateTestReport report1 ;;
  ret {| success := failed report1 =? 0;
         report := reportContent;
         stats := report1 |}.

End NextJs.

(** ** Vocabulary of the properties *)

(** A task map as [TaskManager.addTask] builds it: every task sits under its
    own id, and a key occurs once. *)
Definition well_keyed (m : Map TaskManager.Task) : Prop :=
  Forall (fun kv => fst kv = TaskManager.id (snd kv)) m /\ NoDup (keys m).

(** High before medium before low. *)
Definition rank (p : TaskManager.Priority) : Z :=
  match p with
  | TaskManager.high => 0
  | TaskManager.medium => 1
  | TaskManager.low => 2
  end.

Fixpoint by_priority (ts : list TaskManager.Task) : bool :=
  match ts with
  | [] => true
  | t :: ts' =>
      forallb (fun u => rank (TaskManager.priority t) <=? rank (TaskManager.priority u)) ts'
      && by_priority ts'
  end.

(** Every dependency of [t] is stored in [m] and completed. *)
Definition deps_completed (m : Map TaskManager.Task) (t : TaskManager.Task)
  : Prop :=
  forall d, In d (TaskManager.dependencies t) ->
    exists dep, get d m = Some dep
                /\ TaskManager.status dep = TaskManager.Completed.

(** A call of [executeTask] respects the dependencies: the task handed over
    is the one stored under its id at that moment, it is pending, and all
    its dependencies are stored and completed. *)
Definition dispatch_safe (d : Orchestrator.Dispatch) : Prop :=
  get (TaskManager.id (Orchestrator.d_task d)) (Orchestrator.d_tasks d)
    = Some (Orchestrator.d_task d)
  /\ TaskManager.status (Orchestrator.d_task d) = TaskManager.Pending
  /\ deps_completed (Orchestrator.d_tasks d) (Orchestrator.d_task d).

(** [b] differs from [a] at most in the task stored under [i], which keeps
    its id. *)
Definition changes_only (i : string) (a b : Map TaskManager.Task) : Prop :=
  keys b = keys a
  /\ (forall k, k <> i -> get k b = get k a)
  /\ (forall t, get i a = Some t ->
        exists t', get i b = Some t' /\ TaskManager.id t' = TaskManager.id t).

(** A step of the orchestrator that calls [executeTask] on nothing and
    changes at most the task stored under [i]. *)
Definition works_on (i : string) (s s' : Orchestrator.State) : Prop :=
  Orchestrator.dispatched s' = Orchestrator.dispatched s
  /\ changes_only i
       (TaskManager.tasks (Orchestrator.taskManager s))
       (TaskManager.tasks (Orchestrator.taskManager s')).

(** The tasks of [m0] that are no longer pending are stored unchanged
    in [m]. *)
Definition keeps_settled (m0 m : Map TaskManager.Task) : Prop :=
  forall k t, get k m0 = Some t ->
    TaskManager.status t <> TaskManager.Pending -> get k m = Some t.

(** What holds of the orchestrator between two calls of [executeTask]. *)
Definition orderly (m0 : Map TaskManager.Task) (s : Orchestrator.State)
  : Prop :=
  well_keyed (TaskManager.tasks (Orchestrator.taskManager s))
  /\ Forall dispatch_safe (Orchestrator.dispatched s)
  /\ keeps_settled m0 (TaskManager.tasks (Orchestrator.taskManager s)).

(** What reading the log file back and parsing it gives. *)
Definition reload (s : TaskManager.State) : option Value :=
  read_json (TaskManager.logFile s) (TaskManager.sys s).

Definition property (k : string) (v : Value) : option Value :=
  match v with
  | VObject props => props !! k
  | _ => None
  end.

(** The task list as it is in memory. *)
Definition memory_view (s : TaskManager.State) : Value :=
  VArray (map TaskManager.Task_value (TaskManager.getAllTasks s)).

(** A task as it comes back from the log: the times are ISO strings. *)
Definition Task_reloaded (t : TaskManager.Task) : Value :=
  VObject
    (<["id" := VString (TaskManager.id t)]>
       (<["description" := VString (TaskManager.description t)]>
          (<["priority" :=
               VString (TaskManager.priority_string (TaskManager.priority t))]>
             (<["assignedTo" :=
                  VString
                    (TaskManager.assignee_string (TaskManager.assignedTo t))]>
                (<["status" :=
                     VString
                       (TaskManager.status_string (TaskManager.status t))]>
                   (<["dependencies" :=
                        VArray (map VString (TaskManager.dependencies t))]>
                      (with_prop "result" (VString <$> TaskManager.result t)
                         (with_prop "startTime"
                            (VString
                               <$> (toISOString <$> TaskManager.startTime t))
                            (with_prop "endTime"
                               (VString
                                  <$> (toISOString
                                         <$> TaskManager.endTime t))
                               ∅))))))))).

(** The document [saveLog] writes when the clock reads [now]. *)
Definition log_json (now : Date) (ts : list TaskManager.Task) : Json :=
  JObject
    (omap stringify
       (<["timestamp" := VString (toISOString now)]>
          (<["tasks" := VArray (map TaskManager.Task_value ts)]> ∅))).

(** The log [saveLog] writes when the clock reads [now], parsed back. *)
Definition snapshot (now : Date) (ts : list TaskManager.Task) : Value :=
  VObject (<["timestamp" := VString (toISOString now)]>
             (<["tasks" := VArray (map Task_reloaded ts)]> ∅)).

Definition clock_reading (s : TaskManager.State) : Date :=
  time_of (TaskManager.sys s) (reads (TaskManager.sys s)).

(** [n / d] rounded to the nearest integer, a half going up, in exact
    arithmetic ([d] positive). *)
Definition round_half_up (n d : Z) : Z := (2 * n + d) / (2 * d).

(** [100 * c / t] lies exactly halfway between two integers. *)
Definition halfway (c t : Z) : bool := (200 * c) mod (2 * t) =? t.

(** The percentage [getProgress] computes for [c] completed tasks of [t]
    agrees with the exact rounding, or is one below it at a halfway case. *)
Definition percentage_near (c t pct : Z) : bool :=
  (pct =? round_half_up (100 * c) t)
  || (halfway c t && (pct =? round_half_up (100 * c) t - 1)).

(** The contents of the message events of [evs], in order. *)
Definition messages (evs : list SessionEvent) : list (option string) :=
  flat_map (fun e =>
    match e with assistant_message c => [c] | _ => [] end) evs.

(** Neither an idle event nor an error event. *)
Definition non_terminal (e : SessionEvent) : bool :=
  match e with
  | session_idle | Copilot.error _ => false
  | _ => true
  end.

Definition not_idle (e : SessionEvent) : bool :=
  match e with session_idle => false | _ => true end.

(** The value a call returned, if it returned. *)
Definition returned {A} (c : Completion A) : option A :=
  match c with Return a => Some a | _ => None end.

Definition ran_tests (c : NextJs.Call) : bool :=
  match c with NextJs.RanTests => true | _ => false end.


(** [m'] has the tasks of [m] under the same keys in the same order, each
    with the same id, description, priority, assignee and dependencies. *)
Definition same_plan (m m' : Map TaskManager.Task) : Prop :=
  keys m' = keys m
  /\ forall k t, get k m = Some t ->
       exists t', get k m' = Some t'
         /\ TaskManager.id t' = TaskManager.id t
         /\ TaskManager.description t' = TaskManager.description t
         /\ TaskManager.priority t' = TaskManager.priority t
         /\ TaskManager.assignedTo t' = TaskManager.assignedTo t
         /\ TaskManager.dependencies t' = TaskManager.dependencies t.

(** [{ status: "in-progress", startTime }] and
    [{ status: "completed", endTime, result }], the two updates of
    [executeTask]. *)
Definition started_at (start : Date) : TaskManager.Partial :=
  {| TaskManager.u_id := None; TaskManager.u_description := None;
     TaskManager.u_priority := None; TaskManager.u_assignedTo := None;
     TaskManager.u_status := Some TaskManager.InProgress;
     TaskManager.u_dependencies := None; TaskManager.u_result := None;
     TaskManager.u_startTime := Some (Some start);
     TaskManager.u_endTime := None |}.

Definition finished_at (finish : Date) (result : string)
  : TaskManager.Partial :=
  {| TaskManager.u_id := None; TaskManager.u_description := None;
     TaskManager.u_priority := None; TaskManager.u_assignedTo := None;
     TaskManager.u_status := Some TaskManager.Completed;
     TaskManager.u_dependencies := None;
     TaskManager.u_result := Some (Some result);
     TaskManager.u_startTime := None;
     TaskManager.u_endTime := Some (Some finish) |}.

(** The reading of the clock [k] readings from now. *)
Definition clock_ahead (k : nat) (s : TaskManager.State) : Date :=
  time_of (TaskManager.sys s) (reads (TaskManager.sys s) + k).

(** The session accepts the prompt and becomes idle. *)
Definition answers (reply : Reply) : Prop :=
  send_error reply = None
  /\ exists text, Orchestrator.listen "" (events reply) = Return text.

(** The supervisor accepts the prompt and becomes idle. *)
Definition settles (reply : Reply) : Prop :=
  send_error reply = None
  /\ Orchestrator.until_idle (events reply) = Return tt.

Definition plan_kept (s s' : Orchestrator.State) : Prop :=
  same_plan (TaskManager.tasks (Orchestrator.taskManager s))
    (TaskManager.tasks (Orchestrator.taskManager s')).

(** The dependency [d] of the task [t] can never be completed by the
    orchestrator in the map [m]: it is [t] itself, or it is not stored, or
    it is stored with a status that is neither pending nor completed. *)
Definition dead_dependency (m : Map TaskManager.Task) (t : TaskManager.Task)
    (d : string) : Prop :=
  d = TaskManager.id t
  \/ get d m = None
  \/ exists u, get d m = Some u
       /\ TaskManager.status u <> TaskManager.Pending
       /\ TaskManager.status u <> TaskManager.Completed.

(** What [executeTask] of the parallel development never writes of a task:
    its id, type, description and files. *)
Definition assignment (t : Parallel.DevelopmentTask)
  : string * Parallel.TaskType * string * list string :=
  (Parallel.id t, Parallel.type t, Parallel.description t, Parallel.files t).

(** The keys of a task map in their order, each with the assignment stored
    under it. *)
Definition work_of (m : Map Parallel.DevelopmentTask)
  : list (string * (string * Parallel.TaskType * string * list string)) :=
  map (fun kt => (fst kt, assignment (snd kt))) m.

Definition same_work (s s' : Parallel.State) : Prop :=
  work_of (Parallel.tasks s') = work_of (Parallel.tasks s).

(** No run of the test suite is used up between [s] and [s']. *)
Definition same_runs (s s' : NextJs.State) : Prop :=
  NextJs.runs s' = NextJs.runs s.

(** The statuses that [parseTestResults] counts. *)
Definition counted (t : NextJs.TestResult) : Prop :=
  NextJs.status t = "passed" \/ NextJs.status t = "failed"
  \/ NextJs.status t = "skipped".

(** Every run of [c] relates the state before to the state after. *)
Definition preserves {S A} (R : S -> S -> Prop) (c : M S A) : Prop :=
  forall s, R s (fst (c s)).

(** What saving the log comes to: it throws when the log file cannot be
    written. *)
Definition log_written (s : TaskManager.State) : Completion unit :=
  match faults (TaskManager.sys s) !! TaskManager.logFile s with
  | Some fault => Throw (Error (f_message fault))
  | None => Return tt
  end.

(** ** Sample states *)

Module Samples.
Import TaskManager.

Definition quiet : Sys :=
  {| files := ∅; faults := ∅; time_of := fun _ => 0; reads := 0 |}.

Definition task (i : string) (p : Priority) (st : Status) (deps : list string)
  : Task :=
  {| id := i; description := "work item " +:+ i; priority := p;
     assignedTo := developer; status := st; dependencies := deps;
     result := None; startTime := None; endTime := None |}.

(** A low-priority task added before a high-priority one, both ready. *)
Definition two_ready : State :=
  {| tasks := [("T1", task "T1" low Pending []);
               ("T2", task "T2" high Pending [])];
     logFile := "./task-log.json";
     sys := quiet |}.

(** A task under way since 2026-09-02T10:10:45.123Z. *)
Definition started : Task :=
  {| id := "T3"; description := "work item T3"; priority := medium;
     assignedTo := developer; status := InProgress; dependencies := ["T1"];
     result := None; startTime := Some 1788343845123; endTime := None |}.

(** Two hundred tasks, the first twenty-nine of them completed. *)
Definition two_hundred : State :=
  {| tasks :=
       map (fun k =>
              let i := "T" +:+ pad 3 (Z.of_nat k) in
              (i, task i medium (if (k <? 29)%nat then Completed else Pending) []))
           (seq 0 200);
     logFile := "./task-log.json";
     sys := quiet |}.

(** Eight tasks, the first of them completed. *)
Definition eight : State :=
  {| tasks :=
       map (fun k =>
              let i := "T" +:+ pad 3 (Z.of_nat k) in
              (i, task i medium (if (k <? 1)%nat then Completed else Pending) []))
           (seq 0 8);
     logFile := "./task-log.json";
     sys := quiet |}.

(** A completed task and a failed one. *)
Definition settled_pair : State :=
  {| tasks := [("T1", task "T1" high Completed []);
               ("T2", task "T2" high Failed [])];
     logFile := "./task-log.json";
     sys := quiet |}.

(** [{ status: "in-progress" }] *)
Definition restart : Partial :=
  {| u_id := None; u_description := None; u_priority := None;
     u_assignedTo := None; u_status := Some InProgress;
     u_dependencies := None; u_result := None; u_startTime := None;
     u_endTime := None |}.

Definition for_tester (t : Task) : Task :=
  {| id := id t; description := description t; priority := priority t;
     assignedTo := tester; status := status t;
     dependencies := dependencies t; result := result t;
     startTime := startTime t; endTime := endTime t |}.

Definition answer (text : string) : Reply :=
  {| send_error := None;
     events := [assistant_message (Some text); session_idle] |}.

(** The five tasks of [createSampleTasks], with sessions that answer every
    prompt. *)
Definition project : Orchestrator.State :=
  {| Orchestrator.taskManager :=
       {| tasks := [("T1", task "T1" high Pending []);
                    ("T2", task "T2" high Pending []);
                    ("T3", for_tester (task "T3" high Pending ["T1"]));
                    ("T4", task "T4" medium Pending ["T2"]);
                    ("T5", for_tester (task "T5" medium Pending ["T4"]))];
          logFile := "./task-log.json";
          sys := quiet |};
     Orchestrator.supervisor := [];
     Orchestrator.dev := [answer "a"; answer "b"; answer "c"];
     Orchestrator.test := [answer "d"; answer "e"];
     Orchestrator.dispatched := [] |}.

(** A front-end task and a back-end task; the front-end session stays
    silent until the timer of the first call goes off. *)
Definition overdue : Parallel.State :=
  {| Parallel.sessions :=
       [("frontend",
         [{| Parallel.heard :=
               [Event (tool_execution_start "edit"); TimerFires;
                Event session_idle];
             Parallel.send_fails := None |}]);
        ("backend",
         [{| Parallel.heard :=
               [Event (assistant_message (Some "done")); Event session_idle];
             Parallel.send_fails := None |}])];
     Parallel.tasks :=
       [("FE-001",
         {| Parallel.id := "FE-001"; Parallel.type := Parallel.frontend;
            Parallel.description := "login page";
            Parallel.files := ["src/components/LoginPage.tsx"];
            Parallel.status := Parallel.Pending; Parallel.output := None;
            Parallel.error := None |});
        ("BE-001",
         {| Parallel.id := "BE-001"; Parallel.type := Parallel.backend;
            Parallel.description := "login endpoint";
            Parallel.files := ["src/api/auth.ts"];
            Parallel.status := Parallel.Pending; Parallel.output := None;
            Parallel.error := None |})] |}.



Definition says (text : string) : list NextJs.Heard :=
  [NextJs.Sig (Event (assistant_message (Some text)));
   NextJs.Sig (Event session_idle)].

Definition jest (st : string) : NextJs.Run :=
  {| NextJs.exec_error :=
       if String.eqb st "failed" then Some (Error "Command failed") else None;
     NextJs.results_file :=
       inr {| NextJs.testResults :=
                Some
                  [{| NextJs.s_name := "tests/login.test.tsx";
                      NextJs.assertionResults :=
                        Some
                          [{| NextJs.fullName := Some "login renders";
                              NextJs.title := "renders";
                              NextJs.a_status := "passed";
                              NextJs.failureMessages := None |};
                           {| NextJs.fullName := Some "login submits";
                              NextJs.title := "submits";
                              NextJs.a_status := st;
                              NextJs.failureMessages :=
                                if String.eqb st "failed"
                                then Some ["expected 200"; "received 500"]
                                else None |}] |}];
              NextJs.coverageMap := None |} |}.

(** A suite with one test that fails in the first two runs and passes in
    the third. *)
Definition flaky : NextJs.State :=
  {| NextJs.reads := [];
     NextJs.writes := [];
     NextJs.runs := [jest "failed"; jest "failed"; jest "passed"];
     NextJs.generator := [says "tests written"];
     NextJs.runner := [says "# Report"];
     NextJs.fixer := [says "fixed"; says "fixed again"];
     NextJs.calls := [] |}.

(** A suite with one test that fails in the first run and passes in the
    second, and a fixer session that answers with an error. *)
Definition fix_refused : NextJs.State :=
  {| NextJs.reads := [];
     NextJs.writes := [];
     NextJs.runs := [jest "failed"; jest "passed"];
     NextJs.generator := [says "tests written"];
     NextJs.runner := [says "# Report"];
     NextJs.fixer :=
       [[NextJs.Sig (Event (Copilot.error (Some "model unavailable")))]];
     NextJs.calls := [] |}.

(** The two ready tasks, on a disk where the log file cannot be written. *)
Definition read_only : State :=
  {| tasks := tasks two_ready;
     logFile := "./task-log.json";
     sys := {| files := {["./task-log.json" := Document JNull]};
               faults :=
                 {["./task-log.json" :=
                     {| f_message := "EACCES: permission denied";
                        f_leaves := None |}]};
               time_of := fun _ => 0; reads := 0 |} |}.

(** The two ready tasks, on a disk that is full: the log file can be opened
    but not written. *)
Definition disk_full : State :=
  {| tasks := tasks two_ready;
     logFile := "./task-log.json";
     sys := {| files := {["./task-log.json" := Document JNull]};
               faults :=
                 {["./task-log.json" :=
                     {| f_message := "ENOSPC: no space left on device";
                        f_leaves := Some Garbled |}]};
               time_of := fun _ => 0; reads := 0 |} |}.

(** The sample project with a sixth task that waits for a task nobody
    added. *)
Definition project_with_orphan : Orchestrator.State :=
  {| Orchestrator.taskManager :=
       {| tasks := tasks (Orchestrator.taskManager project)
                   ++ [("T6", task "T6" high Pending ["T0"])];
          logFile := "./task-log.json";
          sys := quiet |};
     Orchestrator.supervisor := [];
     Orchestrator.dev := Orchestrator.dev project;
     Orchestrator.test := Orchestrator.test project;
     Orchestrator.dispatched := [] |}.

(** A project taken up again: one task completed, one failed, and two
    pending ones, of which the first can run. *)
Definition resumed : Orchestrator.State :=
  {| Orchestrator.taskManager :=
       {| tasks := [("T1", task "T1" high Completed []);
                    ("T2", task "T2" high Failed []);
                    ("T3", task "T3" high Pending ["T1"]);
                    ("T4", task "T4" medium Pending ["T2"])];
          logFile := "./task-log.json";
          sys := quiet |};
     Orchestrator.supervisor := [];
     Orchestrator.dev := [answer "a"; answer "b"];
     Orchestrator.test := [answer "c"];
     Orchestrator.dispatched := [] |}.

(** A new orchestrator whose agents answer every prompt. *)
Definition fresh : Orchestrator.State :=
  {| Orchestrator.taskManager :=
       {| tasks := []; logFile := "./task-log.json"; sys := quiet |};
     Orchestrator.supervisor := [answer "T1: ..."; answer "fine"];
     Orchestrator.dev := [answer "a"; answer "b"; answer "c"];
     Orchestrator.test := [answer "d"; answer "e"];
     Orchestrator.dispatched := [] |}.

End Samples.

(* ===================================================================== *)
(** * Part II: properties *)
(* ===================================================================== *)

(** ** Insertion-ordered maps *)

Section MapFacts.
Context {V : Type}.
Implicit Types (m : Map V) (k : string) (v : V).

Lemma get_set_eq k v m : get k (set k v m) = Some v.
Proof.
  induction m as [|[k' v'] m IH]; simpl.
  - by rewrite String.eqb_refl.
  - destruct (String.eqb k' k) eqn:E; simpl.
    + by rewrite String.eqb_refl.
    + by rewrite E.
Qed.

Lemma get_set_ne k k' v m : k <> k' -> get k' (set k v m) = get k' m.
Proof.
  intros Hne. induction m as [|[k0 v0] m IH]; simpl.
  - destruct (String.eqb k k') eqn:E; [|done].
    apply String.eqb_eq in E. done.
  - destruct (String.eqb k0 k) eqn:E; simpl.
    + apply String.eqb_eq in E. subst k0.
      destruct (String.eqb k k') eqn:E'; [|done].
      apply String.eqb_eq in E'. done.
    + by rewrite IH.
Qed.

Lemma set_set k v v' m : set k v (set k v' m) = set k v m.
Proof.
  induction m as [|[k0 v0] m IH]; simpl.
  - by rewrite String.eqb_refl.
  - destruct (String.eqb k0 k) eqn:E; simpl.
    + by rewrite String.eqb_refl.
    + by rewrite E, IH.
Qed.

Lemma get_None_keys k m : get k m = None <-> ~ In k (keys m).
Proof.
  induction m as [|[k0 v0] m IH]; simpl; [tauto|].
  destruct (String.eqb k0 k) eqn:E.
  - apply String.eqb_eq in E. split; [done | tauto].
  - apply String.eqb_neq in E. rewrite IH. tauto.
Qed.

Lemma set_present_keys k v m : In k (keys m) -> keys (set k v m) = keys m.
Proof.
  induction m as [|[k0 v0] m IH]; simpl; [done|].
  intros Hin. destruct (String.eqb k0 k) eqn:E; simpl.
  - apply String.eqb_eq in E. by subst.
  - apply String.eqb_neq in E. f_equal. apply IH. tauto.
Qed.

Lemma set_absent k v m : ~ In k (keys m) -> set k v m = m ++ [(k, v)].
Proof.
  induction m as [|[k0 v0] m IH]; simpl; [done|].
  intros Hin. destruct (String.eqb k0 k) eqn:E.
  - apply String.eqb_eq in E. tauto.
  - f_equal. apply IH. tauto.
Qed.

Lemma get_Some_In k v m : get k m = Some v -> In (k, v) m.
Proof.
  induction m as [|[k0 v0] m IH]; simpl; [done|].
  destruct (String.eqb k0 k) eqn:E.
  - apply String.eqb_eq in E. intros [= ->]. left. by subst.
  - intros H. right. by apply IH.
Qed.

Lemma In_get k v m : NoDup (keys m) -> In (k, v) m -> get k m = Some v.
Proof.
  induction m as [|[k0 v0] m IH]; simpl; [done|].
  intros Hnd [Heq|Hin].
  - injection Heq as -> ->. by rewrite String.eqb_refl.
  - apply NoDup_cons in Hnd as [Hnotin Hnd].
    destruct (String.eqb k0 k) eqn:E.
    + apply String.eqb_eq in E. subst k0. exfalso. apply Hnotin.
      apply list_elem_of_In. apply (in_map fst) in Hin. exact Hin.
    + by apply IH.
Qed.

End MapFacts.

(** ** Composing asynchronous steps *)

Section MonadFacts.
Context {S : Type} (R : S -> S -> Prop).
Context `{!Reflexive R, !Transitive R}.

Lemma preserves_ret {A} (a : A) : preserves R (ret a).
Proof. intros s. simpl. reflexivity. Qed.

Lemma preserves_bind {A B} (c : M S A) (k : A -> M S B) :
  preserves R c -> (forall a, preserves R (k a)) -> preserves R (bind c k).
Proof.
  intros Hc Hk s. unfold bind. specialize (Hc s).
  destruct (c s) as [s' [a|e|]]; simpl in *; [|done..].
  etrans; [exact Hc | apply Hk].
Qed.

Lemma preserves_for_of {A} (xs : list A) (body : A -> M S unit) :
  (forall x, preserves R (body x)) -> preserves R (for_of xs body).
Proof.
  intros Hbody. induction xs as [|x xs IH]; simpl.
  - apply preserves_ret.
  - apply preserves_bind; [apply Hbody | intros _; apply IH].
Qed.

End MonadFacts.

(** A loop keeps an invariant over what remains of its list; [Post] is what
    is known when the loop ends, normally or not. *)
Lemma for_of_invariant {S A} (Inv : list A -> S -> Prop) (Post : S -> Prop)
    (body : A -> M S unit) :
  (forall s, Inv [] s -> Post s) ->
  (forall x xs s, Inv (x :: xs) s ->
     match body x s with
     | (s', Return _) => Inv xs s'
     | (s', _) => Post s'
     end) ->
  forall xs s, Inv xs s -> Post (fst (for_of xs body s)).
Proof.
  intros Hnil Hstep xs. induction xs as [|x xs IH]; intros s HI; simpl.
  - by apply Hnil.
  - unfold bind. specialize (Hstep x xs s HI).
    destruct (body x s) as [s' [[]|e|]]; simpl; [by apply IH | done..].
Qed.


(** ** Binary64: how far a rounded result is from the exact value *)

Section Binary64.

Lemma digits2_pos_bounds (p : positive) :
  2 ^ (Z.pos (digits2_pos p) - 1) <= Z.pos p < 2 ^ Z.pos (digits2_pos p).
Proof.
  induction p as [p IH|p IH|]; simpl digits2_pos;
    rewrite ?Pos2Z.inj_succ.
  - replace (Z.succ (Z.pos (digits2_pos p)) - 1)
      with (Z.succ (Z.pos (digits2_pos p) - 1)) by lia.
    rewrite !Z.pow_succ_r by lia. lia.
  - replace (Z.succ (Z.pos (digits2_pos p)) - 1)
      with (Z.succ (Z.pos (digits2_pos p) - 1)) by lia.
    rewrite !Z.pow_succ_r by lia. lia.
  - simpl. lia.
Qed.

Lemma digits2_pos_unique (p : positive) (d : Z) :
  2 ^ (d - 1) <= Z.pos p < 2 ^ d -> Z.pos (digits2_pos p) = d.
Proof.
  intros [Hlo Hhi]. pose proof (digits2_pos_bounds p) as [Hlo' Hhi'].
  assert (Hd : 0 < d).
  { destruct (Z.lt_trichotomy d 0) as [H|[H|H]]; [|subst d|done].
    - rewrite Z.pow_neg_r in Hhi by done. lia.
    - simpl in Hhi. lia. }
  destruct (Z.lt_trichotomy (Z.pos (digits2_pos p)) d) as [H|[H|H]]; [|done|].
  - assert (2 ^ Z.pos (digits2_pos p) <= 2 ^ (d - 1))
      by (apply Z.pow_le_mono_r; lia). lia.
  - assert (2 ^ d <= 2 ^ (Z.pos (digits2_pos p) - 1))
      by (apply Z.pow_le_mono_r; lia). lia.
Qed.

Lemma fexp_normal (e : Z) : -1021 <= e -> fexp 53 1024 e = e - 53.
Proof. intros H. unfold fexp, emin. lia. Qed.

Lemma shr_1_m (r : shr_record) :
  0 <= shr_m r -> shr_m (shr_1 r) = shr_m r / 2 /\ 0 <= shr_m (shr_1 r).
Proof.
  destruct r as [m rr ss]. simpl. intros Hm.
  destruct m as [|[p|p|]|p]; simpl; try lia; (split; [|lia]).
  - reflexivity.
  - apply (Z.div_unique _ _ _ 1); [lia | apply Pos2Z.inj_xI].
  - apply (Z.div_unique _ _ _ 0); [lia | rewrite Z.add_0_r; apply Pos2Z.inj_xO].
  - reflexivity.
Qed.

Lemma iter_pos_shr_1_m (p : positive) (r : shr_record) :
  0 <= shr_m r ->
  shr_m (SpecFloat.iter_pos shr_1 p r) = shr_m r / 2 ^ Z.pos p
  /\ 0 <= shr_m (SpecFloat.iter_pos shr_1 p r).
Proof.
  revert r. induction p as [p IH|p IH|]; intros r Hr; simpl SpecFloat.iter_pos.
  - destruct (shr_1_m r Hr) as [E1 P1].
    destruct (IH _ P1) as [E2 P2]. destruct (IH _ P2) as [E3 P3].
    split; [|done]. rewrite E3, E2, E1, !Z.div_div by lia.
    f_equal.
    replace (Z.pos p~1) with (1 + Z.pos p + Z.pos p)
      by (rewrite (Pos2Z.inj_xI p); lia).
    rewrite !Z.pow_add_r by lia. lia.
  - destruct (IH _ Hr) as [E2 P2]. destruct (IH _ P2) as [E3 P3].
    split; [|done]. rewrite E3, E2, !Z.div_div by lia.
    f_equal.
    replace (Z.pos p~0) with (Z.pos p + Z.pos p)
      by (rewrite (Pos2Z.inj_xO p); lia).
    rewrite !Z.pow_add_r by lia. lia.
  - destruct (shr_1_m r Hr) as [E1 P1]. split; [|done]. by rewrite E1.
Qed.

Lemma shr_record_of_loc_m (m : Z) (l : location) :
  shr_m (shr_record_of_loc m l) = m.
Proof. by destruct l as [|[]]. Qed.

Lemma round_nearest_even_cases (m : Z) (l : location) :
  round_nearest_even m l = m \/ round_nearest_even m l = m + 1.
Proof. destruct l as [|[]]; simpl; try tauto. destruct (Z.even m); tauto. Qed.

(** The first step of a rounding, in the range of the normal numbers: a
    mantissa of [d] digits, 53 at least, loses its last [d - 53] digits. *)
Lemma shr_fexp_normal (p : positive) (e : Z) (l : location) :
  53 <= Z.pos (digits2_pos p) -> -1021 <= Z.pos (digits2_pos p) + e ->
  exists r,
    shr_fexp 53 1024 (Z.pos p) e l = (r, e + (Z.pos (digits2_pos p) - 53))
    /\ shr_m r = Z.pos p / 2 ^ (Z.pos (digits2_pos p) - 53).
Proof.
  intros Hd He. unfold shr_fexp. simpl Zdigits2.
  rewrite (fexp_normal _ He).
  replace (Z.pos (digits2_pos p) + e - 53 - e)
    with (Z.pos (digits2_pos p) - 53) by lia.
  destruct (Z.pos (digits2_pos p) - 53) as [|k|k] eqn:En; [| |lia].
  - eexists. split; [unfold shr; by rewrite Z.add_0_r|].
    by rewrite shr_record_of_loc_m, Z.div_1_r.
  - eexists. split; [reflexivity|].
    destruct (iter_pos_shr_1_m k (shr_record_of_loc (Z.pos p) l)) as [E _].
    { by rewrite shr_record_of_loc_m. }
    by rewrite E, shr_record_of_loc_m.
Qed.

Lemma cut_to_53_digits (p : positive) :
  53 <= Z.pos (digits2_pos p) ->
  2 ^ 52 <= Z.pos p / 2 ^ (Z.pos (digits2_pos p) - 53) < 2 ^ 53.
Proof.
  intros Hd. pose proof (digits2_pos_bounds p) as [Hlo Hhi].
  set (n := Z.pos (digits2_pos p) - 53) in *.
  assert (Hn : 0 <= n) by lia.
  assert (Hp : 0 < 2 ^ n) by (apply Z.pow_pos_nonneg; lia).
  replace (Z.pos (digits2_pos p) - 1) with (n + 52) in Hlo by lia.
  replace (Z.pos (digits2_pos p)) with (n + 53) in Hhi by lia.
  rewrite Z.pow_add_r in Hlo, Hhi by lia. split.
  - apply Z.div_le_lower_bound; [done|]. lia.
  - apply Z.div_lt_upper_bound; [done|]. lia.
Qed.

(** Rounding a positive mantissa of at least 53 digits, in the range of the
    normal numbers: the mantissa is cut to 53 digits, and the result is the
    cut mantissa or the next one. *)
Lemma binary_round_aux_normal (p : positive) (e : Z) (l : location) :
  53 <= Z.pos (digits2_pos p) ->
  -1021 <= Z.pos (digits2_pos p) + e ->
  e + (Z.pos (digits2_pos p) - 53) < 971 ->
  exists (M : positive) (E : Z),
    binary_round_aux 53 1024 false (Z.pos p) e l = S754_finite false M E
    /\ Z.pos (digits2_pos M) = 53
    /\ (E = e + (Z.pos (digits2_pos p) - 53)
        /\ (Z.pos M = Z.pos p / 2 ^ (Z.pos (digits2_pos p) - 53)
            \/ Z.pos M = Z.pos p / 2 ^ (Z.pos (digits2_pos p) - 53) + 1)
        \/ E = e + (Z.pos (digits2_pos p) - 53) + 1
           /\ 2 * Z.pos M = Z.pos p / 2 ^ (Z.pos (digits2_pos p) - 53) + 1).
Proof.
  intros Hd He Hmax. unfold binary_round_aux.
  destruct (shr_fexp_normal p e l Hd He) as (r1 & -> & Hr1).
  pose proof (cut_to_53_digits p Hd) as HF.
  set (n := Z.pos (digits2_pos p) - 53) in *.
  set (F := Z.pos p / 2 ^ n) in *.
  rewrite Hr1.
  assert (Hround : exists p1, round_nearest_even F (loc_of_shr_record r1) = Z.pos p1
                     /\ (Z.pos p1 = F \/ Z.pos p1 = F + 1)).
  { destruct (round_nearest_even_cases F (loc_of_shr_record r1)) as [H|H];
      rewrite H.
    - destruct F as [|p1|p1] eqn:EF; [lia| |lia]. exists p1. tauto.
    - destruct (F + 1) as [|p1|p1] eqn:EF; [lia| |lia]. exists p1. tauto. }
  destruct Hround as (p1 & -> & Hp1).
  assert (H53 : (2 ^ 53 : Z) = 2 * 2 ^ 52) by reflexivity.
  destruct (Z.lt_ge_cases (Z.pos p1) (2 ^ 53)) as [Hlt|Hge].
  - (* the mantissa still has 53 digits *)
    assert (Hd1 : Z.pos (digits2_pos p1) = 53)
      by (apply digits2_pos_unique; simpl (53 - 1); lia).
    destruct (shr_fexp_normal p1 (e + n) loc_Exact) as (r2 & -> & Hr2);
      [lia | lia |].
    rewrite Hd1, Z.sub_diag, Z.div_1_r in Hr2. rewrite Hr2, Hd1, Z.sub_diag.
    replace (e + n + 0 <=? 1024 - 53) with true
      by (symmetry; apply Z.leb_le; lia).
    exists p1, (e + n + 0). split; [done|]. split; [done|]. left.
    split; [lia | done].
  - (* the mantissa has become 2 ^ 53 *)
    assert (Hp1' : Z.pos p1 = 2 ^ 53) by lia.
    assert (Hd1 : Z.pos (digits2_pos p1) = 54)
      by (apply digits2_pos_unique; rewrite Hp1'; simpl; lia).
    destruct (shr_fexp_normal p1 (e + n) loc_Exact) as (r2 & -> & Hr2);
      [lia | lia |].
    rewrite Hd1, Hp1' in Hr2. change (2 ^ 53 / 2 ^ (54 - 53)) with (2 ^ 52) in Hr2.
    rewrite Hr2, Hd1. change (2 ^ 52) with (Z.pos (2 ^ 52)).
    replace (e + n + (54 - 53) <=? 1024 - 53) with true
      by (symmetry; apply Z.leb_le; lia).
    exists (2 ^ 52)%positive, (e + n + (54 - 53)). split; [done|].
    split; [done|]. right. split; [lia|].
    change (Z.pos (2 ^ 52)) with (2 ^ 52). lia.
Qed.

Lemma binary_round_aux_exact (p : positive) (e : Z) :
  Z.pos (digits2_pos p) = 53 -> -1074 <= e <= 971 ->
  binary_round_aux 53 1024 false (Z.pos p) e loc_Exact = S754_finite false p e.
Proof.
  intros Hd He. unfold binary_round_aux, shr_fexp. simpl Zdigits2.
  rewrite Hd, fexp_normal by lia.
  replace (53 + e - 53 - e) with 0 by lia. simpl.
  rewrite Hd, fexp_normal by lia.
  replace (53 + e - 53 - e) with 0 by lia. simpl.
  replace (e <=? 1024 - 53) with true by (symmetry; apply Z.leb_le; lia).
  done.
Qed.

Lemma iter_xO (p k : positive) :
  Z.pos (Pos.iter xO p k) = Z.pos p * 2 ^ Z.pos k.
Proof.
  induction k as [|k IH] using Pos.peano_ind.
  - simpl. rewrite (Pos2Z.inj_xO p). lia.
  - rewrite Pos.iter_succ, Pos2Z.inj_xO, IH, Pos2Z.inj_succ,
      Z.pow_succ_r by lia. lia.
Qed.

(** An integer below [2 ^ 53] is a binary64 number: the conversion is
    exact, and gives a mantissa of 53 digits. *)
Lemma of_int_exact (n : Z) :
  0 < n < 2 ^ 53 ->
  exists (m : positive) (k : Z),
    of_int n = S754_finite false m (- k)
    /\ Z.pos (digits2_pos m) = 53 /\ 0 <= k <= 52
    /\ Z.pos m = n * 2 ^ k.
Proof.
  intros [Hpos Hlt]. destruct n as [|p|p]; [lia| |lia].
  unfold of_int, binary_normalize, binary_round.
  pose proof (digits2_pos_bounds p) as [Hlo Hhi].
  assert (Hd : Z.pos (digits2_pos p) <= 53).
  { destruct (Z.le_gt_cases (Z.pos (digits2_pos p)) 53) as [H|H]; [done|].
    assert (2 ^ 53 <= 2 ^ (Z.pos (digits2_pos p) - 1))
      by (apply Z.pow_le_mono_r; lia). lia. }
  rewrite Z.add_0_r, fexp_normal by lia. unfold shl_align.
  destruct (Z.pos (digits2_pos p) - 53 - 0) as [|k|k] eqn:Ek; [|lia|].
  - exists p, 0. rewrite binary_round_aux_exact by lia.
    split; [done|]. split; [lia|]. split; [lia|]. rewrite Z.pow_0_r. lia.
  - assert (Hk : Z.pos k = 53 - Z.pos (digits2_pos p))
      by (rewrite <- (Pos2Z.opp_neg k), <- Ek; lia).
    assert (Hm : Z.pos (Pos.iter xO p k) = Z.pos p * 2 ^ Z.pos k)
      by apply iter_xO.
    assert (Hdm : Z.pos (digits2_pos (Pos.iter xO p k)) = 53).
    { apply digits2_pos_unique. rewrite Hm.
      assert (E1 : 2 ^ (53 - 1)
                   = 2 ^ (Z.pos (digits2_pos p) - 1) * 2 ^ Z.pos k)
        by (rewrite <- Z.pow_add_r by lia; f_equal; lia).
      assert (E2 : 2 ^ 53 = 2 ^ Z.pos (digits2_pos p) * 2 ^ Z.pos k)
        by (rewrite <- Z.pow_add_r by lia; f_equal; lia).
      rewrite E1, E2.
      assert (0 < 2 ^ Z.pos k) by (apply Z.pow_pos_nonneg; lia).
      split; [apply Z.mul_le_mono_nonneg_r; lia
             | apply Z.mul_lt_mono_pos_r; lia]. }
    exists (Pos.iter xO p k), (Z.pos k).
    rewrite binary_round_aux_exact by lia.
    split; [f_equal; lia|]. split; [done|]. split; [lia|]. done.
Qed.

End Binary64.

Section Binary64Error.
Local Open Scope R_scope.

Lemma IZR_pow2 (k : Z) : (0 <= k)%Z -> IZR (2 ^ k) = powerRZ 2 k.
Proof.
  intros H. rewrite <- (Z2Nat.id k H). rewrite <- pow_IZR. apply pow_powerRZ.
Qed.

Lemma bpow_add (a b : Z) : powerRZ 2 (a + b) = powerRZ 2 a * powerRZ 2 b.
Proof. apply powerRZ_add. lra. Qed.

Lemma bpow_pos (a : Z) : 0 < powerRZ 2 a.
Proof. apply powerRZ_lt. lra. Qed.

(** The error of a rounding, for a positive result in the range of the
    normal numbers: when the exact value [x] lies between the mantissa
    given and the next one, the result is within [u] of [x], where [u] is
    the weight of the last of its 53 digits or half of it. *)
Lemma binary_round_aux_error (p : positive) (e : Z) (l : location) (x : R) :
  (53 <= Z.pos (digits2_pos p))%Z ->
  (-1021 <= Z.pos (digits2_pos p) + e)%Z ->
  (e + (Z.pos (digits2_pos p) - 53) < 971)%Z ->
  IZR (Z.pos p) * powerRZ 2 e <= x <= (IZR (Z.pos p) + 1) * powerRZ 2 e ->
  exists (M : positive) (E : Z),
    binary_round_aux 53 1024 false (Z.pos p) e l = S754_finite false M E
    /\ Z.pos (digits2_pos M) = 53%Z
    /\ (e + (Z.pos (digits2_pos p) - 53) <= E
        <= e + (Z.pos (digits2_pos p) - 53) + 1)%Z
    /\ exists u : R,
         0 < u
         /\ - u <= IZR (Z.pos M) * powerRZ 2 E - x <= u
         /\ IZR (2 ^ 52) * u <= IZR (Z.pos M) * powerRZ 2 E.
Proof.
  intros Hd He Hmax Hx.
  destruct (binary_round_aux_normal p e l Hd He Hmax) as (M & E & -> & HdM & HM).
  pose proof (cut_to_53_digits p Hd) as [HFlo _].
  set (n := (Z.pos (digits2_pos p) - 53)%Z) in *.
  set (F := (Z.pos p / 2 ^ n)%Z) in *.
  assert (Hn : (0 <= n)%Z) by (unfold n; lia).
  assert (Hpn : (0 < 2 ^ n)%Z) by (apply Z.pow_pos_nonneg; lia).
  assert (H1 : (F * 2 ^ n <= Z.pos p)%Z)
    by (unfold F; rewrite Z.mul_comm; by apply Z.mul_div_le).
  assert (H2 : (Z.pos p + 1 <= (F + 1) * 2 ^ n)%Z).
  { pose proof (Z.mul_succ_div_gt (Z.pos p) (2 ^ n) Hpn) as H.
    fold F in H. lia. }
  apply IZR_le in H1, H2, HFlo.
  rewrite mult_IZR, IZR_pow2 in H1 by done.
  rewrite mult_IZR, !plus_IZR, IZR_pow2 in H2 by done.
  pose proof (bpow_pos e) as Ha. pose proof (bpow_pos n) as Hb.
  exists M, E. split; [done|]. split; [done|]. split; [lia|].
  exists (powerRZ 2 (e + n)). rewrite bpow_add.
  set (a := powerRZ 2 e) in *. set (b := powerRZ 2 n) in *.
  set (P := IZR (Z.pos p)) in *. set (F' := IZR F) in *.
  assert (Hab : 0 < a * b) by (apply Rmult_lt_0_compat; done).
  assert (Hlow : F' * (a * b) <= x).
  { apply Rle_trans with (P * a); [|tauto].
    replace (F' * (a * b)) with (F' * b * a) by ring.
    apply Rmult_le_compat_r; [lra | done]. }
  assert (Hup : x <= (F' + 1) * (a * b)).
  { apply Rle_trans with ((P + 1) * a); [tauto|].
    replace ((F' + 1) * (a * b)) with ((F' + 1) * b * a) by ring.
    apply Rmult_le_compat_r; [lra | done]. }
  assert (Hbig : IZR (2 ^ 52) * (a * b) <= F' * (a * b))
    by (apply Rmult_le_compat_r; [lra | done]).
  split; [done|].
  destruct HM as [[-> [HM|HM]]|[-> HM]].
  - rewrite HM, bpow_add. fold F' a b. lra.
  - rewrite HM, plus_IZR, bpow_add. fold F' a b. lra.
  - apply (f_equal IZR) in HM. rewrite mult_IZR, plus_IZR in HM.
    fold F' in HM. rewrite !bpow_add. fold a b.
    change (powerRZ 2 1) with (2 * 1). 
    assert (HV : IZR (Z.pos M) * (a * b * (2 * 1)) = (F' + 1) * (a * b))
      by (rewrite <- HM; ring).
    rewrite HV. lra.
Qed.

Lemma SFdiv_core_normal (mc mt : positive) (ec et : Z) :
  Z.pos (digits2_pos mc) = 53%Z -> Z.pos (digits2_pos mt) = 53%Z ->
  (-1021 <= ec - et)%Z ->
  SFdiv_core_binary 53 1024 (Z.pos mc) ec (Z.pos mt) et
  = ((Z.pos mc * 2 ^ 53 / Z.pos mt)%Z, (ec - et - 53)%Z,
     new_location (Z.pos mt) ((Z.pos mc * 2 ^ 53) mod Z.pos mt)%Z).
Proof.
  intros Hc Ht He. unfold SFdiv_core_binary. simpl Zdigits2.
  rewrite Hc, Ht.
  replace (53 + ec - (53 + et))%Z with (ec - et)%Z by lia.
  rewrite fexp_normal by done.
  rewrite Z.min_l by lia.
  replace (ec - et - (ec - et - 53))%Z with 53%Z by lia.
  cbv zeta iota. rewrite Z.shiftl_mul_pow2 by lia.
  unfold Z.div, Z.modulo.
  by destruct (Z.div_eucl (Z.pos mc * 2 ^ 53) (Z.pos mt)) as [q r].
Qed.

(** The quotient of two integers below [2 ^ 53], the first not above the
    second, as [div] computes it. *)
Lemma div_error (c t : Z) :
  (0 < c <= t)%Z -> (t < 2 ^ 53)%Z ->
  exists (M : positive) (E : Z),
    div (of_int c) (of_int t) = S754_finite false M E
    /\ Z.pos (digits2_pos M) = 53%Z
    /\ (-105 <= E <= 1)%Z
    /\ exists u : R,
         0 < u
         /\ - u <= IZR (Z.pos M) * powerRZ 2 E - IZR c / IZR t <= u
         /\ IZR (2 ^ 52) * u <= IZR (Z.pos M) * powerRZ 2 E.
Proof.
  intros Hc Ht.
  destruct (of_int_exact c) as (mc & kc & -> & Hdc & Hkc & Hmc); [lia|].
  destruct (of_int_exact t) as (mt & kt & -> & Hdt & Hkt & Hmt); [lia|].
  unfold div, SFdiv. rewrite SFdiv_core_normal by (done || lia).
  pose proof (digits2_pos_bounds mc) as Bc. rewrite Hdc in Bc.
  pose proof (digits2_pos_bounds mt) as Bt. rewrite Hdt in Bt.
  change (53 - 1)%Z with 52%Z in Bc, Bt.
  assert (H53 : (2 ^ 53 = 2 * 2 ^ 52)%Z) by reflexivity.
  assert (H54 : (2 ^ 54 = 2 * 2 ^ 53)%Z) by reflexivity.
  assert (H52 : (0 < 2 ^ 52)%Z) by reflexivity.
  set (q := (Z.pos mc * 2 ^ 53 / Z.pos mt)%Z) in *.
  assert (Hq1 : (q * Z.pos mt <= Z.pos mc * 2 ^ 53)%Z)
    by (unfold q; rewrite Z.mul_comm; apply Z.mul_div_le; lia).
  assert (Hq2 : (Z.pos mc * 2 ^ 53 + 1 <= (q + 1) * Z.pos mt)%Z).
  { pose proof (Z.mul_succ_div_gt (Z.pos mc * 2 ^ 53) (Z.pos mt) ltac:(lia)) as H.
    fold q in H. lia. }
  assert (Hqlo : (2 ^ 52 <= q)%Z).
  { apply Z.div_le_lower_bound; [lia|]. nia. }
  assert (Hqhi : (q < 2 ^ 54)%Z).
  { apply Z.div_lt_upper_bound; [lia|]. nia. }
  destruct q as [|pq|pq] eqn:Eq; [lia| |lia].
  pose proof (digits2_pos_bounds pq) as Bq.
  assert (Hdq : (53 <= Z.pos (digits2_pos pq) <= 54)%Z).
  { split.
    - destruct (Z.le_gt_cases 53 (Z.pos (digits2_pos pq))) as [H|H]; [done|].
      assert (2 ^ Z.pos (digits2_pos pq) <= 2 ^ 52)%Z
        by (apply Z.pow_le_mono_r; lia). lia.
    - destruct (Z.le_gt_cases (Z.pos (digits2_pos pq)) 54) as [H|H]; [done|].
      assert (2 ^ 54 <= 2 ^ (Z.pos (digits2_pos pq) - 1))%Z
        by (apply Z.pow_le_mono_r; lia). lia. }
  destruct (binary_round_aux_error pq (- kc - - kt - 53)
              (new_location (Z.pos mt) ((Z.pos mc * 2 ^ 53) mod Z.pos mt))
              (IZR c / IZR t))
    as (M & E & HR & HdM & HE & Hu); [lia | lia | lia | |].
  - (* the exact quotient lies between [q] and [q + 1] *)
    apply IZR_le in Hq1, Hq2.
    rewrite !mult_IZR in Hq1. rewrite plus_IZR, !mult_IZR, plus_IZR in Hq2.
    rewrite Hmc, Hmt, !mult_IZR, !IZR_pow2 in Hq1 by lia.
    rewrite Hmc, Hmt, !mult_IZR, !IZR_pow2 in Hq2 by lia.
    replace (- kc - - kt - 53)%Z with (- kc + (kt + - (53)))%Z by lia.
    rewrite !bpow_add, !powerRZ_neg'.
    pose proof (bpow_pos kc) as HA. pose proof (bpow_pos kt) as HB.
    pose proof (bpow_pos 53) as HC.
    set (A := powerRZ 2 kc) in *. set (B := powerRZ 2 kt) in *.
    set (C := powerRZ 2 53) in *. set (Q := IZR (Z.pos pq)) in *.
    assert (Hc' : 0 < IZR c) by (apply IZR_lt; lia).
    assert (Ht' : 0 < IZR t) by (apply IZR_lt; lia).
    set (c' := IZR c) in *. set (t' := IZR t) in *.
    assert (HD : 0 < t' * A * C)
      by (apply Rmult_lt_0_compat; [apply Rmult_lt_0_compat|]; assumption).
    assert (E1 : (c' / t' - Q * (/ A * (B * / C))) * (t' * A * C)
                 = c' * A * C - Q * (t' * B)) by (field; lra).
    assert (E2 : ((Q + 1) * (/ A * (B * / C)) - c' / t') * (t' * A * C)
                 = (Q + 1) * (t' * B) - c' * A * C) by (field; lra).
    split; nra.
  - exists M, E. unfold xorb. split; [done|]. split; [done|].
    split; [lia | done].
Qed.

Lemma of_int_100 : of_int 100 = S754_finite false 7036874417766400 (-46).
Proof. reflexivity. Qed.

(** The product of a normal number by one hundred, as [mul] computes it. *)
Lemma mul_error (M : positive) (E : Z) :
  Z.pos (digits2_pos M) = 53%Z -> (-105 <= E <= 1)%Z ->
  exists (M' : positive) (E' : Z),
    mul (S754_finite false M E) (of_int 100) = S754_finite false M' E'
    /\ exists u : R,
         0 < u
         /\ - u <= IZR (Z.pos M') * powerRZ 2 E'
                   - 100 * (IZR (Z.pos M) * powerRZ 2 E) <= u
         /\ IZR (2 ^ 52) * u <= IZR (Z.pos M') * powerRZ 2 E'.
Proof.
  intros Hd HE. rewrite of_int_100. unfold mul, SFmul.
  pose proof (digits2_pos_bounds M) as BM. rewrite Hd in BM.
  change (53 - 1)%Z with 52%Z in BM.
  set (K := 7036874417766400%positive).
  assert (BK : (2 ^ 52 <= Z.pos K < 2 ^ 53)%Z)
    by (split; [apply Z.leb_le | apply Z.ltb_lt]; reflexivity).
  assert (Hprod : (2 ^ 104 <= Z.pos (M * K) < 2 ^ 106)%Z).
  { rewrite Pos2Z.inj_mul.
    change (2 ^ 104)%Z with (2 ^ 52 * 2 ^ 52)%Z.
    change (2 ^ 106)%Z with (2 ^ 53 * 2 ^ 53)%Z.
    assert (0 < 2 ^ 52)%Z by reflexivity.
    split; [apply Z.mul_le_mono_nonneg | apply Z.mul_lt_mono_nonneg]; lia. }
  pose proof (digits2_pos_bounds (M * K)) as Bp.
  assert (Hdp : (105 <= Z.pos (digits2_pos (M * K)) <= 106)%Z).
  { split.
    - destruct (Z.le_gt_cases 105 (Z.pos (digits2_pos (M * K)))) as [H|H];
        [done|].
      assert (2 ^ Z.pos (digits2_pos (M * K)) <= 2 ^ 104)%Z
        by (apply Z.pow_le_mono_r; lia). lia.
    - destruct (Z.le_gt_cases (Z.pos (digits2_pos (M * K))) 106) as [H|H];
        [done|].
      assert (2 ^ 106 <= 2 ^ (Z.pos (digits2_pos (M * K)) - 1))%Z
        by (apply Z.pow_le_mono_r; lia). lia. }
  assert (H100 : IZR (Z.pos K) * powerRZ 2 (-46) = 100).
  { change (-46)%Z with (- (46))%Z. rewrite powerRZ_neg', <- IZR_pow2 by lia.
    change (2 ^ 46)%Z with 70368744177664%Z. unfold K. lra. }
  destruct (binary_round_aux_error (M * K) (E + -46) loc_Exact
              (100 * (IZR (Z.pos M) * powerRZ 2 E)))
    as (M' & E' & HR & _ & _ & Hu); [lia | lia | lia | |].
  - rewrite Pos2Z.inj_mul, mult_IZR, bpow_add.
    pose proof (bpow_pos E) as HA. pose proof (bpow_pos (-46)) as HB.
    assert (HAB : 0 < powerRZ 2 E * powerRZ 2 (-46))
      by (by apply Rmult_lt_0_compat).
    replace (IZR (Z.pos M) * IZR (Z.pos K) * (powerRZ 2 E * powerRZ 2 (-46)))
      with (100 * (IZR (Z.pos M) * powerRZ 2 E))
      by (rewrite <- H100; ring).
    replace ((IZR (Z.pos M) * IZR (Z.pos K) + 1)
             * (powerRZ 2 E * powerRZ 2 (-46)))
      with (100 * (IZR (Z.pos M) * powerRZ 2 E)
            + powerRZ 2 E * powerRZ 2 (-46))
      by (rewrite <- H100; ring).
    lra.
  - exists M', E'. unfold xorb. split; [done | done].
Qed.

(** [Math.round]: the integer [k] with [k <= x + 1/2 < k + 1]. *)
Lemma Math_round_spec (M : positive) (E : Z) :
  IZR (Math_round (S754_finite false M E))
    <= IZR (Z.pos M) * powerRZ 2 E + / 2
    < IZR (Math_round (S754_finite false M E)) + 1.
Proof.
  unfold Math_round. destruct (Z.leb_spec 0 E) as [HE|HE].
  - rewrite mult_IZR, IZR_pow2 by done. lra.
  - assert (Hk : (0 <= - E)%Z) by lia.
    assert (HD : (0 < 2 ^ (1 - E))%Z) by (apply Z.pow_pos_nonneg; lia).
    set (N := (2 * Z.pos M + 2 ^ (- E))%Z).
    pose proof (Z.mul_div_le N (2 ^ (1 - E)) HD) as H1.
    pose proof (Z.mul_succ_div_gt N (2 ^ (1 - E)) HD) as H2.
    set (k := (N / 2 ^ (1 - E))%Z) in *.
    apply IZR_le in H1. apply IZR_lt in H2. unfold N in H1, H2.
    replace (1 - E)%Z with (1 + - E)%Z in H1, H2 by lia.
    rewrite Z.pow_add_r in H1, H2 by lia.
    unfold Z.succ in H2.
    rewrite !mult_IZR, !plus_IZR, !mult_IZR, ?IZR_pow2 in H1 by lia.
    rewrite !mult_IZR, !plus_IZR, !mult_IZR, ?plus_IZR, ?IZR_pow2 in H2 by lia.
    change (2 ^ 1)%Z with 2%Z in H1, H2.
    assert (HE' : powerRZ 2 E = / powerRZ 2 (- E))
      by (rewrite <- powerRZ_neg'; f_equal; lia).
    rewrite HE'.
    pose proof (bpow_pos (- E)) as HB.
    set (B := powerRZ 2 (- E)) in *. set (m := IZR (Z.pos M)) in *.
    set (k' := IZR k) in *.
    assert (E1 : (m * / B + / 2) * (2 * B) = 2 * m + B) by (field; lra).
    change (powerRZ 2 1) with (2 * 1) in H1, H2.
    set (y := m * / B + / 2) in *. clearbody y. split; nra.
Qed.

(** The percentage as [getProgress] computes it, for [c] completed tasks
    of [t], fewer than [2 ^ 32]: it is the exact percentage rounded to the
    nearest integer, except that at an exact half it may be the integer
    below. *)
Lemma percentage_of_doubles (c t : Z) :
  (0 <= c <= t)%Z -> (0 < t < 2 ^ 32)%Z ->
  percentage_near c t
    (Math_round (mul (div (of_int c) (of_int t)) (of_int 100))) = true.
Proof.
  intros Hc Ht.
  assert (Ht53 : (t < 2 ^ 53)%Z).
  { assert (2 ^ 32 < 2 ^ 53)%Z by reflexivity. lia. }
  destruct (Z.eq_dec c 0%Z) as [->|Hc0].
  - (* nothing completed *)
    destruct (of_int_exact t) as (mt & kt & Et & _); [lia|].
    unfold div, mul. rewrite Et, of_int_100. simpl.
    unfold percentage_near, round_half_up.
    replace (2 * (100 * 0) + t)%Z with t by lia.
    by rewrite (Z.div_small t (2 * t)) by lia.
  - destruct (div_error c t) as (M & E & -> & HdM & HE & u & Hu & HuQ & HuB);
      [lia | done |].
    destruct (mul_error M E HdM HE) as (M' & E' & -> & u' & Hu' & HuP & HuB').
    pose proof (Math_round_spec M' E') as HK.
    set (K := Math_round (S754_finite false M' E')) in *.
    set (P := IZR (Z.pos M') * powerRZ 2 E') in *.
    set (Q := IZR (Z.pos M) * powerRZ 2 E) in *.
    change (IZR (2 ^ 52)) with (IZR 4503599627370496) in *.
    (* the exact side *)
    unfold percentage_near, halfway, round_half_up.
    set (N := (2 * (100 * c) + t)%Z). set (D := (2 * t)%Z).
    assert (HD : (0 < D)%Z) by (unfold D; lia).
    pose proof (Z.div_mod N D ltac:(lia)) as Hdm.
    pose proof (Z.mod_pos_bound N D HD) as Hj.
    set (R0 := (N / D)%Z) in *. set (j := (N mod D)%Z) in *.
    assert (Hc' : 0 < IZR c) by (apply IZR_lt; lia).
    assert (Ht' : 0 < IZR t) by (apply IZR_lt; lia).
    assert (Hct : IZR c <= IZR t) by (apply IZR_le; lia).
    assert (Ht32 : IZR t < IZR 4294967296) by (apply IZR_lt; lia).
    assert (HX : 0 < IZR c / IZR t <= 1).
    { split; [by apply Rdiv_lt_0_compat|].
      apply Rmult_le_reg_r with (IZR t); [done|].
      replace (IZR c / IZR t * IZR t) with (IZR c) by (field; lra). lra. }
    set (X := IZR c / IZR t) in *.
    assert (HXt : X * IZR t = IZR c) by (unfold X; field; lra).
    set (w := / (2 * IZR t)).
    assert (Hw : w * (2 * IZR t) = 1) by (unfold w; field; lra).
    assert (Hw0 : / IZR 8589934592 < w).
    { unfold w. apply Rinv_lt_contravar; [|lra].
      apply Rmult_lt_0_compat; lra. }
    apply (f_equal IZR) in Hdm. unfold N, D in Hdm.
    rewrite !plus_IZR, !mult_IZR in Hdm.
    fold R0 j in Hdm.
    assert (Hy : 100 * X + / 2 = IZR R0 + IZR j * w).
    { apply Rmult_eq_reg_r with (2 * IZR t); [|lra].
      replace ((IZR R0 + IZR j * w) * (2 * IZR t))
        with (IZR R0 * (2 * IZR t) + IZR j * (w * (2 * IZR t))) by ring.
      rewrite Hw. fold R0 in Hdm.
      replace ((100 * X + / 2) * (2 * IZR t))
        with (2 * (100 * (X * IZR t)) + IZR t) by (field; lra).
      rewrite HXt. lra. }
    clearbody X w. clear HXt.
    destruct (Z.eq_dec j 0%Z) as [Hj0|Hj0].
    + (* an exact half *)
      rewrite Hj0, Rmult_0_l, Rplus_0_r in Hy.
      assert (Hhalf : ((200 * c) mod D =? t)%Z = true).
      { apply Z.eqb_eq. symmetry.
        apply (Z.mod_unique _ _ (R0 - 1)); [lia|].
        pose proof (Z.div_mod N D ltac:(lia)) as Hdm'.
        fold R0 j in Hdm'. unfold N, D in Hdm'. rewrite Hj0 in Hdm'. lia. }
      rewrite Hhalf. simpl andb.
      assert (HKR : (K = R0 \/ K = R0 - 1)%Z).
      { assert (IZR K < IZR R0 + 1) by lra.
        assert (IZR R0 - 1 < IZR K + 1) by lra.
        assert (K < R0 + 1)%Z by (apply lt_IZR; rewrite plus_IZR; lra).
        assert (R0 - 1 < K + 1)%Z
          by (apply lt_IZR; rewrite plus_IZR, minus_IZR; lra).
        lia. }
      destruct HKR as [->| ->]; rewrite Z.eqb_refl; [done|].
      by rewrite orb_true_r.
    + (* off the halves *)
      assert (Hj1 : 1 <= IZR j <= 2 * IZR t - 1).
      { split; [apply IZR_le; lia|].
        replace (2 * IZR t - 1) with (IZR (D - 1))
          by (unfold D; rewrite minus_IZR, mult_IZR; lra).
        apply IZR_le. lia. }
      assert (Hjw : w <= IZR j * w <= 1 - w) by (split; nra).
      assert (HKR : K = R0).
      { assert (K < R0 + 1)%Z by (apply lt_IZR; rewrite plus_IZR; lra).
        assert (R0 < K + 1)%Z by (apply lt_IZR; rewrite plus_IZR; lra).
        lia. }
      by rewrite HKR, Z.eqb_refl.
Qed.

End Binary64Error.

(** ** The task tracker *)

Section TaskManagerFacts.
Import TaskManager.

Lemma filter_sublist {A} (f : A -> bool) (l : list A) :
  sublist (List.filter f l) l.
Proof.
  induction l as [|x l IH]; simpl; [constructor|].
  destruct (f x); by constructor.
Qed.

Lemma is_ready_spec s t :
  is_ready s t = true <-> status t = Pending /\ deps_completed (tasks s) t.
Proof.
  unfold is_ready, deps_completed. case_bool_decide as Hst.
  - split; [done | intros [? _]; done].
  - rewrite forallb_forall. split.
    + intros Hall. split.
      { destruct (status t); done. }
      intros d Hd. specialize (Hall d Hd). unfold dep_completed in Hall.
      destruct (get d (tasks s)) as [dep|]; [|done].
      exists dep. split; [done|]. by apply bool_decide_eq_true in Hall.
    + intros [_ Hall] d Hd. destruct (Hall d Hd) as (dep & Hget & Hc).
      unfold dep_completed. rewrite Hget. by apply bool_decide_eq_true.
Qed.

(** C3, as stated, fails: with a low-priority task added before a
    high-priority one, both ready, [getReadyTasks] returns the low one
    first; the result is not ordered by priority. *)
Lemma getReadyTasks_not_by_priority :
  map id (getReadyTasks Samples.two_ready) = ["T1"; "T2"]
  /\ by_priority (getReadyTasks Samples.two_ready) = false.
Proof. split; reflexivity. Qed.

(** C3, amended: [getReadyTasks] returns exactly the stored tasks that are
    pending and whose dependencies are all stored and completed, in the
    order of insertion into the map; the priority plays no part. *)
Theorem getReadyTasks_exact_in_insertion_order (s : State) :
  (forall t, In t (getReadyTasks s) <->
     In t (getAllTasks s) /\ status t = Pending /\ deps_completed (tasks s) t)
  /\ sublist (getReadyTasks s) (getAllTasks s).
Proof.
  split.
  - intros t. unfold getReadyTasks. rewrite filter_In, is_ready_spec. tauto.
  - apply filter_sublist.
Qed.

(** *** Saving the log *)

Lemma saveLog_run s :
  saveLog s =
    (with_sys
       (fst (write_file (logFile s)
               (log_json (clock_reading s) (getAllTasks s))
               (fst (read_clock (sys s))))) s,
     snd (write_file (logFile s)
            (log_json (clock_reading s) (getAllTasks s))
            (fst (read_clock (sys s))))).
Proof.
  unfold saveLog, bind, new_Date, gets, writeFile, log_json, clock_reading.
  cbn [read_clock fst snd with_sys sys logFile stringify].
  by destruct (write_file _ _ _).
Qed.

Lemma saveLog_tasks s : tasks (fst (saveLog s)) = tasks s.
Proof. by rewrite saveLog_run. Qed.

Lemma saveLog_completion s : snd (saveLog s) = log_written s.
Proof.
  rewrite saveLog_run. unfold log_written, write_file. cbn [fst snd read_clock faults].
  by destruct (faults (sys s) !! logFile s).
Qed.

(** What a save leaves on the disk: the new log, or what the fault
    leaves. *)
Lemma saveLog_files s :
  files (sys (fst (saveLog s)))
  = match faults (sys s) !! logFile s with
    | None =>
        <[logFile s := Document (log_json (clock_reading s) (getAllTasks s))]>
          (files (sys s))
    | Some fault =>
        match f_leaves fault with
        | Some text => <[logFile s := text]> (files (sys s))
        | None => files (sys s)
        end
    end.
Proof.
  rewrite saveLog_run. unfold write_file. cbn [fst snd read_clock faults files].
  by destruct (faults (sys s) !! logFile s).
Qed.

Lemma addTask_tasks task s :
  tasks (fst (addTask task s)) = set (id task) task (tasks s).
Proof. unfold addTask, bind, modify. by rewrite saveLog_tasks. Qed.

Lemma addTask_completion task s :
  snd (addTask task s) = log_written s.
Proof. unfold addTask, bind, modify. by rewrite saveLog_completion. Qed.

Lemma updateTask_found i updates s task :
  getTask i s = Some task ->
  tasks (fst (updateTask i updates s)) = set i (assign task updates) (tasks s)
  /\ snd (updateTask i updates s) = log_written s.
Proof.
  intros Hget. unfold updateTask, bind, gets, modify. rewrite Hget.
  by rewrite saveLog_tasks, saveLog_completion.
Qed.

Lemma updateTask_missing i updates s :
  getTask i s = None -> updateTask i updates s = (s, Return tt).
Proof.
  intros Hget. unfold updateTask, bind, gets. by rewrite Hget.
Qed.

(** *** The log read back *)

Lemma strings_roundtrip (l : list string) :
  map parse (map (fun x => default JNull (stringify x)) (map VString l))
  = map VString l.
Proof. rewrite !map_map. by apply map_ext. Qed.

Lemma roundtrip_insert (k : string) (v : Value) (j : Json)
    (m : gmap string Value) :
  stringify v = Some j ->
  parse <$> omap stringify (<[k := v]> m)
  = <[k := parse j]> (parse <$> omap stringify m).
Proof.
  intros E. by rewrite (omap_insert_Some _ _ _ _ j E), fmap_insert.
Qed.

Lemma roundtrip_empty :
  parse <$> omap stringify (∅ : gmap string Value) = ∅.
Proof. by rewrite omap_empty, fmap_empty. Qed.

Lemma Task_value_roundtrip t :
  parse <$> stringify (Task_value t) = Some (Task_reloaded t).
Proof.
  unfold Task_value, Task_reloaded.
  cbn [stringify fmap option_fmap option_map parse]. do 2 f_equal.
  do 6 (erewrite roundtrip_insert by reflexivity).
  cbn [parse]. rewrite strings_roundtrip. do 6 f_equal.
  destruct (result t), (startTime t), (endTime t);
    cbn [with_prop fmap option_fmap option_map];
    repeat (erewrite roundtrip_insert by reflexivity);
    rewrite roundtrip_empty;
    reflexivity.
Qed.

Lemma tasks_roundtrip (ts : list Task) :
  map parse (map (fun x => default JNull (stringify x)) (map Task_value ts))
  = map Task_reloaded ts.
Proof.
  rewrite !map_map. apply map_ext. intros t.
  pose proof (Task_value_roundtrip t) as H.
  destruct (stringify (Task_value t)); simpl in *; congruence.
Qed.

Lemma log_json_parse now ts : parse (log_json now ts) = snapshot now ts.
Proof.
  unfold log_json, snapshot. cbn [parse]. f_equal.
  do 2 (erewrite roundtrip_insert by reflexivity). rewrite roundtrip_empty.
  cbn [parse]. by rewrite tasks_roundtrip.
Qed.

Lemma saveLog_reload s :
  faults (sys s) !! logFile s = None ->
  reload (fst (saveLog s)) = Some (snapshot (clock_reading s) (getAllTasks s)).
Proof.
  intros Hok. unfold reload, read_json. rewrite saveLog_files, Hok.
  rewrite saveLog_run. cbn [logFile fst with_sys].
  by rewrite lookup_insert_eq, log_json_parse.
Qed.

Lemma addTask_reload task s :
  faults (sys s) !! logFile s = None ->
  reload (fst (addTask task s))
  = Some (snapshot (clock_reading s) (getAllTasks (fst (addTask task s)))).
Proof.
  intros Hok. unfold getAllTasks. rewrite addTask_tasks.
  unfold addTask, bind, modify. by rewrite saveLog_reload.
Qed.

Lemma updateTask_reload i updates s found :
  faults (sys s) !! logFile s = None ->
  getTask i s = Some found ->
  reload (fst (updateTask i updates s))
  = Some (snapshot (clock_reading s)
            (getAllTasks (fst (updateTask i updates s)))).
Proof.
  intros Hok Hget. unfold getAllTasks.
  rewrite (proj1 (updateTask_found i updates s found Hget)).
  unfold updateTask, bind, gets, modify. rewrite Hget.
  by rewrite saveLog_reload.
Qed.

Lemma addTask_files task s :
  files (sys (fst (addTask task s)))
  = match faults (sys s) !! logFile s with
    | None =>
        <[logFile s :=
            Document (log_json (clock_reading s)
                        (getAllTasks (fst (addTask task s))))]>
          (files (sys s))
    | Some fault =>
        match f_leaves fault with
        | Some text => <[logFile s := text]> (files (sys s))
        | None => files (sys s)
        end
    end.
Proof.
  unfold getAllTasks. rewrite addTask_tasks.
  unfold addTask, bind, modify. by rewrite saveLog_files.
Qed.

(** C2, as stated, fails: adding a task under an id that is taken returns
    normally and replaces the stored task, and a task that depends on itself
    is accepted as well. *)
Lemma addTask_accepts_duplicate_and_cycle :
  let twin := Samples.task "T1" high Pending [] in
  let loop := Samples.task "T9" low Pending ["T9"] in
  is_Some (getTask "T1" Samples.two_ready)
  /\ snd (addTask twin Samples.two_ready) = Return tt
  /\ tasks (fst (addTask twin Samples.two_ready)) <> tasks Samples.two_ready
  /\ snd (addTask loop Samples.two_ready) = Return tt
  /\ getTask "T9" (fst (addTask loop Samples.two_ready)) = Some loop.
Proof.
  repeat split; try reflexivity; [by eexists | discriminate].
Qed.

(** C2, amended: [addTask] checks neither the id nor the dependencies.  It
    stores the task under its id, in place of the task stored there before
    or else last, whatever the dependencies are, and then saves the log; it
    throws only when the log file cannot be written, and the task is stored
    then too.  Saving the log touches no other file; when it succeeds the
    log file holds the time of the save and the tasks as they now are, and
    when it fails the log file is as it was or, if the failure came after
    the file was opened, holds what was written until then. *)
Theorem addTask_always_stores (task : Task) (s : State) :
  tasks (fst (addTask task s)) = set (id task) task (tasks s)
  /\ getTask (id task) (fst (addTask task s)) = Some task
  /\ (forall k, k <> id task ->
        getTask k (fst (addTask task s)) = getTask k s)
  /\ snd (addTask task s) = log_written s
  /\ (forall path, path <> logFile s ->
        files (sys (fst (addTask task s))) !! path = files (sys s) !! path)
  /\ match faults (sys s) !! logFile s with
     | None =>
         reload (fst (addTask task s))
         = Some (snapshot (clock_reading s)
                   (getAllTasks (fst (addTask task s))))
     | Some fault =>
         files (sys (fst (addTask task s))) !! logFile s
         = match f_leaves fault with
           | Some text => Some text
           | None => files (sys s) !! logFile s
           end
     end.
Proof.
  unfold getTask. rewrite addTask_tasks, addTask_completion.
  split; [done|]. split; [apply get_set_eq|].
  split; [intros k Hk; apply get_set_ne; congruence|].
  split; [done|]. split.
  - intros path Hpath. rewrite addTask_files.
    destruct (faults (sys s) !! logFile s) as [fault|];
      [destruct (f_leaves fault)|]; by rewrite ?lookup_insert_ne.
  - destruct (faults (sys s) !! logFile s) as [fault|] eqn:E.
    + rewrite addTask_files, E.
      destruct (f_leaves fault); by rewrite ?lookup_insert_eq.
    + by apply addTask_reload.
Qed.

(** C5, as stated, fails: [updateTask] on an id that is not stored returns
    normally; nothing is thrown. *)
Lemma updateTask_unknown_id_returns :
  getTask "T7" Samples.two_ready = None
  /\ ~ (exists e, snd (updateTask "T7" no_updates Samples.two_ready) = Throw e).
Proof. split; [reflexivity | intros [e He]; discriminate]. Qed.

(** C5, amended: [updateTask] with an id that is not stored does nothing: it
    returns normally, with the tasks, the log file and the clock as they
    were. *)
Theorem updateTask_unknown_id_is_noop (i : string) (updates : Partial) (s : State) :
  getTask i s = None -> updateTask i updates s = (s, Return tt).
Proof. apply updateTask_missing. Qed.

Lemma updateTask_unknown_id_is_noop_witness :
  getTask "T7" Samples.two_ready = None
  /\ updateTask "T7" no_updates Samples.two_ready = (Samples.two_ready, Return tt).
Proof.
  split; [reflexivity|].
  apply (updateTask_unknown_id_is_noop "T7" no_updates Samples.two_ready).
  reflexivity.
Defined.

(** C9, as stated, fails: after a task with a start time is added, the log
    is written, but the task list parsed back from it is not the list in
    memory: the start time has become a string. *)
Lemma log_reload_differs_from_memory :
  let s := fst (addTask Samples.started Samples.two_ready) in
  snd (addTask Samples.started Samples.two_ready) = Return tt
  /\ (reload s ≫= property "tasks") <> Some (memory_view s)
  /\ (reload s ≫= property "tasks")
     = Some (VArray (map Task_reloaded (getAllTasks s)))
  /\ property "startTime" (Task_value Samples.started)
     = Some (VDate 1788343845123)
  /\ property "startTime" (Task_reloaded Samples.started)
     = Some (VString "2026-09-02T10:10:45.123Z").
Proof.
  split; [reflexivity|]. split; [|split; [|split]]; [|reflexivity..].
  intros H.
  assert (H' : (reload (fst (addTask Samples.started Samples.two_ready))
                  ≫= property "tasks")
               = Some (VArray (map Task_reloaded
                         (getAllTasks
                            (fst (addTask Samples.started Samples.two_ready))))))
    by reflexivity.
  rewrite H' in H.
  apply (f_equal (fun o =>
           o ≫= (fun v => match v with
                          | VArray l => last l ≫= property "startTime"
                          | _ => None
                          end))) in H.
  vm_compute in H. discriminate H.
Qed.

(** C9, amended: when the log file can be written, [addTask], on any
    tracker, and an [updateTask] that finds its task leave in it, in place
    of what it held, the time of the save and the whole current task list,
    in the order of the map.  Parsed back, every property of every task is
    as in memory except that [startTime] and [endTime] are the ISO strings
    of the times, not dates. *)
Theorem log_mirrors_tasks_with_iso_times
    (task : Task) (i : string) (updates : Partial) (s : State) :
  faults (sys s) !! logFile s = None ->
  reload (fst (addTask task s))
    = Some (snapshot (clock_reading s) (getAllTasks (fst (addTask task s))))
  /\ (forall found, well_keyed (tasks s) -> getTask i s = Some found ->
        reload (fst (updateTask i updates s))
        = Some (snapshot (clock_reading s)
                  (getAllTasks (fst (updateTask i updates s)))))
  /\ (forall now ts,
        property "timestamp" (snapshot now ts) = Some (VString (toISOString now))
        /\ property "tasks" (snapshot now ts)
           = Some (VArray (map Task_reloaded ts)))
  /\ (forall t k,
        property k (Task_reloaded t)
        = if String.eqb k "startTime"
          then VString <$> (toISOString <$> startTime t)
          else if String.eqb k "endTime"
          then VString <$> (toISOString <$> endTime t)
          else property k (Task_value t)).
Proof.
  intros Hok. split; [by apply addTask_reload|].
  split; [intros found _ Hget; by apply (updateTask_reload _ _ _ found)|].
  split; [done|].
  intros t k. unfold property, Task_reloaded, Task_value.
  destruct (String.eqb_spec k "startTime") as [->|Hs].
  { destruct (result t), (startTime t), (endTime t); reflexivity. }
  destruct (String.eqb_spec k "endTime") as [->|He].
  { destruct (result t), (startTime t), (endTime t); reflexivity. }
  destruct (decide (k = "id")) as [->|?]; [by rewrite !lookup_insert_eq|].
  rewrite !(lookup_insert_ne _ "id") by done.
  destruct (decide (k = "description")) as [->|?];
    [by rewrite !lookup_insert_eq|].
  rewrite !(lookup_insert_ne _ "description") by done.
  destruct (decide (k = "priority")) as [->|?];
    [by rewrite !lookup_insert_eq|].
  rewrite !(lookup_insert_ne _ "priority") by done.
  destruct (decide (k = "assignedTo")) as [->|?];
    [by rewrite !lookup_insert_eq|].
  rewrite !(lookup_insert_ne _ "assignedTo") by done.
  destruct (decide (k = "status")) as [->|?];
    [by rewrite !lookup_insert_eq|].
  rewrite !(lookup_insert_ne _ "status") by done.
  destruct (decide (k = "dependencies")) as [->|?];
    [by rewrite !lookup_insert_eq|].
  rewrite !(lookup_insert_ne _ "dependencies") by done.
  destruct (decide (k = "result")) as [->|?].
  - destruct (result t), (startTime t), (endTime t);
      cbn [with_prop fmap option_fmap option_map];
      rewrite ?lookup_insert_eq; try reflexivity;
      rewrite ?lookup_insert_ne by done; reflexivity.
  - destruct (result t), (startTime t), (endTime t);
      cbn [with_prop fmap option_fmap option_map];
      rewrite ?lookup_insert_ne by done; reflexivity.
Qed.

Lemma log_mirrors_tasks_with_iso_times_witness :
  (reload (fst (addTask Samples.started Samples.two_ready))
     ≫= property "tasks")
  = Some (VArray (map Task_reloaded
            (getAllTasks (fst (addTask Samples.started Samples.two_ready)))))
  /\ property "startTime" (Task_reloaded Samples.started)
     = Some (VString "2026-09-02T10:10:45.123Z").
Proof.
  destruct (log_mirrors_tasks_with_iso_times Samples.started "T1"
              Samples.restart Samples.two_ready eq_refl)
    as (H1 & _ & H3 & H4).
  split.
  - rewrite H1. exact (proj2 (H3 _ _)).
  - by rewrite H4.
Defined.

(** *** Progress *)

Lemma count_status_occ st (ts : list Task) :
  count_status st ts = Z.of_nat (count_occ Status_eq_dec (map status ts) st).
Proof.
  unfold count_status. f_equal. induction ts as [|t ts IH]; simpl; [done|].
  case_bool_decide as H; destruct (Status_eq_dec (status t) st); simpl;
    congruence.
Qed.

Lemma count_status_le st (ts : list Task) :
  0 <= count_status st ts <= Z.of_nat (length ts).
Proof.
  unfold count_status. split; [lia|]. apply inj_le.
  induction ts as [|t ts IH]; simpl; [lia|].
  destruct (bool_decide _); simpl; lia.
Qed.

(** C10, as stated, fails, however a half is rounded.  With 29 of 200
    tasks completed, [100 * 29 / 200] is 14.5 and the percentage is 14: the
    quotient [0.145] is as a double just below it, and the product is just
    below 14.5.  With 1 of 8 completed, [100 * 1 / 8] is 12.5 and the
    percentage is 13.  So the first half goes down and the second up. *)
Lemma getProgress_percentage_below_exact :
  getProgress Samples.two_hundred
    = {| total := 200; completed := 29; failed := 0; percentage := 14 |}
  /\ 2 * (100 * 29) = (2 * 14 + 1) * 200
  /\ round_half_up (100 * 29) 200 = 15
  /\ Math_round (div (of_int (100 * 29)) (of_int 200)) = 15
  /\ getProgress Samples.eight
     = {| total := 8; completed := 1; failed := 0; percentage := 13 |}
  /\ 2 * (100 * 1) = (2 * 12 + 1) * 8.
Proof.
  split; [vm_compute; reflexivity|]. split; [reflexivity|].
  split; [vm_compute; reflexivity|]. split; [vm_compute; reflexivity|].
  split; [vm_compute; reflexivity | reflexivity].
Qed.

(** C10, amended: [getProgress] always returns; for no task at all it
    returns zeros throughout, and otherwise [total] is the number of tasks,
    [completed] and [failed] count the tasks with these statuses, and
    [percentage] is [Math.round] of the double [(completed / total) * 100].
    For as many tasks as an array can hold, fewer than [2 ^ 32], this is
    [100 * completed / total] rounded to the nearest integer, a half going
    up, except that at an exact half it may be one less. *)
Theorem getProgress_counts_and_percentage (s : State) :
  total (getProgress s) = Z.of_nat (length (getAllTasks s))
  /\ completed (getProgress s)
     = Z.of_nat (count_occ Status_eq_dec (map status (getAllTasks s)) Completed)
  /\ failed (getProgress s)
     = Z.of_nat (count_occ Status_eq_dec (map status (getAllTasks s)) Failed)
  /\ percentage (getProgress s)
     = (if total (getProgress s) =? 0 then 0
        else Math_round
               (mul (div (of_int (completed (getProgress s)))
                         (of_int (total (getProgress s))))
                    (of_int 100)))
  /\ (getAllTasks s = [] ->
      getProgress s
      = {| total := 0; completed := 0; failed := 0; percentage := 0 |})
  /\ (getAllTasks s <> [] -> Z.of_nat (length (getAllTasks s)) < 2 ^ 32 ->
      percentage_near (completed (getProgress s)) (total (getProgress s))
        (percentage (getProgress s)) = true).
Proof.
  unfold getProgress. cbn [total completed failed percentage].
  rewrite <- !count_status_occ. split; [done|]. split; [done|].
  split; [done|].
  set (n := Z.of_nat (length (getAllTasks s))).
  split; [|split].
  - destruct (Z.eqb_spec n 0) as [->|Hn]; [done|].
    replace (n >? 0) with true; [done|]. symmetry. apply Z.gtb_lt. lia.
  - unfold n. by intros ->.
  - intros Hne Hlen.
    assert (Hn : 0 < n).
    { unfold n. destruct (getAllTasks s); [done | simpl; lia]. }
    replace (n >? 0) with true by (symmetry; apply Z.gtb_lt; lia).
    apply percentage_of_doubles; [apply count_status_le | lia].
Qed.

Lemma getProgress_counts_and_percentage_witness :
  percentage (getProgress Samples.two_hundred) = 14
  /\ percentage_near 29 200 (percentage (getProgress Samples.two_hundred)) = true.
Proof.
  destruct (getProgress_counts_and_percentage Samples.two_hundred)
    as (_ & _ & _ & Hp & _ & Hn).
  split; [rewrite Hp; vm_compute; reflexivity|].
  apply Hn; [discriminate | vm_compute; reflexivity].
Defined.

End TaskManagerFacts.

(** ** The coordinator *)

Section OrchestratorFacts.
Import TaskManager Orchestrator.

#[local] Instance changes_only_refl i : Reflexive (changes_only i).
Proof. intros a. repeat split; eauto. Qed.

#[local] Instance changes_only_trans i : Transitive (changes_only i).
Proof.
  intros a b c (Hk1 & Hf1 & Hi1) (Hk2 & Hf2 & Hi2). repeat split.
  - congruence.
  - intros k Hk. rewrite Hf2, Hf1; done.
  - intros t Ht. destruct (Hi1 t Ht) as (t1 & Ht1 & Hid1).
    destruct (Hi2 t1 Ht1) as (t2 & Ht2 & Hid2). exists t2. split; congruence.
Qed.

Lemma changes_only_set i (t t' : Task) m :
  get i m = Some t -> id t' = id t -> changes_only i m (set i t' m).
Proof.
  intros Hget Hid. repeat split.
  - apply set_present_keys. apply get_Some_In in Hget.
    apply (in_map fst) in Hget. exact Hget.
  - intros k Hk. by apply get_set_ne.
  - intros t0 Ht0. exists t'. rewrite get_set_eq. split; congruence.
Qed.

Lemma well_keyed_get (m : Map Task) k t :
  well_keyed m -> get k m = Some t -> k = id t.
Proof.
  intros [Hall _] Hget. apply get_Some_In in Hget.
  rewrite List.Forall_forall in Hall. exact (Hall _ Hget).
Qed.

Lemma well_keyed_value (m : Map Task) t :
  well_keyed m -> In t (values m) -> get (id t) m = Some t.
Proof.
  intros [Hall Hnd] Hin. unfold values in Hin. apply in_map_iff in Hin.
  destruct Hin as ([k v] & Hv & Hin). simpl in Hv. subst v.
  rewrite List.Forall_forall in Hall. pose proof (Hall _ Hin) as Hk.
  simpl in Hk. subst k. by apply In_get.
Qed.

Lemma changes_only_well_keyed i (a b : Map Task) :
  changes_only i a b -> well_keyed a -> well_keyed b.
Proof.
  intros (Hk & Hf & Hi) Hwa. pose proof Hwa as [Hall Hnd]. split.
  - apply List.Forall_forall. intros [k v] Hin. simpl.
    assert (Hnd' : NoDup (keys b)) by (by rewrite Hk).
    pose proof (In_get _ _ _ Hnd' Hin) as Hget.
    destruct (decide (k = i)) as [->|Hne].
    + destruct (get i a) as [t|] eqn:Ha.
      * destruct (Hi t eq_refl) as (t' & Ht' & Hid).
        rewrite Hget in Ht'. injection Ht' as <-.
        rewrite Hid. by apply (well_keyed_get a).
      * apply get_None_keys in Ha. rewrite <- Hk in Ha.
        apply get_None_keys in Ha. congruence.
    + rewrite (Hf k Hne) in Hget. by apply (well_keyed_get a).
  - by rewrite Hk.
Qed.

#[local] Instance works_on_refl i : Reflexive (works_on i).
Proof. intros s. split; reflexivity. Qed.

#[local] Instance works_on_trans i : Transitive (works_on i).
Proof.
  intros a b c [Hd1 Hc1] [Hd2 Hc2]. split; [congruence | by etrans].
Qed.

Lemma new_Date_works_on i : preserves (works_on i) (on_taskManager new_Date).
Proof. intros s. unfold on_taskManager, new_Date. simpl. split; reflexivity. Qed.

Lemma updateTask_works_on i updates :
  u_id updates = None ->
  preserves (works_on i) (on_taskManager (updateTask i updates)).
Proof.
  intros Hid s. unfold on_taskManager.
  destruct (updateTask i updates (taskManager s)) as [t r] eqn:E. simpl.
  split; [done|]. simpl.
  destruct (getTask i (taskManager s)) as [task|] eqn:Hget.
  - destruct (updateTask_found i updates _ _ Hget) as [Ht _].
    rewrite E in Ht. simpl in Ht. rewrite Ht.
    apply (changes_only_set i task); [done|].
    unfold assign. simpl. by rewrite Hid.
  - rewrite (updateTask_missing i updates _ Hget) in E.
    injection E as <- _. reflexivity.
Qed.

Lemma send_works_on i r : preserves (works_on i) (send r).
Proof.
  intros s. unfold send. destruct (send_error _); destruct r; simpl;
    split; reflexivity.
Qed.

Lemma await_works_on {A} i (c : Completion A) : preserves (works_on i) (await c).
Proof. intros s. reflexivity. Qed.

Lemma executeTask_effect task session s :
  let s' := fst (executeTask task session s) in
  dispatched s' =
    dispatched s ++ [{| d_task := task; d_tasks := tasks (taskManager s) |}]
  /\ changes_only (id task) (tasks (taskManager s)) (tasks (taskManager s')).
Proof.
  unfold executeTask. unfold bind at 1. unfold note_dispatch at 1, modify.
  set (s1 := Build_State _ _ _ _ _).
  match goal with |- context [fst (?c s1)] =>
    assert (Hp : preserves (works_on (id task)) c) end.
  { apply preserves_bind; [apply _ | apply new_Date_works_on |]. intros start.
    apply preserves_bind; [apply _ | by apply updateTask_works_on |]. intros _.
    apply preserves_bind; [apply _ | apply send_works_on |]. intros evs.
    apply preserves_bind; [apply _ | apply await_works_on |]. intros result.
    apply preserves_bind; [apply _ | apply new_Date_works_on |]. intros finish.
    by apply updateTask_works_on. }
  destruct (Hp s1) as [Hd Hc]. simpl. split; [by rewrite Hd | exact Hc].
Qed.

Lemma changes_only_elsewhere i (m m' : Map Task) x k t :
  changes_only i m m' -> get i m = Some x -> status x = Pending ->
  get k m = Some t -> status t <> Pending -> get k m' = Some t.
Proof.
  intros (_ & Hf & _) Hx Hp Hk Hs.
  destruct (decide (k = i)) as [->|Hne]; [congruence|].
  by rewrite Hf.
Qed.

Lemma deps_completed_stay i (m m' : Map Task) x t :
  changes_only i m m' -> get i m = Some x -> status x = Pending ->
  deps_completed m t -> deps_completed m' t.
Proof.
  intros Hc Hx Hp Hdeps d Hd. destruct (Hdeps d Hd) as (dep & Hget & Hst).
  exists dep. split; [|done].
  apply (changes_only_elsewhere i m m' x); try done. by rewrite Hst.
Qed.

Lemma NoDup_map_filter {A B} (f : A -> B) (p : A -> bool) (l : list A) :
  NoDup (map f l) -> NoDup (map f (List.filter p l)).
Proof.
  induction l as [|a l IH]; simpl; [done|].
  intros Hnd. apply NoDup_cons in Hnd as [Hnotin Hnd].
  destruct (p a); simpl; [|by apply IH].
  apply NoDup_cons. split; [|by apply IH].
  intros Hin. apply Hnotin. apply list_elem_of_In in Hin.
  apply list_elem_of_In. apply in_map_iff in Hin as (y & <- & Hy).
  apply filter_In in Hy as [Hy _]. by apply in_map.
Qed.

Lemma well_keyed_ids (m : Map Task) :
  well_keyed m -> NoDup (map id (values m)).
Proof.
  intros [Hall Hnd]. replace (map id (values m)) with (keys m); [done|].
  unfold keys, values. rewrite map_map. apply map_ext_in.
  intros kv Hin. rewrite List.Forall_forall in Hall. by apply Hall.
Qed.

(** One call of [executeTask] on a stored, ready task. *)
Lemma executeTask_orderly m0 task session s (rest : list Task) :
  orderly m0 s ->
  get (id task) (tasks (taskManager s)) = Some task ->
  is_ready (taskManager s) task = true ->
  NoDup (map id (task :: rest)) ->
  (forall t, In t rest -> get (id t) (tasks (taskManager s)) = Some t) ->
  let s' := fst (executeTask task session s) in
  orderly m0 s'
  /\ (forall t, In t rest -> get (id t) (tasks (taskManager s')) = Some t)
  /\ (forall t, In t rest -> is_ready (taskManager s) t = true ->
        is_ready (taskManager s') t = true).
Proof.
  intros (Hwk & Hsafe & Hkeep) Hget Hready Hnd Hrest s'.
  destruct (executeTask_effect task session s) as [Hd Hc]. fold s' in Hd, Hc.
  apply is_ready_spec in Hready as [Hpend Hdeps].
  assert (Hothers : forall t, In t rest ->
            get (id t) (tasks (taskManager s')) = Some t).
  { intros t Hin. destruct Hc as (_ & Hf & _). rewrite Hf; [by apply Hrest|].
    simpl in Hnd. apply NoDup_cons in Hnd as [Hnotin _]. intros Heq.
    apply Hnotin. rewrite <- Heq. apply list_elem_of_In. by apply in_map. }
  split; [split; [|split] | split].
  - by apply (changes_only_well_keyed (id task) (tasks (taskManager s))).
  - rewrite Hd. apply Forall_app. split; [done|].
    apply Forall_singleton. by split; [|split].
  - intros k t Hk Hs.
    apply (changes_only_elsewhere (id task) (tasks (taskManager s)) _ task);
      auto.
  - exact Hothers.
  - intros t Hin Hr. apply is_ready_spec in Hr as [Hp Hdp].
    apply is_ready_spec. split; [done|].
    by apply (deps_completed_stay (id task) (tasks (taskManager s)) _ task).
Qed.

Lemma executeDevelopmentTasks_orderly m0 s :
  orderly m0 s -> orderly m0 (fst (executeDevelopmentTasks s)).
Proof.
  intros Hord. unfold executeDevelopmentTasks. unfold bind at 1, gets. simpl.
  set (ready := List.filter _ _).
  apply (for_of_invariant
    (fun l s1 => orderly m0 s1 /\ NoDup (map id l)
       /\ forall t, In t l ->
            get (id t) (tasks (taskManager s1)) = Some t
            /\ is_ready (taskManager s1) t = true)
    (orderly m0)).
  - tauto.
  - intros x xs s1 (Ho & Hnd & Hall).
    destruct (Hall x (or_introl eq_refl)) as [Hgx Hrx].
    pose proof (executeTask_orderly m0 x devSession s1 xs Ho Hgx Hrx Hnd
                  (fun t Hin => proj1 (Hall t (or_intror Hin))))
      as (Ho' & Hget' & Hready').
    destruct (executeTask x devSession s1) as [s2 [[]|e|]]; simpl in *;
      [|done..].
    split; [done|]. split; [by apply NoDup_cons in Hnd as [_ ?]|].
    intros t Hin. split; [by apply Hget'|].
    apply Hready'; [done|]. by apply Hall; right.
  - destruct Hord as (Hwk & ? & ?). split; [done|]. subst ready. split.
    + apply NoDup_map_filter. unfold getReadyTasks.
      apply NoDup_map_filter. by apply well_keyed_ids.
    + intros t Hin. apply filter_In in Hin as [Hin _].
      unfold getReadyTasks in Hin. apply filter_In in Hin as [Hin Hr].
      split; [by apply well_keyed_value | done].
Qed.

Lemma executeTestingTasks_orderly m0 s :
  orderly m0 s -> orderly m0 (fst (executeTestingTasks s)).
Proof.
  intros Hord. unfold executeTestingTasks. unfold bind at 1, gets. simpl.
  set (testTasks := List.filter _ _).
  apply (for_of_invariant
    (fun l s1 => orderly m0 s1 /\ NoDup (map id l)
       /\ forall t, In t l -> get (id t) (tasks (taskManager s1)) = Some t)
    (orderly m0)).
  - tauto.
  - intros x xs s1 (Ho & Hnd & Hall). unfold bind, gets. simpl.
    destruct (List.find _ _) as [t'|] eqn:Hfind.
    + apply find_some in Hfind as [Hin Heq]. apply String.eqb_eq in Heq.
      unfold getReadyTasks in Hin. apply filter_In in Hin as [Hin Hr].
      pose proof Ho as (Hwk & _).
      pose proof (well_keyed_value _ _ Hwk Hin) as Hg.
      rewrite Heq, (Hall x (or_introl eq_refl)) in Hg. injection Hg as ->.
      pose proof (executeTask_orderly m0 t' testSession s1 xs Ho
                    (Hall t' (or_introl eq_refl)) Hr Hnd
                    (fun t Hin => Hall t (or_intror Hin)))
        as (Ho' & Hget' & _).
      destruct (executeTask t' testSession s1) as [s2 [[]|e|]]; simpl in *;
        [|done..].
      split; [done|]. split; [by apply NoDup_cons in Hnd as [_ ?]|done].
    + simpl. split; [done|]. split; [by apply NoDup_cons in Hnd as [_ ?]|].
      intros t Hin. apply Hall. by right.
  - destruct Hord as (Hwk & ? & ?). split; [done|]. subst testTasks. split.
    + apply NoDup_map_filter. by apply well_keyed_ids.
    + intros t Hin. apply filter_In in Hin as [Hin _].
      by apply well_keyed_value.
Qed.

Lemma executeAllTasks_orderly m0 s :
  orderly m0 s -> orderly m0 (fst (executeAllTasks s)).
Proof.
  intros Hord. unfold executeAllTasks, bind.
  pose proof (executeDevelopmentTasks_orderly m0 s Hord) as Hdev.
  destruct (executeDevelopmentTasks s) as [s1 [[]|e|]]; simpl in *;
    [|done..].
  by apply executeTestingTasks_orderly.
Qed.

(** The task maps the class builds are well keyed: [addTask] keeps them so,
    and so does an [updateTask] that leaves the id alone. *)
Lemma well_keyed_empty : well_keyed [].
Proof. split; constructor. Qed.

Lemma well_keyed_addTask task (s : TaskManager.State) :
  well_keyed (tasks s) -> well_keyed (tasks (fst (addTask task s))).
Proof.
  rewrite addTask_tasks. intros Hwk. pose proof Hwk as [Hall Hnd].
  destruct (get (id task) (tasks s)) as [t0|] eqn:Hget.
  - apply (changes_only_well_keyed (id task) (tasks s)); [|done].
    apply (changes_only_set _ t0); [done|].
    by apply (well_keyed_get (tasks s)).
  - apply get_None_keys in Hget. rewrite (set_absent _ _ _ Hget). split.
    + apply Forall_app. split; [done|]. by apply Forall_singleton.
    + unfold keys. rewrite map_app. simpl. apply NoDup_app. split; [done|].
      split; [|apply NoDup_singleton].
      intros k Hk Hk'. apply list_elem_of_singleton in Hk'. subst k.
      apply Hget. by apply list_elem_of_In.
Qed.

(** [createSampleTasks], for any list of tasks: [for (const task of
    sampleTasks) await this.taskManager.addTask(task)]. *)
Lemma well_keyed_after_adding (added : list Task) (s : TaskManager.State) :
  well_keyed (tasks s) ->
  well_keyed (tasks (fst (for_of added addTask s))).
Proof.
  set (R := fun a b : TaskManager.State =>
              well_keyed (tasks a) -> well_keyed (tasks b)).
  assert (HR : Reflexive R) by (intros a Ha; exact Ha).
  assert (HT : Transitive R) by (intros a b c Hab Hbc Ha; exact (Hbc (Hab Ha))).
  exact (preserves_for_of R added addTask
           (fun task a => well_keyed_addTask task a) s).
Qed.

Lemma well_keyed_updateTask i updates (s : TaskManager.State) :
  u_id updates = None ->
  well_keyed (tasks s) -> well_keyed (tasks (fst (updateTask i updates s))).
Proof.
  intros Hid Hwk. destruct (getTask i s) as [task|] eqn:Hget.
  - rewrite (proj1 (updateTask_found i updates s task Hget)).
    apply (changes_only_well_keyed i (tasks s)); [|done].
    apply (changes_only_set _ task); [done|].
    unfold assign. simpl. by rewrite Hid.
  - by rewrite (updateTask_missing i updates s Hget).
Qed.

Lemma orderly_start s :
  well_keyed (tasks (taskManager s)) ->
  Forall dispatch_safe (dispatched s) ->
  orderly (tasks (taskManager s)) s.
Proof. intros Hwk Hsafe. split; [done|]. split; [done|]. by intros k t. Qed.

(** C1: every call of [executeTask] made by [executeDevelopmentTasks], by
    [executeTestingTasks] or by the two in a row is made on a task that is
    then stored, pending, and has all its dependencies stored and completed;
    this for a task map as [addTask] builds it. *)
Theorem dispatch_respects_dependencies (s : Orchestrator.State) :
  well_keyed (tasks (taskManager s)) ->
  Forall dispatch_safe (dispatched s) ->
  Forall dispatch_safe (dispatched (fst (executeDevelopmentTasks s)))
  /\ Forall dispatch_safe (dispatched (fst (executeTestingTasks s)))
  /\ Forall dispatch_safe (dispatched (fst (executeAllTasks s))).
Proof.
  intros Hwk Hsafe. pose proof (orderly_start s Hwk Hsafe) as Ho.
  split; [|split].
  - by apply (executeDevelopmentTasks_orderly _ s Ho).
  - by apply (executeTestingTasks_orderly _ s Ho).
  - by apply (executeAllTasks_orderly _ s Ho).
Qed.

Lemma dispatch_respects_dependencies_witness :
  Forall dispatch_safe (dispatched (fst (executeAllTasks Samples.project))).
Proof.
  apply (dispatch_respects_dependencies Samples.project).
  - split; [repeat constructor | compute_done].
  - constructor.
Defined.

(** On the sample project the two passes call [executeTask] on T1, T2 and
    T3 and leave T4 and T5 pending. *)
Example sample_project_run :
  map (fun d => id (d_task d)) (dispatched (fst (executeAllTasks Samples.project)))
    = ["T1"; "T2"; "T3"]
  /\ map status (getAllTasks (taskManager (fst (executeAllTasks Samples.project))))
    = [Completed; Completed; Completed; Pending; Pending].
Proof. split; vm_compute; reflexivity. Qed.

(** C4, as stated, fails: [updateTask] sets a completed task and a failed
    task back to in-progress, in place. *)
Lemma updateTask_mutates_terminal_tasks :
  status <$> getTask "T1" Samples.settled_pair = Some Completed
  /\ status <$> getTask "T1" (fst (updateTask "T1" Samples.restart Samples.settled_pair))
     = Some InProgress
  /\ status <$> getTask "T2" Samples.settled_pair = Some Failed
  /\ status <$> getTask "T2" (fst (updateTask "T2" Samples.restart Samples.settled_pair))
     = Some InProgress.
Proof. repeat split. Qed.

(** C4, amended: [updateTask] does not look at the status: on a task map
    as [addTask] builds it, with every task under its own id, the fields
    given are written over those of the stored task, completed or failed as
    it may be, the rest is kept, and the tasks under the other ids are as
    they were.  The orchestrator for its part calls [executeTask] on pending
    tasks only, so its two passes leave every task that was not pending as
    it was. *)
Theorem updateTask_overwrites_any_status
    (i : string) (updates : Partial) (s : TaskManager.State) (task : Task)
    (o : Orchestrator.State) :
  well_keyed (tasks s) ->
  getTask i s = Some task ->
  well_keyed (tasks (taskManager o)) ->
  Forall dispatch_safe (dispatched o) ->
  tasks (fst (updateTask i updates s)) = set i (assign task updates) (tasks s)
  /\ getTask i (fst (updateTask i updates s)) = Some (assign task updates)
  /\ (forall k, k <> i -> getTask k (fst (updateTask i updates s)) = getTask k s)
  /\ keeps_settled (tasks (taskManager o))
       (tasks (taskManager (fst (executeAllTasks o)))).
Proof.
  intros _ Hget Hwk Hsafe.
  destruct (updateTask_found i updates s task Hget) as [Ht _].
  unfold getTask. rewrite Ht. split; [done|]. split; [apply get_set_eq|].
  split; [intros k Hk; by apply get_set_ne|].
  by apply (executeAllTasks_orderly _ o (orderly_start o Hwk Hsafe)).
Qed.

Lemma updateTask_overwrites_any_status_witness :
  getTask "T2" (fst (updateTask "T2" Samples.restart Samples.settled_pair))
    = Some (assign (Samples.task "T2" high Failed []) Samples.restart)
  /\ get "T1" (tasks (taskManager (fst (executeAllTasks Samples.resumed))))
     = Some (Samples.task "T1" high Completed [])
  /\ get "T2" (tasks (taskManager (fst (executeAllTasks Samples.resumed))))
     = Some (Samples.task "T2" high Failed []).
Proof.
  pose proof (updateTask_overwrites_any_status "T2" Samples.restart
                Samples.settled_pair (Samples.task "T2" high Failed [])
                Samples.resumed) as H.
  destruct H as (_ & H2 & _ & H4).
  - split; [repeat constructor | compute_done].
  - reflexivity.
  - split; [repeat constructor | compute_done].
  - constructor.
  - split; [exact H2|]. split.
    + apply (H4 "T1"); [reflexivity | discriminate].
    + apply (H4 "T2"); [reflexivity | discriminate].
Defined.

(** On the project taken up again the two passes call [executeTask] on T3
    alone: T1 and T2 are settled, and T4 waits for T2, which failed. *)
Example resumed_project_run :
  map (fun d => id (d_task d)) (dispatched (fst (executeAllTasks Samples.resumed)))
    = ["T3"]
  /\ map status (getAllTasks (taskManager (fst (executeAllTasks Samples.resumed))))
    = [Completed; Failed; Completed; Pending].
Proof. split; vm_compute; reflexivity. Qed.

End OrchestratorFacts.

(** ** Waiting for a session *)

Lemma append_assoc (a b c : string) : (a +:+ b) +:+ c = a +:+ (b +:+ c).
Proof.
  induction a as [|x a IH]; [reflexivity|].
  change (String x ((a +:+ b) +:+ c) = String x (a +:+ (b +:+ c))).
  by rewrite IH.
Qed.

Lemma append_empty_r (a : string) : a +:+ "" = a.
Proof.
  induction a as [|x a IH]; [reflexivity|].
  change (String x (a +:+ "") = String x a). by rewrite IH.
Qed.


Section ParallelFacts.
Import Parallel.

Lemma hear_settled w sig c : settled w = Some c -> settled (hear w sig) = Some c.
Proof.
  intros H. destruct w as [o e a st]. simpl in H. subst st.
  destruct sig as [[| | | |]|], a, e; reflexivity.
Qed.

Lemma fold_hear_settled sigs w c :
  settled w = Some c -> settled (fold_left hear sigs w) = Some c.
Proof.
  revert w. induction sigs as [|sig sigs IH]; intros w H; simpl; [done|].
  apply IH. by apply hear_settled.
Qed.

(** While nothing ends the wait, the promise only collects the messages. *)
Lemma fold_hear_collects pre w :
  forallb non_terminal pre = true ->
  fold_left hear (map Event pre) w =
    {| w_output := w_output w +:+ String.concat "" (map or_empty (messages pre));
       hasError := hasError w; timeout_armed := timeout_armed w;
       settled := settled w |}.
Proof.
  revert w. induction pre as [|e pre IH]; intros w Hq; simpl.
  - rewrite append_empty_r. by destruct w.
  - simpl in Hq. apply andb_prop in Hq as [He Hq].
    rewrite IH by done. destruct e; simpl in *; try done.
    f_equal. rewrite append_assoc. f_equal.
    destruct (map or_empty (messages pre)); [apply append_empty_r | reflexivity].
Qed.


Lemma wait_idle pre rest :
  forallb non_terminal pre = true ->
  wait (map Event pre ++ Event session_idle :: rest)
    = Return (String.concat "" (map or_empty (messages pre))).
Proof.
  intros Hq. unfold wait. rewrite fold_left_app, fold_hear_collects by done.
  simpl. by erewrite fold_hear_settled by reflexivity.
Qed.

Lemma wait_error pre message rest :
  forallb non_terminal pre = true ->
  wait (map Event pre ++ Event (Copilot.error message) :: rest)
    = Throw (Error (or_else "執行錯誤" message)).
Proof.
  intros Hq. unfold wait. rewrite fold_left_app, fold_hear_collects by done.
  simpl. by erewrite fold_hear_settled by reflexivity.
Qed.





(** On the sample, the two lanes of [executeTasksInParallel]: the front-end
    task fails by timeout and the back-end task completes all the same. *)
Example overdue_in_parallel :
  map (fun t => (id t, status t, output t, error t))
      (values (tasks (fst (executeTasksInParallel Samples.overdue))))
  = [("FE-001", Failed, None, Some "任務執行超時");
     ("BE-001", Completed, Some "done", None)].
Proof. reflexivity. Qed.

End ParallelFacts.

Lemma last_any_default {A} (a d d' : A) (l : list A) :
  List.last (a :: l) d = List.last (a :: l) d'.
Proof.
  revert a. induction l as [|b l IH]; intros a; [done|].
  change (List.last (b :: l) d = List.last (b :: l) d'). apply IH.
Qed.

Lemma last_cons_default {A} (a d : A) (l : list A) :
  List.last (a :: l) d = List.last l a.
Proof. destruct l as [|b l]; [done|]. apply (last_any_default b d a). Qed.

Section SendAndWaitFacts.
Import NextJs.

Lemma sendAndWait_hear_settled w h c :
  settled w = Some c -> settled (hear w h) = Some c.
Proof.
  intros H. destruct w as [o e a st]. simpl in H. subst st.
  destruct h as [[[| | | |]|]|], a, e; reflexivity.
Qed.

Lemma sendAndWait_fold_settled hs w c :
  settled w = Some c -> settled (fold_left hear hs w) = Some c.
Proof.
  revert w. induction hs as [|h hs IH]; intros w H; simpl; [done|].
  apply IH. by apply sendAndWait_hear_settled.
Qed.

(** While nothing ends the wait, the promise only keeps the last message. *)
Lemma sendAndWait_fold_keeps_last pre w :
  forallb non_terminal pre = true ->
  fold_left hear (map (fun e => Sig (Event e)) pre) w =
    {| w_result := List.last (map or_empty (messages pre)) (w_result w);
       hasError := hasError w; timeout_armed := timeout_armed w;
       settled := settled w |}.
Proof.
  revert w. induction pre as [|e pre IH]; intros w Hq; simpl.
  - by destruct w.
  - simpl in Hq. apply andb_prop in Hq as [He Hq].
    rewrite IH by done. destruct e; try done.
    simpl hear. cbn [w_result hasError timeout_armed settled].
    change (messages (assistant_message content :: pre))
      with (content :: messages pre).
    simpl map. by rewrite last_cons_default.
Qed.

Lemma sendAndWait_idle pre rest :
  forallb non_terminal pre = true ->
  wait (map (fun e => Sig (Event e)) pre ++ Sig (Event session_idle) :: rest)
    = Return (List.last (map or_empty (messages pre)) "").
Proof.
  intros Hq. unfold wait.
  rewrite fold_left_app, sendAndWait_fold_keeps_last by done.
  simpl. by erewrite sendAndWait_fold_settled by reflexivity.
Qed.

Lemma sendAndWait_error pre message rest :
  forallb non_terminal pre = true ->
  wait (map (fun e => Sig (Event e)) pre
          ++ Sig (Event (Copilot.error message)) :: rest)
    = Throw (Error (or_else "執行錯誤" message)).
Proof.
  intros Hq. unfold wait.
  rewrite fold_left_app, sendAndWait_fold_keeps_last by done.
  simpl. by erewrite sendAndWait_fold_settled by reflexivity.
Qed.

End SendAndWaitFacts.

Lemma orchestrator_listen_last evs rest result :
  forallb not_idle evs = true ->
  Orchestrator.listen result (evs ++ session_idle :: rest)
    = Return (List.last (map or_empty (messages evs)) result).
Proof.
  revert result. induction evs as [|e evs IH]; intros result Hq; [done|].
  simpl in Hq. apply andb_prop in Hq as [He Hq].
  destruct e; try done; simpl Orchestrator.listen; rewrite IH by done;
    try done.
  change (messages (assistant_message content :: evs))
    with (content :: messages evs).
  simpl map. by rewrite last_cons_default.
Qed.

Lemma appended_all evs output :
  Marketing.appended output evs
  = output +:+ String.concat "" (map Marketing.line_of (messages evs)).
Proof.
  revert output. induction evs as [|e evs IH]; intros output.
  - simpl. by rewrite append_empty_r.
  - destruct e; simpl; rewrite IH; try done.
    rewrite append_assoc. f_equal.
    by destruct (map Marketing.line_of (messages evs));
      [rewrite append_empty_r|].
Qed.

Lemma runAgent_listen_all late evs rest output :
  forallb not_idle evs = true ->
  Marketing.listen late output (evs ++ session_idle :: rest)
    = Return (Marketing.appended output (evs ++ firstn late rest)).
Proof.
  revert output. induction evs as [|e evs IH]; intros output Hq; [done|].
  simpl in Hq. apply andb_prop in Hq as [He Hq].
  destruct e; simpl in *; try done; by rewrite IH.
Qed.

Lemma non_terminal_not_idle (pre : list SessionEvent) :
  forallb non_terminal pre = true -> forallb not_idle pre = true.
Proof.
  rewrite !forallb_forall. intros H e He. specialize (H e He).
  by destruct e.
Qed.

(** C8, as stated, fails: [sendAndWait] resolves with the content of the
    last message alone, not with the contents of all messages put
    together. *)
Lemma sendAndWait_returns_last_message_only :
  NextJs.wait
    [NextJs.Sig (Event (assistant_message (Some "Plan. ")));
     NextJs.Sig (Event (assistant_message (Some "Done.")));
     NextJs.Sig (Event session_idle)] = Return "Done."
  /\ Return "Done." <> Return ("Plan. " +:+ "Done.").
Proof. split; [reflexivity | discriminate]. Qed.

(** C8, amended: a wait resolves at the first idle event that no error
    event comes before.  [sendAndWait], like [executeTask] of the
    orchestrator, resolves with the content of the last message before that
    idle event, the empty string if there was none; [executeTask] of the
    parallel manager resolves with the contents of all these messages put
    together.  [runAgent] reads its output only when it runs again after
    that idle event, and its listener is not removed: it returns every
    content heard until then, the messages that came after the idle event
    among them, each followed by a line feed, put together and trimmed.
    [sendAndWait] and the parallel [executeTask] reject at the first error
    event that no idle event comes before, with its message or else a fixed
    text. *)
Theorem waits_resolve_on_idle
    (pre rest0 : list SessionEvent) (rest1 : list NextJs.Heard)
    (rest2 : list Signal) (message : option string) (name : string)
    (late : nat) :
  forallb non_terminal pre = true ->
  NextJs.wait (map (fun e => NextJs.Sig (Event e)) pre
                 ++ NextJs.Sig (Event session_idle) :: rest1)
    = Return (List.last (map or_empty (messages pre)) "")
  /\ NextJs.wait (map (fun e => NextJs.Sig (Event e)) pre
                    ++ NextJs.Sig (Event (Copilot.error message)) :: rest1)
     = Throw (Error (or_else "執行錯誤" message))
  /\ Orchestrator.listen "" (pre ++ session_idle :: rest0)
     = Return (List.last (map or_empty (messages pre)) "")
  /\ Parallel.wait (map Event pre ++ Event session_idle :: rest2)
     = Return (String.concat "" (map or_empty (messages pre)))
  /\ Parallel.wait (map Event pre ++ Event (Copilot.error message) :: rest2)
     = Throw (Error (or_else "執行錯誤" message))
  /\ Marketing.runAgent
       {| send_error := None; events := pre ++ session_idle :: rest0 |}
       late name
     = Return {| Marketing.name := name;
                 Marketing.raw :=
                   trim (String.concat ""
                           (map Marketing.line_of
                              (messages (pre ++ firstn late rest0)))) |}.
Proof.
  intros Hpre. pose proof (non_terminal_not_idle pre Hpre) as Hevs.
  split; [by apply sendAndWait_idle|].
  split; [by apply sendAndWait_error|].
  split; [by apply orchestrator_listen_last|].
  split; [by apply wait_idle|].
  split; [by apply wait_error|].
  unfold Marketing.runAgent. simpl.
  by rewrite runAgent_listen_all, appended_all.
Qed.

Lemma waits_resolve_on_idle_witness :
  NextJs.wait
    [NextJs.Sig (Event (assistant_message (Some "Plan. ")));
     NextJs.Sig (Event (assistant_message (Some "Done.")));
     NextJs.Sig (Event session_idle)] = Return "Done."
  /\ Parallel.wait
       [Event (assistant_message (Some "Plan. "));
        Event (assistant_message (Some "Done."));
        Event session_idle] = Return "Plan. Done."
  /\ Marketing.runAgent
       {| send_error := None;
          events := [assistant_message (Some "Plan. ");
                     assistant_message (Some "Done."); session_idle;
                     assistant_message (Some "More.");
                     assistant_message (Some "Last.")] |} 1 "ops"
     = Return {| Marketing.name := "ops";
                 Marketing.raw :=
                   "Plan. " +:+ LF +:+ "Done." +:+ LF +:+ "More." |}.
Proof.
  destruct (waits_resolve_on_idle
              [assistant_message (Some "Plan. "); assistant_message (Some "Done.")]
              [assistant_message (Some "More."); assistant_message (Some "Last.")]
              [] [] None "ops" 1%nat eq_refl)
    as (H1 & _ & _ & H4 & _ & H6).
  split; [exact H1|]. split; [exact H4 | exact H6].
Defined.

(** ** The fix and re-run cycle *)

Section CycleFacts.
Import NextJs.

Lemma try_catch_rethrow {S A} (c : M S A) (s : S) :
  try_catch c (fun error => throw error) s = c s.
Proof. unfold try_catch, throw. by destruct (c s) as [s' [a|e|]]. Qed.









Lemma fixFailedTests_for_of report s :
  fixFailedTests report s
  = for_of (List.filter (has_status "failed") (results report)) fixSingleTest s.
Proof.
  unfold fixFailedTests.
  by destruct (List.filter (has_status "failed") (results report)).
Qed.




(** With a fixer that answers with an error, [runFullTestCycle] throws
    after the first run, with one run of the suite left unused, where the
    loop of the specification at the bound one runs the suite again and
    ends with success. *)
Example runFullTestCycle_aborts_when_a_fix_throws :
  let r := runFullTestCycle ["src/components/LoginForm.tsx"] Samples.fix_refused in
  let r1 := runFullTestCycle_spec 1 ["src/components/LoginForm.tsx"]
              Samples.fix_refused in
  snd r = Throw (Error "model unavailable")
  /\ length (List.filter ran_tests (calls (fst r))) = 1%nat
  /\ length (runs (fst r)) = 1%nat
  /\ success <$> returned (snd r1) = Some true
  /\ length (List.filter ran_tests (calls (fst r1))) = 2%nat.
Proof. repeat split. Qed.

End CycleFacts.

(* ===================================================================== *)
(** * Part III: further properties of the code *)
(* ===================================================================== *)

(** ** The task tracker, continued *)

Section TaskManagerMore.
Import TaskManager.

Lemma ready_in (s : State) (t : Task) :
  In t (getReadyTasks s) ->
  In t (getAllTasks s) /\ status t = Pending /\ deps_completed (tasks s) t.
Proof.
  unfold getReadyTasks. rewrite filter_In, is_ready_spec. tauto.
Qed.

(** X1: a task that lists its own id among its dependencies is never
    returned by [getReadyTasks], in any task map where it is stored under
    its id: it would have to be pending and completed at once. *)
Theorem self_dependent_task_never_ready (s : State) (t : Task) :
  well_keyed (tasks s) ->
  In t (getAllTasks s) ->
  In (id t) (dependencies t) ->
  ~ In t (getReadyTasks s).
Proof.
  intros Hwk Hin Hself Hready.
  apply ready_in in Hready as (_ & Hp & Hdeps).
  destruct (Hdeps _ Hself) as (dep & Hget & Hc).
  rewrite (well_keyed_value _ _ Hwk Hin) in Hget. injection Hget as <-.
  congruence.
Qed.

Lemma self_dependent_task_never_ready_witness :
  ~ In (Samples.task "T9" low Pending ["T9"])
       (getReadyTasks
          (fst (addTask (Samples.task "T9" low Pending ["T9"]) Samples.two_ready))).
Proof.
  apply self_dependent_task_never_ready.
  - split; [repeat constructor | compute_done].
  - vm_compute. tauto.
  - left. reflexivity.
Defined.

(** What [addTask] and [saveLog] leave alone. *)
Lemma saveLog_frame s :
  logFile (fst (saveLog s)) = logFile s
  /\ faults (sys (fst (saveLog s))) = faults (sys s).
Proof.
  unfold saveLog, bind, new_Date, gets, writeFile, write_file. simpl.
  destruct (faults (sys s) !! logFile s); split; reflexivity.
Qed.

Lemma addTask_frame task s :
  logFile (fst (addTask task s)) = logFile s
  /\ faults (sys (fst (addTask task s))) = faults (sys s).
Proof.
  unfold addTask, bind, modify. simpl.
  destruct (saveLog_frame (with_tasks (set (id task) task (tasks s)) s))
    as [H1 H2].
  destruct (saveLog _) as [s1 [[]|e|]]; simpl in *; split; assumption.
Qed.

Lemma find_append {A} (f : A -> bool) (l l' : list A) :
  List.find f (l ++ l')
  = match List.find f l with Some x => Some x | None => List.find f l' end.
Proof.
  induction l as [|a l IH]; simpl; [done|]. by destruct (f a).
Qed.

Lemma adding_lookup (added : list Task) (s : State) (k : string) :
  faults (sys s) !! logFile s = None ->
  snd (for_of added addTask s) = Return tt
  /\ getTask k (fst (for_of added addTask s))
     = match List.find (fun t => String.eqb (id t) k) (rev added) with
       | Some t => Some t
       | None => getTask k s
       end.
Proof.
  revert s. induction added as [|t ts IH]; intros s Hok; [done|].
  simpl for_of. unfold bind.
  pose proof (addTask_completion t s) as Hc. unfold log_written in Hc.
  rewrite Hok in Hc. pose proof (addTask_tasks t s) as Ht.
  destruct (addTask_frame t s) as [Hl Hf].
  destruct (addTask t s) as [s1 c]. simpl in *. subst c.
  assert (Hok1 : faults (sys s1) !! logFile s1 = None) by (by rewrite Hl, Hf).
  destruct (IH s1 Hok1) as [Hr Hg]. split; [done|]. rewrite Hg.
  rewrite find_append. destruct (List.find _ (rev ts)); [done|]. simpl.
  unfold getTask. rewrite Ht. destruct (String.eqb (id t) k) eqn:E.
  - apply String.eqb_eq in E. subst k. apply get_set_eq.
  - apply String.eqb_neq in E. by apply get_set_ne.
Qed.

(** X2: adding a list of tasks to an empty tracker whose log can be
    written returns normally and leaves a map in which every task sits
    under its own id, each key once; looking an id up gives the task added
    last under it, and nothing when no task with that id was added. *)
Theorem adding_tasks_last_wins (added : list Task) (s : State) (k : string) :
  tasks s = [] ->
  faults (sys s) !! logFile s = None ->
  snd (for_of added addTask s) = Return tt
  /\ well_keyed (tasks (fst (for_of added addTask s)))
  /\ getTask k (fst (for_of added addTask s))
     = List.find (fun t => String.eqb (id t) k) (rev added).
Proof.
  intros Hempty Hok. destruct (adding_lookup added s k Hok) as [Hr Hg].
  split; [done|]. split.
  - apply well_keyed_after_adding. rewrite Hempty. apply well_keyed_empty.
  - rewrite Hg. unfold getTask. rewrite Hempty.
    by destruct (List.find _ _).
Qed.

Lemma adding_tasks_last_wins_witness :
  priority <$> getTask "T1"
    (fst (for_of [Samples.task "T1" low Pending [];
                  Samples.task "T2" low Pending [];
                  Samples.task "T1" high Pending []] addTask
            {| tasks := []; logFile := "./task-log.json";
               sys := Samples.quiet |}))
  = Some high.
Proof.
  destruct (adding_tasks_last_wins
              [Samples.task "T1" low Pending [];
               Samples.task "T2" low Pending [];
               Samples.task "T1" high Pending []]
              {| tasks := []; logFile := "./task-log.json";
                 sys := Samples.quiet |} "T1" eq_refl eq_refl)
    as (_ & _ & H).
  rewrite H. reflexivity.
Defined.

(** X3: [addTask] under an id that is not stored yet puts the task last and
    leaves the tasks before it as they were; under an id that is stored it
    keeps the keys, their order and their number. *)
Theorem addTask_position (task : Task) (s : State) :
  match getTask (id task) s with
  | None => getAllTasks (fst (addTask task s)) = getAllTasks s ++ [task]
  | Some _ =>
      keys (tasks (fst (addTask task s))) = keys (tasks s)
      /\ length (getAllTasks (fst (addTask task s))) = length (getAllTasks s)
  end.
Proof.
  unfold getTask, getAllTasks. rewrite addTask_tasks.
  destruct (get (id task) (tasks s)) as [t0|] eqn:Hget.
  - assert (Hk : keys (set (id task) task (tasks s)) = keys (tasks s)).
    { apply set_present_keys. apply get_Some_In in Hget.
      apply (in_map fst) in Hget. exact Hget. }
    split; [done|]. unfold values. rewrite !length_map.
    apply (f_equal (@length _)) in Hk. unfold keys in Hk.
    by rewrite !length_map in Hk.
  - apply get_None_keys in Hget. rewrite (set_absent _ _ _ Hget).
    unfold values. by rewrite map_app.
Qed.

(** X4: [updateTask] never adds, removes or moves a task: whatever the id
    and the updates, the keys of the map are the same, in the same order. *)
Theorem updateTask_keeps_keys (i : string) (updates : Partial) (s : State) :
  keys (tasks (fst (updateTask i updates s))) = keys (tasks s).
Proof.
  destruct (getTask i s) as [task|] eqn:Hget.
  - rewrite (proj1 (updateTask_found i updates s task Hget)).
    apply set_present_keys. apply get_Some_In in Hget.
    apply (in_map fst) in Hget. exact Hget.
  - by rewrite (updateTask_missing i updates s Hget).
Qed.

Lemma Task_reloaded_without_times t :
  startTime t = None -> endTime t = None -> Task_reloaded t = Task_value t.
Proof. intros H1 H2. unfold Task_reloaded, Task_value. by rewrite H1, H2. Qed.

(** X5: as long as no stored task has a start or an end time, the log
    [addTask] writes is an exact mirror: the task list parsed back from it
    is the list in memory. *)
Theorem log_roundtrip_exact_without_times (task : Task) (s : State) :
  faults (sys s) !! logFile s = None ->
  Forall (fun t => startTime t = None /\ endTime t = None)
    (getAllTasks (fst (addTask task s))) ->
  (reload (fst (addTask task s)) ≫= property "tasks")
    = Some (memory_view (fst (addTask task s))).
Proof.
  intros Hok Hall. rewrite (addTask_reload task s Hok).
  change (Some (VArray (map Task_reloaded (getAllTasks (fst (addTask task s)))))
          = Some (memory_view (fst (addTask task s)))).
  unfold memory_view. f_equal. f_equal. apply map_ext_in.
  intros t Hin. rewrite List.Forall_forall in Hall.
  destruct (Hall t Hin). by apply Task_reloaded_without_times.
Qed.

Lemma log_roundtrip_exact_without_times_witness :
  (reload (fst (addTask (Samples.task "T3" high Pending ["T1"]) Samples.two_ready))
     ≫= property "tasks")
  = Some (memory_view
            (fst (addTask (Samples.task "T3" high Pending ["T1"]) Samples.two_ready))).
Proof.
  apply (log_roundtrip_exact_without_times
           (Samples.task "T3" high Pending ["T1"]) Samples.two_ready).
  - reflexivity.
  - repeat constructor.
Defined.

(** X6: when the log file cannot be written, [addTask] and an [updateTask]
    that finds its task throw the error of the disk after the change in
    memory: the task map has the new task or the updated fields.  The file
    holds what it held before when the failure is at the opening of the
    file, and what was written until the failure when it comes later. *)
Theorem failed_save_keeps_file_and_change
    (task : Task) (i : string) (updates : Partial) (s : State) (fault : Fault) :
  faults (sys s) !! logFile s = Some fault ->
  snd (addTask task s) = Throw (Error (f_message fault))
  /\ getTask (id task) (fst (addTask task s)) = Some task
  /\ files (sys (fst (addTask task s)))
     = match f_leaves fault with
       | Some text => <[logFile s := text]> (files (sys s))
       | None => files (sys s)
       end
  /\ (forall found, getTask i s = Some found ->
        snd (updateTask i updates s) = Throw (Error (f_message fault))
        /\ getTask i (fst (updateTask i updates s))
           = Some (assign found updates)
        /\ files (sys (fst (updateTask i updates s)))
           = match f_leaves fault with
             | Some text => <[logFile s := text]> (files (sys s))
             | None => files (sys s)
             end).
Proof.
  intros Hfault.
  split; [|split; [|split]].
  - rewrite addTask_completion. unfold log_written. by rewrite Hfault.
  - unfold getTask. rewrite addTask_tasks. apply get_set_eq.
  - by rewrite addTask_files, Hfault.
  - intros found Hget. split; [|split].
    + rewrite (proj2 (updateTask_found i updates s found Hget)).
      unfold log_written. by rewrite Hfault.
    + unfold getTask.
      rewrite (proj1 (updateTask_found i updates s found Hget)).
      apply get_set_eq.
    + unfold updateTask, bind, gets, modify. rewrite Hget.
      rewrite saveLog_files.
      change (faults (sys (with_tasks (set i (assign found updates) (tasks s)) s))
                !! logFile (with_tasks (set i (assign found updates) (tasks s)) s))
        with (faults (sys s) !! logFile s).
      by rewrite Hfault.
Qed.

Lemma failed_save_keeps_file_and_change_witness :
  snd (addTask (Samples.task "T3" high Pending []) Samples.read_only)
    = Throw (Error "EACCES: permission denied")
  /\ reload (fst (addTask (Samples.task "T3" high Pending []) Samples.read_only))
     = Some VNull
  /\ is_Some (getTask "T3"
       (fst (addTask (Samples.task "T3" high Pending []) Samples.read_only)))
  /\ snd (updateTask "T1" Samples.restart Samples.disk_full)
     = Throw (Error "ENOSPC: no space left on device")
  /\ reload (fst (updateTask "T1" Samples.restart Samples.disk_full)) = None
  /\ status <$> getTask "T1"
                  (fst (updateTask "T1" Samples.restart Samples.disk_full))
     = Some InProgress.
Proof.
  destruct (failed_save_keeps_file_and_change
              (Samples.task "T3" high Pending []) "T1" Samples.restart
              Samples.read_only _ eq_refl)
    as (H1 & H2 & H3 & _).
  destruct (failed_save_keeps_file_and_change
              (Samples.task "T3" high Pending []) "T1" Samples.restart
              Samples.disk_full _ eq_refl)
    as (_ & _ & _ & H4).
  destruct (H4 (Samples.task "T1" low Pending []) eq_refl) as (H5 & H6 & H7).
  split; [exact H1|]. split; [|split; [|split; [|split]]].
  - unfold reload, read_json. rewrite H3. reflexivity.
  - eexists. exact H2.
  - exact H5.
  - unfold reload, read_json. rewrite H7. reflexivity.
  - by rewrite H6.
Defined.

Lemma count_two_statuses (a b : Status) (ts : list Task) :
  a <> b -> count_status a ts + count_status b ts <= Z.of_nat (length ts).
Proof.
  intros Hab. unfold count_status. rewrite <- Nat2Z.inj_add. apply inj_le.
  induction ts as [|t ts IH]; simpl; [lia|].
  repeat case_bool_decide; simpl; try lia. congruence.
Qed.

Lemma percentage_near_bounds (c t pct : Z) :
  0 <= c <= t -> 0 < t -> percentage_near c t pct = true -> 0 <= pct <= 100.
Proof.
  intros Hc Ht H. unfold percentage_near, round_half_up, halfway in H.
  assert (Hup : (2 * (100 * c) + t) / (2 * t) < 101).
  { apply Z.div_lt_upper_bound; lia. }
  assert (Hlo : 0 <= (2 * (100 * c) + t) / (2 * t)).
  { apply Z.div_pos; lia. }
  apply orb_prop in H as [H|H].
  - apply Z.eqb_eq in H. lia.
  - apply andb_prop in H as [Hh H]. apply Z.eqb_eq in H, Hh.
    assert (1 <= (2 * (100 * c) + t) / (2 * t)).
    { apply Z.div_le_lower_bound; [lia|].
      pose proof (Z.mod_le (200 * c) (2 * t)). lia. }
    lia.
Qed.

(** X7: the figures of [getProgress] are consistent: [completed] and
    [failed] are not negative and together not more than [total], and, for
    as many tasks as an array can hold, fewer than [2 ^ 32], [percentage]
    lies between 0 and 100. *)
Theorem getProgress_bounds (s : State) :
  0 <= completed (getProgress s)
  /\ 0 <= failed (getProgress s)
  /\ completed (getProgress s) + failed (getProgress s) <= total (getProgress s)
  /\ (Z.of_nat (length (getAllTasks s)) < 2 ^ 32 ->
      0 <= percentage (getProgress s) <= 100).
Proof.
  unfold getProgress. cbn [total completed failed percentage].
  pose proof (count_status_le Completed (getAllTasks s)) as Hc.
  pose proof (count_status_le Failed (getAllTasks s)) as Hf.
  split; [lia|]. split; [lia|].
  split; [by apply count_two_statuses|].
  intros Hlen.
  destruct (Z.of_nat (length (getAllTasks s)) >? 0) eqn:E; [|lia].
  apply Z.gtb_lt in E.
  apply (percentage_near_bounds (count_status Completed (getAllTasks s))
           (Z.of_nat (length (getAllTasks s)))); [done..|].
  apply percentage_of_doubles; [done | lia].
Qed.

Lemma getProgress_bounds_witness :
  0 <= percentage (getProgress Samples.two_hundred) <= 100.
Proof.
  destruct (getProgress_bounds Samples.two_hundred) as (_ & _ & _ & H).
  apply H. vm_compute. reflexivity.
Defined.

End TaskManagerMore.

(** ** The coordinator, continued *)

Section OrchestratorMore.
Import TaskManager Orchestrator.

(** X8: the development pass calls [executeTask] only on developer tasks
    that were ready when the pass began: a task that becomes ready during
    the pass is not picked up by it.  The testing pass calls it only on
    tester tasks that were stored when it began. *)
Theorem passes_run_only_their_tasks (s : Orchestrator.State) :
  dispatched s = [] ->
  Forall (fun d => In (d_task d) (getReadyTasks (taskManager s))
                   /\ assignedTo (d_task d) = developer)
    (dispatched (fst (executeDevelopmentTasks s)))
  /\ Forall (fun d => In (d_task d) (getAllTasks (taskManager s))
                      /\ assignedTo (d_task d) = tester)
       (dispatched (fst (executeTestingTasks s))).
Proof.
  intros Hnil. split.
  - unfold executeDevelopmentTasks. unfold bind at 1, gets. simpl.
    set (ready := List.filter _ _).
    set (P := fun d => In (d_task d) (getReadyTasks (taskManager s))
                       /\ assignedTo (d_task d) = developer).
    apply (for_of_invariant
             (fun l s1 => Forall P (dispatched s1) /\ incl l ready)
             (fun s1 => Forall P (dispatched s1))).
    + tauto.
    + intros x xs s1 [HP Hincl].
      destruct (executeTask_effect x devSession s1) as [Hd _].
      assert (HP' : Forall P (dispatched (fst (executeTask x devSession s1)))).
      { rewrite Hd. apply Forall_app. split; [done|]. apply Forall_singleton.
        assert (Hx : In x ready) by (apply Hincl; by left).
        apply filter_In in Hx as [Hx Ha]. split; [done|].
        by apply bool_decide_eq_true in Ha. }
      destruct (executeTask x devSession s1) as [s2 [[]|e|]]; simpl in *;
        [|done..].
      split; [done|]. intros t Ht. apply Hincl. by right.
    + split; [rewrite Hnil; by apply Forall_nil | apply incl_refl].
  - unfold executeTestingTasks. unfold bind at 1, gets. simpl.
    set (testTasks := List.filter _ _).
    set (P := fun d => In (d_task d) (getAllTasks (taskManager s))
                       /\ assignedTo (d_task d) = tester).
    apply (for_of_invariant
             (fun l s1 => Forall P (dispatched s1) /\ incl l testTasks)
             (fun s1 => Forall P (dispatched s1))).
    + tauto.
    + intros x xs s1 [HP Hincl]. unfold bind, gets. simpl.
      destruct (List.find _ _) as [found|].
      * destruct (executeTask_effect x testSession s1) as [Hd _].
        assert (HP' : Forall P (dispatched (fst (executeTask x testSession s1)))).
        { rewrite Hd. apply Forall_app. split; [done|]. apply Forall_singleton.
          assert (Hx : In x testTasks) by (apply Hincl; by left).
          apply filter_In in Hx as [Hx Ha]. split; [done|].
          by apply bool_decide_eq_true in Ha. }
        destruct (executeTask x testSession s1) as [s2 [[]|e|]]; simpl in *;
          [|done..].
        split; [done|]. intros t Ht. apply Hincl. by right.
      * simpl. split; [done|]. intros t Ht. apply Hincl. by right.
    + split; [rewrite Hnil; by apply Forall_nil | apply incl_refl].
Qed.

Lemma passes_run_only_their_tasks_witness :
  Forall (fun d => In (d_task d) (getReadyTasks (taskManager Samples.project))
                   /\ assignedTo (d_task d) = developer)
    (dispatched (fst (executeDevelopmentTasks Samples.project))).
Proof.
  exact (proj1 (passes_run_only_their_tasks Samples.project eq_refl)).
Defined.

(** *** What execution leaves of the plan *)

Lemma same_plan_refl (m : Map Task) : same_plan m m.
Proof. split; [done|]. intros k t Ht. exists t. by repeat split. Qed.

Lemma same_plan_trans (a b c : Map Task) :
  same_plan a b -> same_plan b c -> same_plan a c.
Proof.
  intros [Hk1 H1] [Hk2 H2]. split; [congruence|]. intros k t Ht.
  destruct (H1 k t Ht) as (t1 & Ht1 & ? & ? & ? & ? & ?).
  destruct (H2 k t1 Ht1) as (t2 & Ht2 & ? & ? & ? & ? & ?).
  exists t2. repeat split; congruence.
Qed.

Lemma updateTask_same_plan i updates (s : TaskManager.State) :
  u_id updates = None -> u_description updates = None ->
  u_priority updates = None -> u_assignedTo updates = None ->
  u_dependencies updates = None ->
  same_plan (tasks s) (tasks (fst (updateTask i updates s))).
Proof.
  intros H1 H2 H3 H4 H5. destruct (getTask i s) as [task|] eqn:Hget.
  - rewrite (proj1 (updateTask_found i updates s task Hget)). split.
    + apply set_present_keys. apply get_Some_In in Hget.
      apply (in_map fst) in Hget. exact Hget.
    + intros k t Ht. destruct (decide (i = k)) as [<-|Hne].
      * exists (assign task updates). rewrite get_set_eq.
        unfold getTask in Hget. rewrite Hget in Ht. injection Ht as <-.
        unfold assign. simpl. rewrite H1, H2, H3, H4, H5. by repeat split.
      * exists t. rewrite get_set_ne by done. by repeat split.
  - rewrite (updateTask_missing i updates s Hget). apply same_plan_refl.
Qed.

#[local] Instance plan_kept_refl : Reflexive plan_kept.
Proof. intros s. apply same_plan_refl. Qed.

#[local] Instance plan_kept_trans : Transitive plan_kept.
Proof. intros a b c. apply same_plan_trans. Qed.

Lemma executeTask_plan_kept task session :
  preserves plan_kept (executeTask task session).
Proof.
  unfold executeTask.
  apply preserves_bind; [apply _ | |]. { intros s. apply same_plan_refl. }
  intros _. apply preserves_bind; [apply _ | |].
  { intros s. unfold on_taskManager, new_Date. simpl. apply same_plan_refl. }
  intros start. apply preserves_bind; [apply _ | |].
  { intros s. unfold on_taskManager.
    pose proof (updateTask_same_plan (id task)
      {| u_id := None; u_description := None; u_priority := None;
         u_assignedTo := None; u_status := Some InProgress;
         u_dependencies := None; u_result := None;
         u_startTime := Some (Some start); u_endTime := None |}
      (taskManager s) eq_refl eq_refl eq_refl eq_refl eq_refl) as H.
    by destruct (updateTask _ _ _). }
  intros _. apply preserves_bind; [apply _ | |].
  { intros s. unfold send. destruct (send_error _); destruct session;
      apply same_plan_refl. }
  intros evs. apply preserves_bind; [apply _ | |].
  { intros s. apply same_plan_refl. }
  intros result. apply preserves_bind; [apply _ | |].
  { intros s. unfold on_taskManager, new_Date. simpl. apply same_plan_refl. }
  intros finish s. unfold on_taskManager.
  pose proof (updateTask_same_plan (id task)
    {| u_id := None; u_description := None; u_priority := None;
       u_assignedTo := None; u_status := Some Completed;
       u_dependencies := None; u_result := Some (Some result);
       u_startTime := None; u_endTime := Some (Some finish) |}
    (taskManager s) eq_refl eq_refl eq_refl eq_refl eq_refl) as H.
  by destruct (updateTask _ _ _).
Qed.

(** X9: the two passes change no plan: however they end, the task map has
    the same keys in the same order, and every task has the id, the
    description, the priority, the assignee and the dependencies it had;
    only status, result and times can differ. *)
Theorem execution_keeps_the_plan (s : Orchestrator.State) :
  same_plan (tasks (taskManager s))
    (tasks (taskManager (fst (executeDevelopmentTasks s))))
  /\ same_plan (tasks (taskManager s))
       (tasks (taskManager (fst (executeTestingTasks s))))
  /\ same_plan (tasks (taskManager s))
       (tasks (taskManager (fst (executeAllTasks s)))).
Proof.
  assert (Hdev : preserves plan_kept executeDevelopmentTasks).
  { unfold executeDevelopmentTasks. apply preserves_bind; [apply _ | |].
    { intros s1. apply same_plan_refl. }
    intros ready. apply preserves_for_of; [apply _ | apply _ |].
    intros task. apply executeTask_plan_kept. }
  assert (Htest : preserves plan_kept executeTestingTasks).
  { unfold executeTestingTasks. apply preserves_bind; [apply _ | |].
    { intros s1. apply same_plan_refl. }
    intros testTasks. apply preserves_for_of; [apply _ | apply _ |].
    intros task. apply preserves_bind; [apply _ | |].
    { intros s1. apply same_plan_refl. }
    intros ready. destruct (List.find _ _).
    - apply executeTask_plan_kept.
    - apply preserves_ret. apply _. }
  split; [apply Hdev|]. split; [apply Htest|].
  unfold executeAllTasks.
  apply (preserves_bind plan_kept); [exact Hdev | intros _; exact Htest].
Qed.

(** *** Tasks that cannot become ready *)

Lemma dead_dependency_not_ready (s : TaskManager.State) t d :
  get (id t) (tasks s) = Some t ->
  In d (dependencies t) ->
  dead_dependency (tasks s) t d ->
  is_ready s t = false.
Proof.
  intros Hget Hd Hdead. destruct (is_ready s t) eqn:E; [|done]. exfalso.
  apply is_ready_spec in E as [Hp Hdeps].
  destruct (Hdeps d Hd) as (dep & Hdep & Hc).
  destruct Hdead as [->|[Hnone|(u & Hu & _ & Hnc)]]; congruence.
Qed.

Lemma dead_dependency_stays i (m m' : Map Task) x t d :
  changes_only i m m' -> get i m = Some x -> status x = Pending ->
  dead_dependency m t d -> dead_dependency m' t d.
Proof.
  intros Hc Hx Hp [->|[Hnone|(u & Hu & Hnp & Hnc)]].
  - by left.
  - right. left. apply get_None_keys. destruct Hc as (Hk & _).
    rewrite Hk. by apply get_None_keys.
  - right. right. exists u. split; [|done].
    by apply (changes_only_elsewhere i m m' x).
Qed.

(** What holds, along a pass, of a task [t0] with a dead dependency. *)
Lemma executeTask_passes_blocked task session s (rest : list Task) t0 d :
  well_keyed (tasks (taskManager s)) ->
  get (id task) (tasks (taskManager s)) = Some task ->
  is_ready (taskManager s) task = true ->
  NoDup (map id (task :: rest)) ->
  (forall t, In t rest -> get (id t) (tasks (taskManager s)) = Some t) ->
  get (id t0) (tasks (taskManager s)) = Some t0 ->
  In d (dependencies t0) ->
  dead_dependency (tasks (taskManager s)) t0 d ->
  let s' := fst (executeTask task session s) in
  well_keyed (tasks (taskManager s'))
  /\ (forall t, In t rest -> get (id t) (tasks (taskManager s')) = Some t)
  /\ (forall t, In t rest -> is_ready (taskManager s) t = true ->
        is_ready (taskManager s') t = true)
  /\ get (id t0) (tasks (taskManager s')) = Some t0
  /\ dead_dependency (tasks (taskManager s')) t0 d.
Proof.
  intros Hwk Hget Hready Hnd Hrest Ht0 Hd Hdead s'.
  destruct (executeTask_effect task session s) as [_ Hc]. fold s' in Hc.
  pose proof (dead_dependency_not_ready _ _ _ Ht0 Hd Hdead) as Hnot.
  apply is_ready_spec in Hready as [Hpend Hdeps].
  assert (Hne : id t0 <> id task).
  { intros Heq. rewrite Heq, Hget in Ht0. injection Ht0 as ->.
    assert (is_ready (taskManager s) t0 = true) by (by apply is_ready_spec).
    congruence. }
  split; [by apply (changes_only_well_keyed (id task) (tasks (taskManager s)))|].
  split.
  { intros t Hin. destruct Hc as (_ & Hf & _). rewrite Hf; [by apply Hrest|].
    simpl in Hnd. apply NoDup_cons in Hnd as [Hnotin _]. intros Heq.
    apply Hnotin. rewrite <- Heq. apply list_elem_of_In. by apply in_map. }
  split.
  { intros t Hin Hr. apply is_ready_spec in Hr as [Hp Hdp].
    apply is_ready_spec. split; [done|].
    by apply (deps_completed_stay (id task) (tasks (taskManager s)) _ task). }
  split.
  { destruct Hc as (_ & Hf & _). by rewrite Hf. }
  by apply (dead_dependency_stays (id task) (tasks (taskManager s)) _ task).
Qed.

Lemma executeDevelopmentTasks_passes_blocked s t0 d :
  well_keyed (tasks (taskManager s)) ->
  get (id t0) (tasks (taskManager s)) = Some t0 ->
  In d (dependencies t0) ->
  dead_dependency (tasks (taskManager s)) t0 d ->
  let s' := fst (executeDevelopmentTasks s) in
  well_keyed (tasks (taskManager s'))
  /\ get (id t0) (tasks (taskManager s')) = Some t0
  /\ dead_dependency (tasks (taskManager s')) t0 d.
Proof.
  intros Hwk Ht0 Hd Hdead. unfold executeDevelopmentTasks.
  unfold bind at 1, gets. simpl. set (ready := List.filter _ _).
  apply (for_of_invariant
    (fun l s1 =>
       (well_keyed (tasks (taskManager s1))
        /\ get (id t0) (tasks (taskManager s1)) = Some t0
        /\ dead_dependency (tasks (taskManager s1)) t0 d)
       /\ NoDup (map id l)
       /\ forall t, In t l ->
            get (id t) (tasks (taskManager s1)) = Some t
            /\ is_ready (taskManager s1) t = true)
    (fun s1 =>
       well_keyed (tasks (taskManager s1))
       /\ get (id t0) (tasks (taskManager s1)) = Some t0
       /\ dead_dependency (tasks (taskManager s1)) t0 d)).
  - tauto.
  - intros x xs s1 ((Hw & Hg0 & Hdd) & Hnd & Hall).
    destruct (Hall x (or_introl eq_refl)) as [Hgx Hrx].
    pose proof (executeTask_passes_blocked x devSession s1 xs t0 d Hw Hgx Hrx
                  Hnd (fun t Hin => proj1 (Hall t (or_intror Hin))) Hg0 Hd Hdd)
      as (Hw' & Hget' & Hready' & Hg0' & Hdd').
    destruct (executeTask x devSession s1) as [s2 [[]|e|]]; simpl in *;
      [|done..].
    split; [done|]. split; [by apply NoDup_cons in Hnd as [_ ?]|].
    intros t Hin. split; [by apply Hget'|].
    apply Hready'; [done|]. by apply Hall; right.
  - split; [done|]. subst ready. split.
    + apply NoDup_map_filter. unfold getReadyTasks.
      apply NoDup_map_filter. by apply well_keyed_ids.
    + intros t Hin. apply filter_In in Hin as [Hin _].
      unfold getReadyTasks in Hin. apply filter_In in Hin as [Hin Hr].
      split; [by apply well_keyed_value | done].
Qed.

Lemma executeTestingTasks_passes_blocked s t0 d :
  well_keyed (tasks (taskManager s)) ->
  get (id t0) (tasks (taskManager s)) = Some t0 ->
  In d (dependencies t0) ->
  dead_dependency (tasks (taskManager s)) t0 d ->
  let s' := fst (executeTestingTasks s) in
  well_keyed (tasks (taskManager s'))
  /\ get (id t0) (tasks (taskManager s')) = Some t0
  /\ dead_dependency (tasks (taskManager s')) t0 d.
Proof.
  intros Hwk Ht0 Hd Hdead. unfold executeTestingTasks.
  unfold bind at 1, gets. simpl. set (testTasks := List.filter _ _).
  apply (for_of_invariant
    (fun l s1 =>
       (well_keyed (tasks (taskManager s1))
        /\ get (id t0) (tasks (taskManager s1)) = Some t0
        /\ dead_dependency (tasks (taskManager s1)) t0 d)
       /\ NoDup (map id l)
       /\ forall t, In t l -> get (id t) (tasks (taskManager s1)) = Some t)
    (fun s1 =>
       well_keyed (tasks (taskManager s1))
       /\ get (id t0) (tasks (taskManager s1)) = Some t0
       /\ dead_dependency (tasks (taskManager s1)) t0 d)).
  - tauto.
  - intros x xs s1 ((Hw & Hg0 & Hdd) & Hnd & Hall). unfold bind, gets. simpl.
    destruct (List.find _ _) as [t'|] eqn:Hfind.
    + apply find_some in Hfind as [Hin Heq]. apply String.eqb_eq in Heq.
      unfold getReadyTasks in Hin. apply filter_In in Hin as [Hin Hr].
      pose proof (well_keyed_value _ _ Hw Hin) as Hg.
      rewrite Heq, (Hall x (or_introl eq_refl)) in Hg. injection Hg as ->.
      pose proof (executeTask_passes_blocked t' testSession s1 xs t0 d Hw
                    (Hall t' (or_introl eq_refl)) Hr Hnd
                    (fun t Hin => Hall t (or_intror Hin)) Hg0 Hd Hdd)
        as (Hw' & Hget' & _ & Hg0' & Hdd').
      destruct (executeTask t' testSession s1) as [s2 [[]|e|]]; simpl in *;
        [|done..].
      split; [done|]. split; [by apply NoDup_cons in Hnd as [_ ?]|done].
    + simpl. split; [done|]. split; [by apply NoDup_cons in Hnd as [_ ?]|].
      intros t Hin. apply Hall. by right.
  - split; [done|]. subst testTasks. split.
    + apply NoDup_map_filter. by apply well_keyed_ids.
    + intros t Hin. apply filter_In in Hin as [Hin _].
      by apply well_keyed_value.
Qed.

(** X10: a stored task with a dependency that can never be completed - its
    own id, an id that is not stored, or a task that is failed, in progress
    or in testing - is left exactly as it is by the development pass, by the
    testing pass and by the two in a row: it is never run. *)
Theorem blocked_task_is_left_alone
    (s : Orchestrator.State) (t0 : Task) (d : string) :
  well_keyed (tasks (taskManager s)) ->
  get (id t0) (tasks (taskManager s)) = Some t0 ->
  In d (dependencies t0) ->
  dead_dependency (tasks (taskManager s)) t0 d ->
  get (id t0) (tasks (taskManager (fst (executeDevelopmentTasks s)))) = Some t0
  /\ get (id t0) (tasks (taskManager (fst (executeTestingTasks s)))) = Some t0
  /\ get (id t0) (tasks (taskManager (fst (executeAllTasks s)))) = Some t0.
Proof.
  intros Hwk Ht0 Hd Hdead.
  pose proof (executeDevelopmentTasks_passes_blocked s t0 d Hwk Ht0 Hd Hdead)
    as (Hw1 & Hg1 & Hd1).
  split; [exact Hg1|].
  split; [apply (executeTestingTasks_passes_blocked s t0 d Hwk Ht0 Hd Hdead)|].
  unfold executeAllTasks, bind.
  destruct (executeDevelopmentTasks s) as [s1 [[]|e|]]; simpl in *;
    [|done..].
  apply (executeTestingTasks_passes_blocked s1 t0 d Hw1 Hg1 Hd Hd1).
Qed.

Lemma blocked_task_is_left_alone_witness :
  get "T6" (tasks (taskManager (fst (executeAllTasks Samples.project_with_orphan))))
    = Some (Samples.task "T6" high Pending ["T0"]).
Proof.
  apply (blocked_task_is_left_alone Samples.project_with_orphan
           (Samples.task "T6" high Pending ["T0"]) "T0").
  - split; [repeat constructor | compute_done].
  - reflexivity.
  - left. reflexivity.
  - right. left. reflexivity.
Defined.

(** *** One call of [executeTask] *)

Lemma bind_return {S A B} (c : M S A) (k : A -> M S B) s s' a :
  c s = (s', Return a) -> bind c k s = k a s'.
Proof. intros H. unfold bind. by rewrite H. Qed.

Lemma bind_throw {S A B} (c : M S A) (k : A -> M S B) s s' e :
  c s = (s', Throw e) -> bind c k s = (s', Throw e).
Proof. intros H. unfold bind. by rewrite H. Qed.

Lemma bind_never {S A B} (c : M S A) (k : A -> M S B) s s' :
  c s = (s', Never) -> bind c k s = (s', Never).
Proof. intros H. unfold bind. by rewrite H. Qed.

Lemma bind_assoc {S A B C} (c : M S A) (k : A -> M S B) (k' : B -> M S C) s :
  bind (bind c k) k' s = bind c (fun a => bind (k a) k') s.
Proof. unfold bind. destruct (c s) as [s' [a|e|]]; reflexivity. Qed.

Lemma on_taskManager_run {A} (c : M TaskManager.State A) s :
  on_taskManager c s
  = (with_taskManager (fst (c (taskManager s))) s, snd (c (taskManager s))).
Proof. unfold on_taskManager. by destruct (c (taskManager s)). Qed.

Lemma updateTask_writable i updates (tm : TaskManager.State) t :
  getTask i tm = Some t ->
  faults (sys tm) !! logFile tm = None ->
  snd (updateTask i updates tm) = Return tt
  /\ tasks (fst (updateTask i updates tm)) = set i (assign t updates) (tasks tm)
  /\ logFile (fst (updateTask i updates tm)) = logFile tm
  /\ faults (sys (fst (updateTask i updates tm))) = faults (sys tm)
  /\ time_of (sys (fst (updateTask i updates tm))) = time_of (sys tm)
  /\ reads (sys (fst (updateTask i updates tm))) = S (reads (sys tm)).
Proof.
  intros Hget Hok. unfold getTask in Hget.
  unfold updateTask, bind, gets, getTask. simpl. rewrite Hget.
  unfold modify, saveLog, bind, new_Date, gets, writeFile, write_file. simpl.
  rewrite Hok. simpl. by repeat split.
Qed.

Lemma new_Date_run s :
  on_taskManager new_Date s
  = (with_taskManager
       (with_sys (fst (read_clock (sys (taskManager s)))) (taskManager s)) s,
     Return (clock_ahead 0 (taskManager s))).
Proof.
  unfold on_taskManager, new_Date, clock_ahead. simpl.
  by rewrite Nat.add_0_r.
Qed.

Lemma update_run i updates s t :
  getTask i (taskManager s) = Some t ->
  faults (sys (taskManager s)) !! logFile (taskManager s) = None ->
  on_taskManager (updateTask i updates) s
  = (with_taskManager (fst (updateTask i updates (taskManager s))) s,
     Return tt).
Proof.
  intros Hget Hok. rewrite on_taskManager_run.
  by rewrite (proj1 (updateTask_writable i updates _ t Hget Hok)).
Qed.

Lemma listen_never_throws result evs e : listen result evs <> Throw e.
Proof.
  revert result. induction evs as [|ev evs IH]; intros result; [done|].
  destruct ev; simpl; try done; apply IH.
Qed.

Lemma send_run session s reply more :
  session_of session s = reply :: more ->
  send session s
  = (with_session session more s,
     match send_error reply with
     | Some e => Throw e
     | None => Return (events reply)
     end).
Proof.
  intros H. unfold send. rewrite H. simpl. by destruct (send_error reply).
Qed.

(** X11: one call of [executeTask] on a stored task, with a log that can be
    written.  The task is first set in progress with the time of the call.
    When [session.send] rejects, the error is thrown and the task stays in
    progress; when the session never becomes idle, the call never returns
    and the task stays in progress; when the session becomes idle, the task
    is completed with the content of the last message as its result and the
    end time read two clock readings after the start. *)
Theorem executeTask_outcomes
    (task : Task) (session : SessionRef) (s : Orchestrator.State)
    (reply : Reply) (more : Session) :
  getTask (id task) (taskManager s) = Some task ->
  faults (sys (taskManager s)) !! logFile (taskManager s) = None ->
  session_of session s = reply :: more ->
  let running := assign task (started_at (clock_ahead 0 (taskManager s))) in
  let after := taskManager (fst (executeTask task session s)) in
  match send_error reply, listen "" (events reply) with
  | Some e, _ =>
      snd (executeTask task session s) = Throw e
      /\ getTask (id task) after = Some running
  | None, Return text =>
      snd (executeTask task session s) = Return tt
      /\ getTask (id task) after
         = Some (assign running
                   (finished_at (clock_ahead 2 (taskManager s)) text))
  | None, _ =>
      snd (executeTask task session s) = Never
      /\ getTask (id task) after = Some running
  end.
Proof.
  intros Hget Hok Hsess running after. subst after.
  unfold executeTask.
  set (s0 := {| taskManager := taskManager s; supervisor := supervisor s;
                dev := dev s; test := test s;
                dispatched := dispatched s ++
                  [{| d_task := task; d_tasks := tasks (taskManager s) |}] |}).
  rewrite (bind_return (note_dispatch task) _ s s0 tt eq_refl).
  rewrite (bind_return _ _ _ _ _ (new_Date_run s0)).
  set (s1 := with_taskManager _ s0).
  assert (Hget1 : getTask (id task) (taskManager s1) = Some task) by exact Hget.
  assert (Hok1 : faults (sys (taskManager s1)) !! logFile (taskManager s1) = None)
    by exact Hok.
  rewrite (bind_return _ _ _ _ _
             (update_run (id task) _ s1 task Hget1 Hok1)).
  set (tm2 := fst (updateTask _ _ (taskManager s1))).
  assert (H2 : tasks tm2 = set (id task) running (tasks (taskManager s))
               /\ logFile tm2 = logFile (taskManager s)
               /\ faults (sys tm2) = faults (sys (taskManager s))
               /\ time_of (sys tm2) = time_of (sys (taskManager s))
               /\ reads (sys tm2) = S (S (reads (sys (taskManager s))))).
  { destruct (updateTask_writable (id task)
                (started_at (clock_ahead 0 (taskManager s)))
                (taskManager s1) task Hget1 Hok1)
      as (_ & Ht & Hl & Hf & Hc & Hr).
    split; [exact Ht|]. split; [exact Hl|]. split; [exact Hf|].
    split; [exact Hc | exact Hr]. }
  destruct H2 as (Ht2 & Hl2 & Hf2 & Hc2 & Hr2).
  set (s2 := with_taskManager tm2 s1).
  assert (Hsess2 : session_of session s2 = reply :: more).
  { rewrite <- Hsess. by destruct session. }
  assert (Hrun2 : getTask (id task) tm2 = Some running).
  { unfold getTask. rewrite Ht2. apply get_set_eq. }
  assert (Htm : forall x, taskManager (with_session session x s2) = tm2)
    by (intros x; by destruct session).
  pose proof (send_run session s2 reply more Hsess2) as Hsend.
  destruct (send_error reply) as [e|].
  { rewrite (bind_throw _ _ _ _ _ Hsend). cbn [fst snd].
    split; [done|]. by rewrite Htm. }
  rewrite (bind_return _ _ _ _ _ Hsend).
  set (s3 := with_session session more s2).
  pose proof (listen_never_throws "" (events reply)) as Hnt.
  destruct (listen "" (events reply)) as [text|e|] eqn:Hlisten.
  - rewrite (bind_return (await (Return text)) _ s3 s3 text eq_refl).
    rewrite (bind_return _ _ _ _ _ (new_Date_run s3)).
    set (s4 := with_taskManager _ s3).
    assert (Hget4 : getTask (id task) (taskManager s4) = Some running).
    { unfold s4, s3. simpl. by rewrite Htm. }
    assert (Hok4 : faults (sys (taskManager s4)) !! logFile (taskManager s4)
                   = None).
    { unfold s4, s3. simpl. rewrite Htm. by rewrite Hl2, Hf2. }
    rewrite (update_run (id task) _ s4 running Hget4 Hok4). simpl.
    split; [done|].
    destruct (updateTask_writable (id task)
                (finished_at (clock_ahead 0 (taskManager s3)) text)
                (taskManager s4) running Hget4 Hok4) as (_ & Ht & _).
    unfold getTask.
    replace (clock_ahead 2 (taskManager s)) with (clock_ahead 0 (taskManager s3)).
    + etrans; [|apply (get_set_eq (id task) _ (tasks (taskManager s4)))].
      f_equal. exact Ht.
    + unfold clock_ahead, s3. rewrite Htm, Hc2, Hr2. f_equal. lia.
  - by destruct (Hnt e).
  - rewrite (bind_never (await Never) _ s3 s3 eq_refl). cbn [fst snd].
    split; [done|]. unfold s3. by rewrite Htm.
Qed.

Lemma executeTask_outcomes_witness :
  snd (executeTask (Samples.task "T1" high Pending []) devSession Samples.project)
    = Return tt
  /\ status <$> getTask "T1"
       (taskManager (fst (executeTask (Samples.task "T1" high Pending [])
                            devSession Samples.project)))
     = Some Completed.
Proof.
  pose proof (executeTask_outcomes (Samples.task "T1" high Pending [])
                devSession Samples.project (Samples.answer "a")
                [Samples.answer "b"; Samples.answer "c"]
                eq_refl eq_refl eq_refl) as [H1 H2].
  split; [exact H1 | exact (f_equal (fmap status) H2)].
Defined.

(** The whole effect of a call that returns. *)
Lemma executeTask_ok task session s reply more text :
  getTask (id task) (taskManager s) = Some task ->
  faults (sys (taskManager s)) !! logFile (taskManager s) = None ->
  session_of session s = reply :: more ->
  send_error reply = None ->
  listen "" (events reply) = Return text ->
  exists s',
    executeTask task session s = (s', Return tt)
    /\ tasks (taskManager s')
       = set (id task)
           (assign (assign task (started_at (clock_ahead 0 (taskManager s))))
              (finished_at (clock_ahead 2 (taskManager s)) text))
           (tasks (taskManager s))
    /\ logFile (taskManager s') = logFile (taskManager s)
    /\ faults (sys (taskManager s')) = faults (sys (taskManager s))
    /\ time_of (sys (taskManager s')) = time_of (sys (taskManager s))
    /\ reads (sys (taskManager s')) = (reads (sys (taskManager s)) + 4)%nat
    /\ session_of session s' = more
    /\ (forall r, r <> session -> session_of r s' = session_of r s)
    /\ dispatched s' = dispatched s ++
         [{| d_task := task; d_tasks := tasks (taskManager s) |}].
Proof.
  intros Hget Hok Hsess Hsend Hlisten.
  set (running := assign task (started_at (clock_ahead 0 (taskManager s)))).
  unfold executeTask.
  set (s0 := {| taskManager := taskManager s; supervisor := supervisor s;
                dev := dev s; test := test s;
                dispatched := dispatched s ++
                  [{| d_task := task; d_tasks := tasks (taskManager s) |}] |}).
  rewrite (bind_return (note_dispatch task) _ s s0 tt eq_refl).
  rewrite (bind_return _ _ _ _ _ (new_Date_run s0)).
  set (s1 := with_taskManager _ s0).
  assert (Hget1 : getTask (id task) (taskManager s1) = Some task) by exact Hget.
  assert (Hok1 : faults (sys (taskManager s1)) !! logFile (taskManager s1) = None)
    by exact Hok.
  rewrite (bind_return _ _ _ _ _
             (update_run (id task) _ s1 task Hget1 Hok1)).
  set (tm2 := fst (updateTask _ _ (taskManager s1))).
  assert (H2 : tasks tm2 = set (id task) running (tasks (taskManager s))
               /\ logFile tm2 = logFile (taskManager s)
               /\ faults (sys tm2) = faults (sys (taskManager s))
               /\ time_of (sys tm2) = time_of (sys (taskManager s))
               /\ reads (sys tm2) = S (S (reads (sys (taskManager s))))).
  { destruct (updateTask_writable (id task)
                (started_at (clock_ahead 0 (taskManager s)))
                (taskManager s1) task Hget1 Hok1)
      as (_ & Ht & Hl & Hf & Hc & Hr).
    split; [exact Ht|]. split; [exact Hl|]. split; [exact Hf|].
    split; [exact Hc | exact Hr]. }
  destruct H2 as (Ht2 & Hl2 & Hf2 & Hc2 & Hr2).
  set (s2 := with_taskManager tm2 s1).
  assert (Hsess2 : session_of session s2 = reply :: more).
  { rewrite <- Hsess. by destruct session. }
  assert (Hrun2 : getTask (id task) tm2 = Some running).
  { unfold getTask. rewrite Ht2. apply get_set_eq. }
  assert (Htm : forall x, taskManager (with_session session x s2) = tm2)
    by (intros x; by destruct session).
  pose proof (send_run session s2 reply more Hsess2) as Hrun.
  rewrite Hsend in Hrun. rewrite (bind_return _ _ _ _ _ Hrun).
  set (s3 := with_session session more s2). rewrite Hlisten.
  rewrite (bind_return (await (Return text)) _ s3 s3 text eq_refl).
  rewrite (bind_return _ _ _ _ _ (new_Date_run s3)).
  set (s4 := with_taskManager _ s3).
  assert (Hget4 : getTask (id task) (taskManager s4) = Some running).
  { unfold s4, s3. simpl. by rewrite Htm. }
  assert (Hok4 : faults (sys (taskManager s4)) !! logFile (taskManager s4)
                 = None).
  { unfold s4, s3. simpl. rewrite Htm. by rewrite Hl2, Hf2. }
  assert (Hclock : clock_ahead 0 (taskManager s3) = clock_ahead 2 (taskManager s)).
  { unfold clock_ahead, s3. rewrite Htm, Hc2, Hr2. f_equal. lia. }
  rewrite Hclock.
  rewrite (update_run (id task) _ s4 running Hget4 Hok4).
  eexists. split; [reflexivity|].
  destruct (updateTask_writable (id task)
              (finished_at (clock_ahead 2 (taskManager s)) text)
              (taskManager s4) running Hget4 Hok4)
    as (_ & Ht & Hl & Hf & Hc & Hr).
  assert (Htm4 : tasks (taskManager s4) = tasks tm2
                 /\ logFile (taskManager s4) = logFile tm2
                 /\ faults (sys (taskManager s4)) = faults (sys tm2)
                 /\ time_of (sys (taskManager s4)) = time_of (sys tm2)
                 /\ reads (sys (taskManager s4)) = S (reads (sys tm2))).
  { unfold s4, s3. simpl. rewrite Htm. by repeat split. }
  destruct Htm4 as (Ht4 & Hl4 & Hf4 & Hc4 & Hr4).
  split.
  { etrans; [exact Ht|]. rewrite Ht4, Ht2. apply set_set. }
  split; [etrans; [exact Hl|]; congruence|].
  split; [etrans; [exact Hf|]; congruence|].
  split; [etrans; [exact Hc|]; congruence|].
  split; [etrans; [exact Hr|]; rewrite Hr4, Hr2; lia|].
  split; [by destruct session|].
  split; [intros r Hr'; by destruct r, session|].
  by destruct session.
Qed.

(** *** A pass with a session that answers *)

Lemma development_loop (l : list Task) :
  forall (replies more : Session) (s : Orchestrator.State),
  well_keyed (tasks (taskManager s)) ->
  faults (sys (taskManager s)) !! logFile (taskManager s) = None ->
  NoDup (map id l) ->
  (forall t, In t l -> getTask (id t) (taskManager s) = Some t) ->
  dev s = replies ++ more ->
  length replies = length l ->
  Forall answers replies ->
  let r := for_of l (fun task => executeTask task devSession) s in
  snd r = Return tt
  /\ (forall t, In t l ->
        status <$> getTask (id t) (taskManager (fst r)) = Some Completed)
  /\ (forall k, ~ In k (map id l) ->
        getTask k (taskManager (fst r)) = getTask k (taskManager s))
  /\ dev (fst r) = more.
Proof.
  induction l as [|x xs IH]; intros replies more s Hwk Hok Hnd Hall Hdev Hlen Hans.
  - destruct replies; [|done]. simpl in *. by repeat split.
  - destruct replies as [|reply replies]; [done|].
    apply Forall_cons in Hans as [[Hsend [text Hlisten]] Hans].
    apply NoDup_cons in Hnd as [Hnotin Hnd].
    destruct (executeTask_ok x devSession s reply (replies ++ more) text
                (Hall x (or_introl eq_refl)) Hok Hdev Hsend Hlisten)
      as (s' & Hrun & Ht & Hl & Hf & _ & _ & Hsess & _ & _).
    simpl for_of. rewrite (bind_return _ _ _ _ _ Hrun).
    set (finished := assign _ _) in Ht.
    assert (Hwk' : well_keyed (tasks (taskManager s'))).
    { rewrite Ht.
      apply (changes_only_well_keyed (id x) (tasks (taskManager s))); [|done].
      by apply (changes_only_set _ x); [apply Hall; left|]. }
    assert (Hall' : forall t, In t xs ->
              getTask (id t) (taskManager s') = Some t).
    { intros t Hin. unfold getTask. rewrite Ht, get_set_ne.
      - apply Hall. by right.
      - intros Heq. apply Hnotin. rewrite Heq. apply list_elem_of_In.
        by apply in_map. }
    destruct (IH replies more s' Hwk' ltac:(by rewrite Hl, Hf) Hnd Hall' Hsess
                ltac:(simpl in Hlen; lia) Hans)
      as (Hr & Hdone & Hframe & Hdev').
    split; [done|]. split; [|split; [|done]].
    + intros t [<-|Hin]; [|by apply Hdone].
      rewrite Hframe.
      * unfold getTask. by rewrite Ht, get_set_eq.
      * intros Hin. apply Hnotin. by apply list_elem_of_In.
    + intros k Hk. rewrite Hframe.
      * unfold getTask. rewrite Ht. apply get_set_ne. intros Heq.
        apply Hk. left. done.
      * intros Hin. apply Hk. by right.
Qed.

(** X12: when the log can be written and the developer session answers
    one prompt for each developer task that is ready, the development pass
    returns normally with every one of these tasks completed; every other
    task is as it was, and the prompts answered are used up. *)
Theorem development_pass_completes_ready_tasks
    (s : Orchestrator.State) (replies more : Session) :
  well_keyed (tasks (taskManager s)) ->
  faults (sys (taskManager s)) !! logFile (taskManager s) = None ->
  dev s = replies ++ more ->
  length replies
    = length (List.filter (assigned developer) (getReadyTasks (taskManager s))) ->
  Forall answers replies ->
  snd (executeDevelopmentTasks s) = Return tt
  /\ (forall t,
        In t (getReadyTasks (taskManager s)) -> assignedTo t = developer ->
        status <$> getTask (id t) (taskManager (fst (executeDevelopmentTasks s)))
          = Some Completed)
  /\ (forall t, In t (getAllTasks (taskManager s)) ->
        ~ (In t (getReadyTasks (taskManager s)) /\ assignedTo t = developer) ->
        getTask (id t) (taskManager (fst (executeDevelopmentTasks s))) = Some t)
  /\ dev (fst (executeDevelopmentTasks s)) = more.
Proof.
  intros Hwk Hok Hdev Hlen Hans.
  unfold executeDevelopmentTasks. unfold bind at 1 2 3 4, gets. simpl.
  set (ready := List.filter _ _) in *.
  assert (Hin : forall t, In t ready <->
            In t (getReadyTasks (taskManager s)) /\ assignedTo t = developer).
  { intros t. unfold ready. rewrite filter_In. unfold assigned.
    by rewrite bool_decide_eq_true. }
  assert (Hstored : forall t, In t ready ->
            getTask (id t) (taskManager s) = Some t).
  { intros t Ht. apply Hin in Ht as [Ht _]. unfold getReadyTasks in Ht.
    apply filter_In in Ht as [Ht _]. by apply well_keyed_value. }
  assert (Hnd : NoDup (map id ready)).
  { apply NoDup_map_filter. unfold getReadyTasks. apply NoDup_map_filter.
    by apply well_keyed_ids. }
  destruct (development_loop ready replies more s Hwk Hok Hnd Hstored Hdev
              Hlen Hans) as (Hr & Hdone & Hframe & Hdev').
  split; [done|]. split; [|split; [|done]].
  - intros t Ht Ha. apply Hdone. by apply Hin.
  - intros t Ht Hnot. rewrite Hframe.
    + by apply well_keyed_value.
    + intros Hk. apply in_map_iff in Hk as (t' & Heq & Ht').
      apply Hnot. apply Hin.
      assert (t' = t); [|by subst].
      pose proof (Hstored t' Ht') as H1.
      pose proof (well_keyed_value _ _ Hwk Ht) as H2.
      unfold getTask in H1. rewrite Heq in H1. congruence.
Qed.

Lemma development_pass_completes_ready_tasks_witness :
  snd (executeDevelopmentTasks Samples.project) = Return tt
  /\ dev (fst (executeDevelopmentTasks Samples.project)) = [Samples.answer "c"].
Proof.
  destruct (development_pass_completes_ready_tasks Samples.project
              [Samples.answer "a"; Samples.answer "b"] [Samples.answer "c"])
    as (H1 & _ & _ & H4).
  - split; [repeat constructor | compute_done].
  - reflexivity.
  - reflexivity.
  - reflexivity.
  - repeat constructor; by eexists.
  - split; [exact H1 | exact H4].
Defined.

(** *** The whole project *)

Lemma addTask_run task s :
  faults (sys (taskManager s)) !! logFile (taskManager s) = None ->
  exists s',
    on_taskManager (addTask task) s = (s', Return tt)
    /\ tasks (taskManager s') = set (id task) task (tasks (taskManager s))
    /\ logFile (taskManager s') = logFile (taskManager s)
    /\ faults (sys (taskManager s')) = faults (sys (taskManager s))
    /\ supervisor s' = supervisor s /\ dev s' = dev s /\ test s' = test s
    /\ dispatched s' = dispatched s.
Proof.
  intros Hok. rewrite on_taskManager_run. eexists. split.
  - f_equal. rewrite addTask_completion. unfold log_written. by rewrite Hok.
  - simpl. rewrite addTask_tasks. destruct (addTask_frame task (taskManager s)).
    by repeat split.
Qed.

Lemma adding_run (added : list Task) s :
  faults (sys (taskManager s)) !! logFile (taskManager s) = None ->
  exists s',
    for_of added (fun task => on_taskManager (addTask task)) s = (s', Return tt)
    /\ tasks (taskManager s')
       = fold_left (fun m t => set (id t) t m) added (tasks (taskManager s))
    /\ logFile (taskManager s') = logFile (taskManager s)
    /\ faults (sys (taskManager s')) = faults (sys (taskManager s))
    /\ supervisor s' = supervisor s /\ dev s' = dev s /\ test s' = test s
    /\ dispatched s' = dispatched s.
Proof.
  revert s. induction added as [|t ts IH]; intros s Hok.
  - exists s. by repeat split.
  - destruct (addTask_run t s Hok) as (s1 & Hrun & Ht & Hl & Hf & H1 & H2 & H3 & H4).
    destruct (IH s1 ltac:(by rewrite Hl, Hf))
      as (s2 & Hrun' & Ht' & Hl' & Hf' & H1' & H2' & H3' & H4').
    exists s2. simpl for_of. rewrite (bind_return _ _ _ _ _ Hrun).
    split; [done|]. simpl. rewrite Ht', Ht.
    repeat split; congruence.
Qed.

Lemma finalReview_run s reply more :
  supervisor s = reply :: more -> settles reply ->
  finalReview s = (with_session supervisorSession more s, Return tt).
Proof.
  intros Hs [Hsend Hidle]. unfold finalReview.
  pose proof (send_run supervisorSession s reply more Hs) as Hrun.
  rewrite Hsend in Hrun. rewrite (bind_return _ _ _ _ _ Hrun).
  unfold await. by rewrite Hidle.
Qed.

Lemma getTasks_run projectDescription s reply more :
  faults (sys (taskManager s)) !! logFile (taskManager s) = None ->
  supervisor s = reply :: more -> settles reply ->
  exists s',
    getTasks projectDescription s = (s', Return tt)
    /\ tasks (taskManager s')
       = fold_left (fun m t => set (id t) t m) sampleTasks
           (tasks (taskManager s))
    /\ logFile (taskManager s') = logFile (taskManager s)
    /\ faults (sys (taskManager s')) = faults (sys (taskManager s))
    /\ supervisor s' = more /\ dev s' = dev s /\ test s' = test s
    /\ dispatched s' = dispatched s.
Proof.
  intros Hok Hs [Hsend Hidle]. unfold getTasks.
  pose proof (send_run supervisorSession s reply more Hs) as Hrun.
  rewrite Hsend in Hrun. rewrite (bind_return _ _ _ _ _ Hrun). rewrite Hidle.
  set (s1 := with_session supervisorSession more s).
  rewrite (bind_return (await (Return tt)) _ s1 s1 tt eq_refl).
  destruct (adding_run sampleTasks s1 Hok)
    as (s2 & Hrun' & Ht & Hl & Hf & H1 & H2 & H3 & H4).
  exists s2. split; [exact Hrun'|]. by repeat split.
Qed.

(** X13: [processProject] with agents that answer and a log that can be
    written: the supervisor is asked for the tasks, the five sample tasks
    are created, and the two passes run T1, T2 and T3.  T4 becomes ready
    only during the development pass, which does not look again, and T5
    waits for T4: both are still pending when the project is reviewed and
    the call returns. *)
Theorem processProject_leaves_two_tasks_pending
    (projectDescription : string) (s : Orchestrator.State)
    (r1 r2 d1 d2 t1 : Reply) (sup_more dev_more test_more : Session) :
  tasks (taskManager s) = [] ->
  faults (sys (taskManager s)) !! logFile (taskManager s) = None ->
  supervisor s = r1 :: r2 :: sup_more -> settles r1 -> settles r2 ->
  dev s = d1 :: d2 :: dev_more -> answers d1 -> answers d2 ->
  test s = t1 :: test_more -> answers t1 ->
  snd (processProject projectDescription s) = Return tt
  /\ map (fun t => (id t, status t))
       (getAllTasks (taskManager (fst (processProject projectDescription s))))
     = [("T1", Completed); ("T2", Completed); ("T3", Completed);
        ("T4", Pending); ("T5", Pending)].
Proof.
  intros Hempty Hok Hsup Hr1 Hr2 Hdev [Hd1 [x1 Hx1]] [Hd2 [x2 Hx2]]
    Htest [Ht1 [x3 Hx3]].
  unfold processProject.
  destruct (getTasks_run projectDescription s r1 (r2 :: sup_more) Hok Hsup Hr1)
    as (sa & Hrun & Hta & Hla & Hfa & Hsa & Hda & Htsa & _).
  rewrite (bind_return _ _ _ _ _ Hrun). clear Hrun.
  rewrite Hempty in Hta. simpl in Hta.
  assert (Hoka : faults (sys (taskManager sa)) !! logFile (taskManager sa) = None)
    by (by rewrite Hla, Hfa).
  match type of Hta with
  | _ = [(_, ?a); (_, ?b); (_, ?c); (_, ?d); (_, ?e)] =>
      set (T1 := a) in *; set (T2 := b) in *; set (T3 := c) in *;
      set (T4 := d) in *; set (T5 := e) in *
  end.
  (* the development pass *)
  assert (Hdevrun : exists sb T1' T2',
            executeDevelopmentTasks sa = (sb, Return tt)
            /\ tasks (taskManager sb)
               = [("T1", T1'); ("T2", T2'); ("T3", T3); ("T4", T4); ("T5", T5)]
            /\ id T1' = "T1" /\ id T2' = "T2"
            /\ status T1' = Completed /\ assignedTo T1' = developer
            /\ status T2' = Completed /\ assignedTo T2' = developer
            /\ logFile (taskManager sb) = logFile (taskManager sa)
            /\ faults (sys (taskManager sb)) = faults (sys (taskManager sa))
            /\ supervisor sb = supervisor sa /\ test sb = test sa).
  { unfold executeDevelopmentTasks.
    rewrite (bind_return (gets _) _ sa sa _ eq_refl).
    assert (Hready : List.filter (assigned developer)
                       (getReadyTasks (taskManager sa)) = [T1; T2]).
    { unfold getReadyTasks, getAllTasks, is_ready, dep_completed.
      rewrite Hta. reflexivity. }
    rewrite Hready. simpl for_of.
    destruct (executeTask_ok T1 devSession sa d1 (d2 :: dev_more) x1)
      as (s1 & Hrun & Ht & Hl & Hf & _ & _ & Hs & Hother & _);
      [by unfold getTask; rewrite Hta | done | by simpl; rewrite Hda | done | done |].
    rewrite (bind_return _ _ _ _ _ Hrun). clear Hrun.
    rewrite Hta in Ht. simpl in Ht.
    destruct (executeTask_ok T2 devSession s1 d2 dev_more x2)
      as (s2 & Hrun & Ht' & Hl' & Hf' & _ & _ & Hs' & Hother' & _);
      [by unfold getTask; rewrite Ht | by rewrite Hl, Hf | done | done | done |].
    rewrite (bind_return _ _ _ _ _ Hrun). clear Hrun.
    rewrite Ht in Ht'. simpl in Ht'.
    eexists s2, _, _. split; [reflexivity|]. split; [exact Ht'|].
    split; [reflexivity|]. split; [reflexivity|].
    split; [reflexivity|]. split; [reflexivity|].
    split; [reflexivity|]. split; [reflexivity|].
    split; [congruence|]. split; [congruence|].
    pose proof (Hother supervisorSession ltac:(done)) as A1.
    pose proof (Hother' supervisorSession ltac:(done)) as A2.
    pose proof (Hother testSession ltac:(done)) as B1.
    pose proof (Hother' testSession ltac:(done)) as B2.
    simpl in *. split; congruence. }
  destruct Hdevrun as (sb & T1' & T2' & Hrun & Htb & Hi1 & Hi2
                       & Hs1 & Ha1 & Hs2 & Ha2
                       & Hlb & Hfb & Hsupb & Htestb).
  rewrite (bind_return _ _ _ _ _ Hrun). clear Hrun.
  (* the testing pass *)
  assert (Htestrun : exists sc T3',
            executeTestingTasks sb = (sc, Return tt)
            /\ tasks (taskManager sc)
               = [("T1", T1'); ("T2", T2'); ("T3", T3'); ("T4", T4); ("T5", T5)]
            /\ id T3' = "T3" /\ status T3' = Completed
            /\ supervisor sc = supervisor sb).
  { unfold executeTestingTasks.
    rewrite (bind_return (gets _) _ sb sb _ eq_refl).
    assert (Htesters : List.filter (assigned tester)
                         (getAllTasks (taskManager sb)) = [T3; T5]).
    { unfold getAllTasks, assigned. rewrite Htb. simpl. by rewrite Ha1, Ha2. }
    rewrite Htesters. simpl for_of.
    rewrite bind_assoc, (bind_return (gets _) _ sb sb _ eq_refl).
    assert (Hready : getReadyTasks (taskManager sb) = [T3; T4]).
    { unfold getReadyTasks, getAllTasks, is_ready, dep_completed.
      rewrite Htb. simpl. by rewrite Hs1, Hs2. }
    rewrite Hready. simpl List.find. cbv iota.
    destruct (executeTask_ok T3 testSession sb t1 test_more x3)
      as (s1 & Hrun & Ht & Hl & Hf & _ & _ & _ & Hother & _);
      [by unfold getTask; rewrite Htb | by rewrite Hlb, Hfb
       | by simpl; rewrite Htestb, Htsa | done | done |].
    rewrite (bind_return _ _ _ _ _ Hrun). clear Hrun.
    rewrite Htb in Ht. simpl in Ht.
    rewrite bind_assoc, (bind_return (gets _) _ s1 s1 _ eq_refl).
    assert (Hready' : getReadyTasks (taskManager s1) = [T4]).
    { unfold getReadyTasks, getAllTasks, is_ready, dep_completed.
      rewrite Ht. simpl. by rewrite Hs1, Hs2. }
    rewrite Hready'. simpl List.find. cbv iota.
    eexists s1, _. split; [reflexivity|]. split; [exact Ht|].
    split; [reflexivity|]. split; [reflexivity|]. exact (Hother supervisorSession ltac:(done)). }
  destruct Htestrun as (sc & T3' & Hrun & Htc & Hi3 & Hs3 & Hsupc).
  rewrite (bind_return _ _ _ _ _ Hrun). clear Hrun.
  (* the final review *)
  rewrite (finalReview_run sc r2 sup_more); [|congruence|done].
  split; [reflexivity|]. simpl. unfold getAllTasks. rewrite Htc. simpl.
  by rewrite Hi1, Hi2, Hi3, Hs1, Hs2, Hs3.
Qed.

Lemma processProject_leaves_two_tasks_pending_witness :
  snd (processProject "a login page" Samples.fresh) = Return tt
  /\ map (fun t => (id t, status t))
       (getAllTasks
          (taskManager (fst (processProject "a login page" Samples.fresh))))
     = [("T1", Completed); ("T2", Completed); ("T3", Completed);
        ("T4", Pending); ("T5", Pending)].
Proof.
  apply (processProject_leaves_two_tasks_pending "a login page" Samples.fresh
           (Samples.answer "T1: ...") (Samples.answer "fine")
           (Samples.answer "a") (Samples.answer "b") (Samples.answer "d")
           [] [Samples.answer "c"] [Samples.answer "e"]);
    try reflexivity; split; try reflexivity; by eexists.
Defined.

End OrchestratorMore.

(** ** Parallel development: the promise of a task, and the lanes *)

Section ParallelMore.
Import Parallel.

(** The timer is cleared and an error is noted only by a listener that
    settles the promise or finds it settled, and a promise is settled with
    a value or an error. *)
Lemma hear_commits w sig :
  ((timeout_armed w = false \/ hasError w = true) -> settled w <> None) ->
  (timeout_armed (hear w sig) = false \/ hasError (hear w sig) = true) ->
  settled (hear w sig) <> None.
Proof.
  destruct w as [o e a [c|]]; destruct sig as [[content|tool| |message|ty]|], a, e;
    simpl; intros H H'; try done; apply H; tauto.
Qed.

Lemma hear_no_pending_value w sig :
  settled w <> Some Never -> settled (hear w sig) <> Some Never.
Proof.
  destruct w as [o e a [c|]]; destruct sig as [[content|tool| |message|ty]|], a, e;
    simpl; intros H; done.
Qed.

Lemma fold_hear_no_pending_value sigs w :
  settled w <> Some Never -> settled (fold_left hear sigs w) <> Some Never.
Proof.
  revert w. induction sigs as [|sig sigs IH]; intros w H; simpl; [done|].
  by apply IH, hear_no_pending_value.
Qed.

Lemma timer_settles sigs w :
  ((timeout_armed w = false \/ hasError w = true) -> settled w <> None) ->
  In TimerFires sigs -> settled (fold_left hear sigs w) <> None.
Proof.
  revert w. induction sigs as [|sig sigs IH]; intros w Hw Hin; [done|].
  simpl. destruct Hin as [->|Hin].
  - assert (H : settled (hear w TimerFires) <> None).
    { destruct w as [o e a [c|]], a; simpl in *; try done. apply Hw. by left. }
    destruct (settled (hear w TimerFires)) as [c|] eqn:E; [|done].
    by rewrite (fold_hear_settled sigs _ c E).
  - apply IH; [|done]. by apply hear_commits.
Qed.

(** X14: the promise of [executeTask] cannot stay pending once its timer
    has gone off: whatever the session sends before and after, the wait
    ends with a value or with an error. *)
Theorem timer_bounds_the_wait (signals : list Signal) :
  In TimerFires signals -> wait signals <> Never.
Proof.
  intros Hin. unfold wait.
  pose proof (timer_settles signals new_waiter) as H.
  pose proof (fold_hear_no_pending_value signals new_waiter) as H'.
  destruct (settled (fold_left hear signals new_waiter)) as [c|].
  - intros ->. by apply H'.
  - exfalso. apply H; [|done|done]. simpl. intros [?|?]; done.
Qed.

Lemma timer_bounds_the_wait_witness :
  wait [Event (tool_execution_start "edit"); TimerFires; Event session_idle]
    <> Never.
Proof.
  apply (timer_bounds_the_wait
           [Event (tool_execution_start "edit"); TimerFires; Event session_idle]).
  right. by left.
Defined.

(** *** One call of [executeTask], in full *)










(** *** What the lanes never do *)

Lemma bind_modify {S B} (f : S -> S) (k : unit -> M S B) s :
  bind (modify f) k s = k tt (f s).
Proof. reflexivity. Qed.

Lemma try_catch_no_throw {S A} (c : M S A) (h : Exn -> M S A) s e :
  (forall e' s', snd (h e' s') <> Throw e) -> snd (try_catch c h s) <> Throw e.
Proof.
  intros H. unfold try_catch. destruct (c s) as [s' [a|e'|]]; [done| |done].
  apply H.
Qed.

Lemma executeTask_no_throw key task s e :
  snd (executeTask key task s) <> Throw e.
Proof.
  unfold executeTask, mutate. rewrite bind_modify.
  apply try_catch_no_throw. intros e' s'. by rewrite bind_modify.
Qed.

Lemma executeTasksInSession_no_throw key ts s e :
  snd (executeTasksInSession key ts s) <> Throw e.
Proof.
  unfold executeTasksInSession. revert s.
  induction ts as [|t ts IH]; intros s; simpl; [done|].
  unfold bind. pose proof (executeTask_no_throw key t s) as H.
  destruct (executeTask key t s) as [s' [[]|e'|]]; simpl in *;
    [apply IH | by destruct (H e') | done].
Qed.

Lemma promise_all_no_throw lanes :
  Forall (fun lane : M State unit => forall s e, snd (lane s) <> Throw e) lanes ->
  forall s e, snd (promise_all lanes s) <> Throw e.
Proof.
  induction 1 as [|lane lanes Hlane _ IH]; intros s e; simpl; [done|].
  specialize (Hlane s). destruct (lane s) as [s1 c1].
  specialize (IH s1). destruct (promise_all lanes s1) as [s2 c2]. simpl in *.
  destruct c1 as [[]|e1|]; [apply IH | by destruct (Hlane e1) |].
  destruct c2 as [[]|e2|]; [done | by destruct (IH e2) | done].
Qed.

(** X20: [executeTasksInParallel] never rejects.  Whatever the sessions
    do (errors, timers, a rejected send, a session that was never created),
    every failure ends in the [catch] of [executeTask]; the call resolves,
    or it stays pending with a lane whose wait never ends. *)
Theorem executeTasksInParallel_never_rejects (s : State) (e : Exn) :
  snd (executeTasksInParallel s) <> Throw e.
Proof.
  unfold executeTasksInParallel. apply promise_all_no_throw.
  repeat constructor; intros s0 e0;
    (destruct (tasksByType s _); [done | apply executeTasksInSession_no_throw]).
Qed.

(** *** What the lanes leave as it was *)

Lemma work_of_set i t t' m :
  get i m = Some t -> assignment t' = assignment t ->
  work_of (set i t' m) = work_of m.
Proof.
  intros Hget Heq. induction m as [|[k v] m IH]; simpl in *; [done|].
  destruct (String.eqb k i) eqn:E.
  - apply String.eqb_eq in E as ->. injection Hget as ->. simpl.
    by rewrite Heq.
  - simpl. f_equal. by apply IH.
Qed.

#[local] Instance same_work_refl : Reflexive same_work.
Proof. by intros s. Qed.

#[local] Instance same_work_trans : Transitive same_work.
Proof. unfold same_work. intros a b c H1 H2. by rewrite H2. Qed.

Lemma mutate_same_work i f :
  (forall t, assignment (f t) = assignment t) ->
  preserves same_work (mutate i f).
Proof.
  intros Hf s. unfold mutate, modify, same_work. simpl.
  destruct (get i (tasks s)) as [t|] eqn:E; [|done]. simpl.
  by apply (work_of_set i t).
Qed.

Lemma preserves_try_catch {S A} (R : S -> S -> Prop) `{!Transitive R}
    (c : M S A) (h : Exn -> M S A) :
  preserves R c -> (forall e, preserves R (h e)) ->
  preserves R (try_catch c h).
Proof.
  intros Hc Hh s. unfold try_catch. specialize (Hc s).
  destruct (c s) as [s' [a|e|]]; simpl in *; [done| |done].
  etrans; [exact Hc | apply Hh].
Qed.

Lemma executeTask_same_work key task :
  preserves same_work (executeTask key task).
Proof.
  unfold executeTask.
  apply preserves_bind; [apply _ | by apply mutate_same_work |]. intros _.
  apply preserves_try_catch; [apply _ | |].
  - apply preserves_bind; [apply _ | |].
    { intros s. unfold next_turn. by destruct (get key (sessions s)). }
    intros [turn|]; [|by intros s].
    apply preserves_bind; [apply _ | by intros s |]. intros result.
    apply preserves_bind; [apply _ | |].
    { intros s. by destruct (send_fails turn). }
    intros _. apply preserves_bind; [apply _ | by apply mutate_same_work |].
    intros _. by apply mutate_same_work.
  - intros e. apply preserves_bind; [apply _ | by apply mutate_same_work |].
    intros _. by apply mutate_same_work.
Qed.

Lemma promise_all_same_work lanes :
  Forall (preserves same_work) lanes -> preserves same_work (promise_all lanes).
Proof.
  induction 1 as [|lane lanes Hlane _ IH]; intros s; simpl; [done|].
  specialize (Hlane s). destruct (lane s) as [s1 c1].
  specialize (IH s1). destruct (promise_all lanes s1) as [s2 c2]. simpl in *.
  by etrans.
Qed.

(** X21: [executeTasksInParallel] adds no task, removes none and moves none,
    and leaves the id, the type, the description and the files of every
    task as they were: only status, output and error are written. *)
Theorem executeTasksInParallel_keeps_the_work (s : State) :
  work_of (tasks (fst (executeTasksInParallel s))) = work_of (tasks s).
Proof.
  unfold executeTasksInParallel.
  apply (promise_all_same_work
           (map (fun ty =>
                   match tasksByType s ty with
                   | [] => ret tt
                   | ts => executeTasksInSession (type_key ty) ts
                   end)
                [frontend; backend; database; testing])).
  repeat constructor;
    (destruct (tasksByType s _);
     [ by intros s0
     | apply preserves_for_of; [apply _ | apply _ |];
       intros x; apply executeTask_same_work ]).
Qed.

End ParallelMore.

(** ** Test automation: the promise of [sendAndWait] *)

Section SendAndWaitMore.
Import NextJs.

Lemma sendAndWait_hear_commits w h :
  ((timeout_armed w = false \/ hasError w = true) -> settled w <> None) ->
  (timeout_armed (hear w h) = false \/ hasError (hear w h) = true) ->
  settled (hear w h) <> None.
Proof.
  destruct w as [o e a [c|]];
    destruct h as [[[content|tool| |message|ty]|]|e'], a, e;
    simpl; intros H H'; try done; apply H; tauto.
Qed.

Lemma sendAndWait_no_pending_value w h :
  settled w <> Some Never -> settled (hear w h) <> Some Never.
Proof.
  destruct w as [o e a [c|]];
    destruct h as [[[content|tool| |message|ty]|]|e'], a, e;
    simpl; intros H; done.
Qed.

Lemma sendAndWait_fold_no_pending_value heard w :
  settled w <> Some Never -> settled (fold_left hear heard w) <> Some Never.
Proof.
  revert w. induction heard as [|h heard IH]; intros w H; simpl; [done|].
  by apply IH, sendAndWait_no_pending_value.
Qed.

Lemma sendAndWait_timer_settles heard w :
  ((timeout_armed w = false \/ hasError w = true) -> settled w <> None) ->
  In (Sig TimerFires) heard -> settled (fold_left hear heard w) <> None.
Proof.
  revert w. induction heard as [|h heard IH]; intros w Hw Hin; [done|].
  simpl. destruct Hin as [->|Hin].
  - assert (H : settled (hear w (Sig TimerFires)) <> None).
    { destruct w as [o e a [c|]], a; simpl in *; try done. apply Hw. by left. }
    destruct (settled (hear w (Sig TimerFires))) as [c|] eqn:E; [|done].
    by rewrite (sendAndWait_fold_settled heard _ c E).
  - apply IH; [|done]. by apply sendAndWait_hear_commits.
Qed.

(** X22: the promise of [sendAndWait] cannot stay pending once its timer
    has gone off: the call ends with a value or with an error, whatever the
    session does. *)
Theorem sendAndWait_ends_when_its_timer_fires (heard : list Heard) :
  In (Sig TimerFires) heard -> wait heard <> Never.
Proof.
  intros Hin. unfold wait.
  pose proof (sendAndWait_timer_settles heard new_waiter) as H.
  pose proof (sendAndWait_fold_no_pending_value heard new_waiter) as H'.
  destruct (settled (fold_left hear heard new_waiter)) as [c|].
  - intros ->. by apply H'.
  - exfalso. apply H; [|done|done]. simpl. intros [?|?]; done.
Qed.

Lemma sendAndWait_ends_when_its_timer_fires_witness :
  wait [Sig (Event (assistant_message (Some "working"))); Sig TimerFires]
    <> Never.
Proof.
  apply (sendAndWait_ends_when_its_timer_fires
           [Sig (Event (assistant_message (Some "working"))); Sig TimerFires]).
  right. by left.
Defined.

(** X24: [sendAndWait] passes the rejection of [session.send] on: when the
    call is still pending as the rejection arrives, it rejects with the
    error of the send, and nothing heard later changes that. *)
Theorem sendAndWait_rejects_with_the_send_error
    (pre post : list Heard) (e : Exn) :
  wait pre = Never -> wait (pre ++ SendRejects e :: post) = Throw e.
Proof.
  unfold wait. rewrite fold_left_app. simpl.
  pose proof (sendAndWait_fold_no_pending_value pre new_waiter) as H'.
  destruct (settled (fold_left hear pre new_waiter)) as [c|] eqn:E.
  - intros ->. by destruct H'.
  - intros _. erewrite sendAndWait_fold_settled; [done|].
    simpl. by rewrite E.
Qed.

Lemma sendAndWait_rejects_with_the_send_error_witness :
  wait ([Sig (Event (tool_execution_start "edit"))]
          ++ SendRejects (Error "session closed")
               :: [Sig (Event session_idle)])
    = Throw (Error "session closed").
Proof.
  apply (sendAndWait_rejects_with_the_send_error
           [Sig (Event (tool_execution_start "edit"))]
           [Sig (Event session_idle)] (Error "session closed")).
  reflexivity.
Defined.

End SendAndWaitMore.

(** ** Test automation: results, fixes and the cycle *)

Section CycleMore.
Import NextJs.

Lemma count_cons st t ts :
  count st (t :: ts) = (if has_status st t then 1 else 0) + count st ts.
Proof. unfold count. simpl. destruct (has_status st t); simpl length; lia. Qed.

Lemma counts_of_results ts :
  count "passed" ts + count "failed" ts + count "skipped" ts
    <= Z.of_nat (length ts)
  /\ (count "passed" ts + count "failed" ts + count "skipped" ts
        = Z.of_nat (length ts)
      <-> Forall counted ts).
Proof.
  induction ts as [|t ts [IH1 IH2]].
  - split; [done|]. split; [constructor | done].
  - rewrite !count_cons, Forall_cons. unfold has_status, counted.
    simpl length. rewrite Nat2Z.inj_succ.
    destruct (String.eqb_spec (status t) "passed") as [E1|E1];
      [rewrite E1; simpl; split; [lia|]; split;
         [intros H; split; [tauto | apply IH2; lia]
         | intros [_ H]; apply IH2 in H; lia]|].
    destruct (String.eqb_spec (status t) "failed") as [E2|E2];
      [rewrite E2; simpl; split; [lia|]; split;
         [intros H; split; [tauto | apply IH2; lia]
         | intros [_ H]; apply IH2 in H; lia]|].
    destruct (String.eqb_spec (status t) "skipped") as [E3|E3];
      [rewrite E3; simpl; split; [lia|]; split;
         [intros H; split; [tauto | apply IH2; lia]
         | intros [_ H]; apply IH2 in H; lia]|].
    split; [lia|]. split; [lia | tauto].
Qed.

Lemma collect_length suites ts :
  collect suites = inr ts ->
  length ts
  = list_sum (map (fun suite => length (default [] (assertionResults suite)))
                  suites).
Proof.
  revert ts. induction suites as [|suite suites IH]; intros ts; simpl.
  - by intros [= <-].
  - destruct (assertionResults suite) as [tests|]; [|done].
    destruct (collect suites) as [e|more]; [done|].
    intros [= <-]. by rewrite length_app, length_map, (IH more).
Qed.

(** X25: the report of [parseTestResults] has one result for every
    assertion of every suite.  Its three counts are about the statuses
    passed, failed and skipped alone: together they never exceed the total,
    and they add up to it exactly when no test has another status. *)
Theorem parseTestResults_counts (jestResults : JestResults) (r : TestReport) :
  parseTestResults jestResults = inr r ->
  totalTests r
    = Z.of_nat (list_sum
                  (map (fun suite =>
                          length (default [] (assertionResults suite)))
                       (default [] (testResults jestResults))))
  /\ totalTests r = Z.of_nat (length (results r))
  /\ passed r + failed r + skipped r <= totalTests r
  /\ (passed r + failed r + skipped r = totalTests r
      <-> Forall counted (results r)).
Proof.
  unfold parseTestResults.
  destruct (testResults jestResults) as [suites|]; [|done].
  destruct (collect suites) as [e|ts] eqn:E; [done|].
  destruct (coverage_of jestResults) as [e|cov]; [done|].
  intros [= <-]. cbn [totalTests passed failed skipped results default].
  split; [by rewrite (collect_length suites ts E)|].
  split; [done | apply counts_of_results].
Qed.

Lemma parseTestResults_counts_witness :
  let jestResults :=
    {| testResults :=
         Some [{| s_name := "tests/login.test.tsx";
                  assertionResults :=
                    Some [{| fullName := Some "login renders";
                             title := "renders"; a_status := "passed";
                             failureMessages := None |};
                          {| fullName := None;
                             title := "submits"; a_status := "todo";
                             failureMessages := None |}] |}];
       coverageMap := None |} in
  exists r,
    parseTestResults jestResults = inr r
    /\ totalTests r = 2 /\ passed r = 1 /\ failed r = 0 /\ skipped r = 0.
Proof.
  intros jestResults.
  destruct (parseTestResults jestResults) as [e|r] eqn:E;
    [discriminate E|].
  destruct (parseTestResults_counts jestResults r E) as (H1 & _).
  exists r. split; [done|]. split; [exact H1|].
  injection E as <-. by repeat split.
Defined.

(** *** Running the tests *)

Lemma runTests_run s :
  runTests s =
    ({| reads := reads s; writes := writes s; runs := tl (runs s);
        generator := generator s; runner := runner s; fixer := fixer s;
        calls := calls s ++ [RanTests] |},
     match results_file (hd no_run (runs s)) with
     | inr jestResults =>
         match parseTestResults jestResults with
         | inr report => Return report
         | inl e => Throw (default e (exec_error (hd no_run (runs s))))
         end
     | inl e => Throw (default e (exec_error (hd no_run (runs s))))
     end).
Proof.
  unfold runTests, note. rewrite bind_modify.
  unfold bind, next_run, try_catch, read_results, throw, ret. simpl.
  destruct (hd no_run (runs s)) as [[e|] [e'|jr]]; simpl; try done;
    by destruct (parseTestResults jr).
Qed.




(** A results file without [testResults], and one whose coverage lacks an
    entry: [parseTestResults] throws a [TypeError]. *)
Example parseTestResults_throws :
  parseTestResults {| testResults := None; coverageMap := None |}
    = inl (TypeError "jestResults.testResults is not iterable")
  /\ parseTestResults
       {| testResults := Some [];
          coverageMap :=
            Some {| c_total :=
                      Some {| t_lines := None;
                              t_functions := Some {| pct := None |};
                              t_branches := Some {| pct := None |};
                              t_statements := Some {| pct := None |} |} |} |}
     = inl (TypeError "Cannot read properties of undefined (reading 'pct')").
Proof. split; reflexivity. Qed.

(** *** Fixing *)

Lemma fixSingleTest_calls t s :
  calls (fst (fixSingleTest t s)) = calls s ++ [FixedTest t].
Proof.
  unfold fixSingleTest, note. rewrite bind_modify.
  unfold bind, readFile, sendAndWait, ret. simpl.
  destruct (hd None (reads s)); simpl; [done|].
  by destruct (wait _).
Qed.

Lemma for_of_fixSingleTest_calls tests s :
  exists n,
    (n <= length tests)%nat
    /\ calls (fst (for_of tests fixSingleTest s))
       = calls s ++ map FixedTest (firstn n tests)
    /\ (snd (for_of tests fixSingleTest s) = Return tt -> n = length tests).
Proof.
  revert s. induction tests as [|t tests IH]; intros s; simpl.
  - exists 0%nat. simpl. by rewrite app_nil_r.
  - unfold bind. pose proof (fixSingleTest_calls t s) as Hc.
    destruct (fixSingleTest t s) as [s1 [[]|e|]]; simpl in *.
    + destruct (IH s1) as (n & Hn & Hcalls & Hret). exists (S n).
      split; [lia|]. split; [by rewrite Hcalls, Hc, <- app_assoc|].
      intros H. by rewrite (Hret H).
    + exists 1%nat. split; [lia|]. split; [by destruct tests | done].
    + exists 1%nat. split; [lia|]. split; [by destruct tests | done].
Qed.

(** X27: [fixFailedTests] asks for a fix of the failed tests of the report
    and of no other test, one at a time in the order of the report, and
    stops at the first fix that does not come back: the tests it has asked
    about are a first part of the failed tests, and all of them when it
    returns. *)
Theorem fixFailedTests_goes_in_order (report : TestReport) (s : State) :
  exists n,
    (n <= length (List.filter (has_status "failed") (results report)))%nat
    /\ calls (fst (fixFailedTests report s))
       = calls s
         ++ map FixedTest
              (firstn n (List.filter (has_status "failed") (results report)))
    /\ (snd (fixFailedTests report s) = Return tt ->
        n = length (List.filter (has_status "failed") (results report))).
Proof. rewrite fixFailedTests_for_of. apply for_of_fixSingleTest_calls. Qed.

(** *** The cycle *)

#[local] Instance same_runs_refl : Reflexive same_runs.
Proof. by intros s. Qed.

#[local] Instance same_runs_trans : Transitive same_runs.
Proof. unfold same_runs. intros a b c H1 H2. by rewrite H2. Qed.

Lemma note_same_runs c : preserves same_runs (note c).
Proof. by intros s. Qed.

Lemma readFile_same_runs : preserves same_runs readFile.
Proof. by intros s. Qed.

Lemma writeFile_same_runs : preserves same_runs writeFile.
Proof. by intros s. Qed.

Lemma sendAndWait_same_runs session : preserves same_runs (sendAndWait session).
Proof. intros s. by destruct session. Qed.

Lemma generateTests_same_runs componentPath testType :
  preserves same_runs
    (_ <- generateTests componentPath testType ;; ret tt).
Proof.
  unfold generateTests.
  apply preserves_bind; [apply _ | | by intros _ s].
  apply preserves_bind; [apply _ | apply note_same_runs |]. intros _.
  apply preserves_bind; [apply _ | apply readFile_same_runs |]. intros _.
  apply sendAndWait_same_runs.
Qed.

Lemma fixFailedTests_same_runs report :
  preserves same_runs (fixFailedTests report).
Proof.
  intros s. rewrite fixFailedTests_for_of.
  apply preserves_for_of; [apply _ | apply _ |]. intros t. unfold fixSingleTest.
  apply preserves_bind; [apply _ | apply note_same_runs |]. intros _.
  apply preserves_bind; [apply _ | apply readFile_same_runs |]. intros _.
  apply preserves_bind; [apply _ | apply sendAndWait_same_runs |].
  by intros _ s0.
Qed.

Lemma generateTestReport_same_runs report :
  preserves same_runs (generateTestReport report).
Proof.
  unfold generateTestReport.
  apply preserves_bind; [apply _ | apply note_same_runs |]. intros _.
  apply preserves_bind; [apply _ | apply sendAndWait_same_runs |]. intros x.
  apply preserves_bind; [apply _ | apply writeFile_same_runs |].
  by intros _ s.
Qed.

Lemma bind_returns {S A B} (c : M S A) (k : A -> M S B) s b :
  snd (bind c k s) = Return b ->
  exists a, snd (c s) = Return a /\ snd (k a (fst (c s))) = Return b.
Proof.
  unfold bind. destruct (c s) as [s' [a|e|]]; simpl; [eauto | done..].
Qed.

(** X28: what a cycle that returns reports.  The first run of the suite
    left a results file that could be read.  When it shows no failure its
    report is the one returned; when it shows a failure the report returned
    is that of the results file of the second run.  [success] says whether
    the report returned has no failure. *)
Theorem runFullTestCycle_reports_the_last_run
    (componentPaths : list string) (s : State) (r : CycleResult) :
  snd (runFullTestCycle componentPaths s) = Return r ->
  success r = (failed (stats r) =? 0)
  /\ exists first report0,
       results_file (hd no_run (runs s)) = inr first
       /\ parseTestResults first = inr report0
       /\ if failed report0 >? 0
          then exists second,
                 results_file (hd no_run (tl (runs s))) = inr second
                 /\ parseTestResults second = inr (stats r)
          else stats r = report0.
Proof.
  intros Hret. unfold runFullTestCycle in Hret.
  rewrite try_catch_rethrow in Hret.
  apply bind_returns in Hret as ([] & _ & Hret).
  pose proof (preserves_for_of same_runs componentPaths _
                (fun p => generateTests_same_runs p Unit) s) as Hruns.
  unfold same_runs in Hruns.
  set (s1 := fst (for_of componentPaths _ s)) in *.
  apply bind_returns in Hret as (report0 & H0 & Hret).
  rewrite runTests_run in H0, Hret. cbn [fst snd] in H0, Hret.
  rewrite Hruns in H0.
  destruct (results_file (hd no_run (runs s))) as [e|first]; [done|].
  destruct (parseTestResults first) as [e|report0'] eqn:Hfirst; [done|].
  injection H0 as ->.
  apply bind_returns in Hret as (report1 & H1 & Hret).
  apply bind_returns in Hret as (content & _ & Hret).
  injection Hret as <-. cbn [success stats].
  split; [done|]. exists first, report0. split; [done|]. split; [done|].
  destruct (failed report0 >? 0).
  - apply bind_returns in H1 as ([] & _ & H1).
    rewrite runTests_run in H1. cbn [fst snd] in H1.
    rewrite (fixFailedTests_same_runs report0 _) in H1.
    cbn [runs] in H1. rewrite Hruns in H1.
    destruct (results_file (hd no_run (tl (runs s)))) as [e|second]; [done|].
    destruct (parseTestResults second) as [e|report1'] eqn:Hsecond; [done|].
    injection H1 as ->. by exists second.
  - by injection H1 as <-.
Qed.

Lemma runFullTestCycle_reports_the_last_run_witness :
  success <$> returned
    (snd (runFullTestCycle ["src/components/LoginForm.tsx"] Samples.flaky))
  = Some false.
Proof.
  destruct (runFullTestCycle_reports_the_last_run
              ["src/components/LoginForm.tsx"] Samples.flaky _ eq_refl)
    as (Hs & _).
  exact (f_equal Some Hs).
Defined.

Lemma bind_fst_cases {S A B} (P : S -> Prop) (c : M S A) (k : A -> M S B) s :
  (forall a, snd (c s) = Return a -> P (fst (k a (fst (c s))))) ->
  ((forall a, snd (c s) <> Return a) -> P (fst (c s))) ->
  P (fst (bind c k s)).
Proof.
  unfold bind. destruct (c s) as [s' [a|e|]]; simpl; intros H1 H2;
    [by apply (H1 a) | by apply H2..].
Qed.

Lemma second_pass_runs report0 s :
  let s' := fst ((if failed report0 >? 0
                  then fixFailedTests report0 ;;; runTests
                  else ret report0) s) in
  runs s' = runs s \/ runs s' = tl (runs s).
Proof.
  simpl. destruct (failed report0 >? 0); [|by left].
  pose proof (fixFailedTests_same_runs report0 s) as H. unfold same_runs in H.
  apply bind_fst_cases.
  - intros [] _. rewrite runTests_run. cbn [fst runs]. right. by rewrite H.
  - intros _. by left.
Qed.

(** X29: a cycle runs the test suite at most twice, whatever the agents,
    the files and the tests do and however the cycle ends: of the runs
    that were to come, none, the first, or the first two are used up. *)
Theorem runFullTestCycle_runs_the_suite_at_most_twice
    (componentPaths : list string) (s : State) :
  let s' := fst (runFullTestCycle componentPaths s) in
  runs s' = runs s \/ runs s' = tl (runs s) \/ runs s' = tl (tl (runs s)).
Proof.
  simpl. unfold runFullTestCycle. rewrite try_catch_rethrow.
  pose proof (preserves_for_of same_runs componentPaths _
                (fun p => generateTests_same_runs p Unit) s) as Hruns.
  unfold same_runs in Hruns.
  apply bind_fst_cases; [|intros _; by left].
  intros [] _. set (s1 := fst (for_of componentPaths _ s)) in *.
  apply bind_fst_cases;
    [|intros _; rewrite runTests_run; cbn [fst runs]; right; left;
      by rewrite Hruns].
  intros report0 _. rewrite runTests_run. cbn [fst].
  match goal with
  | |- context [bind _ _ ?st] => set (s2 := st)
  end.
  assert (H2 : runs s2 = tl (runs s)) by (cbn [s2 runs]; by rewrite Hruns).
  pose proof (second_pass_runs report0 s2) as H3. cbv zeta in H3.
  rewrite H2 in H3.
  apply bind_fst_cases.
  - intros report1 _.
    match goal with
    | |- context [bind (generateTestReport report1) ?k ?st] =>
        pose proof (preserves_bind same_runs (generateTestReport report1) k
                      (generateTestReport_same_runs report1)
                      (fun x st' => eq_refl) st) as H4
    end.
    unfold same_runs in H4. rewrite H4. right. exact H3.
  - intros _. right. exact H3.
Qed.

End CycleMore.

(** ** The marketing orchestrator *)

Section MarketingMore.
Import Marketing.

Lemma classic_idle (evs : list SessionEvent) :
  In session_idle evs \/ ~ In session_idle evs.
Proof.
  induction evs as [|e evs [IH|IH]]; [right; intros [] | left; by right |].
  destruct e; try (right; intros [?|?]; done). left. by left.
Qed.

Lemma runAgent_listen_cases late output evs :
  (In session_idle evs -> exists out, listen late output evs = Return out)
  /\ (~ In session_idle evs -> listen late output evs = Never).
Proof.
  revert output. induction evs as [|e evs IH]; intros output.
  - split; [intros [] | done].
  - destruct (IH output) as [IH1 IH2].
    destruct e as [content|tool| |message|ty]; simpl;
      try (split; [intros [?|H]; [done | by apply IH1]
                  | intros H; apply IH2; tauto]).
    + destruct (IH (output +:+ line_of content)) as [IH1' IH2'].
      split; [intros [?|H]; [done | by apply IH1']
             | intros H; apply IH2'; tauto].
    + split; [by eexists | intros H; destruct H; by left].
Qed.

(** X30: [runAgent] has no timer and looks at no error event.  When the
    session accepts the prompt the call never throws, and it returns exactly
    when the session becomes idle: with no idle event it stays pending for
    ever, whatever else the session sends. *)
Theorem runAgent_waits_for_idle (reply : Reply) (late : nat) (name : string) :
  send_error reply = None ->
  (forall e, runAgent reply late name <> Throw e)
  /\ (In session_idle (events reply)
      <-> is_Some (returned (runAgent reply late name)))
  /\ (~ In session_idle (events reply) <-> runAgent reply late name = Never).
Proof.
  intros Hsend. unfold runAgent. rewrite Hsend.
  destruct (runAgent_listen_cases late "" (events reply)) as [H1 H2].
  destruct (classic_idle (events reply)) as [Hin|Hout].
  - destruct (H1 Hin) as [out ->]. simpl.
    split; [done|]. split; [by split | by split].
  - rewrite (H2 Hout). simpl.
    split; [done|]. split; [split; [done | by intros [? ?]] | by split].
Qed.

Lemma runAgent_waits_for_idle_witness :
  runAgent {| send_error := None;
              events := [assistant_message (Some "draft");
                         Copilot.error (Some "rate limit")] |} 0 "seo"
  = Never.
Proof.
  destruct (runAgent_waits_for_idle
              {| send_error := None;
                 events := [assistant_message (Some "draft");
                            Copilot.error (Some "rate limit")] |} 0%nat "seo"
              eq_refl)
    as (_ & _ & H).
  apply H. intros [?|[?|[]]]; done.
Defined.

End MarketingMore.
